(** * Medial: the topic graph pipeline of the Medium topics dashboard

    A shallow embedding of [utils.py] (preprocess_data, generate_data,
    compute_scaling_vars_for_numerical_cols, parse_data) and of
    [Medial.callback_size_nodes] from [app.py], followed by the properties
    of the specification that were checked against them.

    Conventions of the embedding.
    - Python [str] is [string], the bytes of its UTF-8 encoding.
    - A number is a binary64 floating-point number, as Python's [float] and
      numpy's [float64] are: a finite one is the cell [Num q] with [q] the
      rational it denotes, the infinities are [Inf], and [nan], which is
      also the missing value of pandas, is [NaN].  An integer ([int],
      [int64]) is the float of the same value: the operations used here do
      not tell the two apart for integers of magnitude below 2^52, whose
      differences are floats; larger integers are not covered.  The sign of
      a zero is not kept.  The tables hold finite numbers and missing
      values; infinities only come out of the arithmetic of
      [callback_size_nodes], which rounds every result to the nearest
      binary64 number, [b64_round].  A division by zero raises, as it does
      for Python's numbers; numpy's scalars give [inf] or [nan] with a
      warning there, and no property but C4, which is about Python's
      numbers, speaks of a division by zero.
    - A Python [set] is a [gset]; the order in which [list(s)] enumerates a
      set is not fixed by the language, so it is a variable [set_iter] of the
      development, only assumed to enumerate the set without repetition.
    - A call that raises returns [Raise e]; a call that returns [v] returns
      [Ok v].
    - pandas is followed as of the 1.x series, which this code needs:
      [StringMethods] objects are iterable there (line 42 of utils.py). *)

From Stdlib Require Import QArith Qabs Qpower Qminmax Qround Lqa Ascii String.
From stdpp Require Import gmap strings pretty list fin_maps functions.

#[local] Set Warnings "-clear-no-such-hyp".

Local Open Scope string_scope.
Local Open Scope list_scope.
Local Open Scope nat_scope.

(** ** Outcomes of a call *)

Inductive exn :=
  | ItemError          (* ValueError of Series.item(): the selection is not one row *)
  | UnpackError        (* line 42 of utils.py: the .str columns cannot be unpacked
                          into two (ValueError), or nothing was selected and the
                          .str accessor is refused (AttributeError) *)
  | Exception (msg : string)   (* raise Exception(msg) *)
  | IndexError         (* sequence index out of range *)
  | KeyError (key : string)    (* missing dict key *)
  | TypeError          (* operation on a value of the wrong type, e.g. None[...] *)
  | ZeroDivisionError. (* division by a zero denominator *)

Inductive result (A : Type) :=
  | Ok (a : A)
  | Raise (e : exn).
Arguments Ok {A} a.
Arguments Raise {A} e.

#[global] Instance result_bind : MBind result := λ A B k r,
  match r with
  | Ok a => k a
  | Raise e => Raise e
  end.

(** ** Cell values *)

(** What a table cell or a dict entry holds: a string, a finite number, the
    missing value (the float [nan]), the nested dict [{"color": hex}] of an
    edge, or an infinite float ([-inf] when [negative]). *)
Inductive value :=
  | Str (s : string)
  | Num (q : Q)
  | NaN
  | Color (hex : string)
  | Inf (negative : bool).

#[global] Instance Q_eq_dec : EqDecision Q.
Proof. solve_decision. Defined.

#[global] Instance value_eq_dec : EqDecision value.
Proof. solve_decision. Defined.

Definition value_enc (v : value)
    : string + (Z * positive) + unit + string + bool :=
  match v with
  | Str s => inl (inl (inl (inl s)))
  | Num q => inl (inl (inl (inr (Qnum q, Qden q))))
  | NaN => inl (inl (inr tt))
  | Color h => inl (inr h)
  | Inf s => inr s
  end.

Definition value_dec (x : string + (Z * positive) + unit + string + bool)
    : value :=
  match x with
  | inl (inl (inl (inl s))) => Str s
  | inl (inl (inl (inr (n, d)))) => Num (Qmake n d)
  | inl (inl (inr _)) => NaN
  | inl (inr h) => Color h
  | inr s => Inf s
  end.

#[global] Instance value_countable : Countable value.
Proof.
  apply (inj_countable' value_enc value_dec).
  intros [s|[n d]| |h|s]; reflexivity.
Defined.

(** [x.notna()] on one cell. *)
Definition notna (v : value) : bool :=
  match v with
  | NaN => false
  | _ => true
  end.

(** ** Strings *)

Module Py.

Definition in_range (lo hi : nat) (a : ascii) : bool :=
  let n := nat_of_ascii a in (lo <=? n)%nat && (n <=? hi)%nat.

(** The character class [0-9a-zA-Z]. *)
Definition is_alnum (a : ascii) : bool :=
  in_range 48 57 a || in_range 65 90 a || in_range 97 122 a.

(** ASCII white space, as [str.strip()] and [str.split()] understand it.
    [strip] is only applied to strings of [0-9a-z] and spaces. *)
Definition is_space (a : ascii) : bool :=
  in_range 9 13 a || in_range 28 32 a.

(** [re.sub("[^0-9a-zA-Z]+", " ", s)]: every maximal run of characters
    outside the class becomes one space.  [in_run] tells whether the
    previous character was already part of such a run. *)
Fixpoint re_sub_from (in_run : bool) (s : string) : string :=
  match s with
  | EmptyString => EmptyString
  | String a rest =>
      if is_alnum a then String a (re_sub_from false rest)
      else if in_run then re_sub_from true rest
      else String " " (re_sub_from true rest)
  end.

Definition re_sub (s : string) : string := re_sub_from false s.

Definition lower_char (a : ascii) : ascii :=
  if in_range 65 90 a then ascii_of_nat (nat_of_ascii a + 32) else a.

(** [s.lower()]; the strings it is applied to hold only characters of
    [0-9a-zA-Z] and spaces. *)
Fixpoint lower (s : string) : string :=
  match s with
  | EmptyString => EmptyString
  | String a rest => String (lower_char a) (lower rest)
  end.

Fixpoint lstrip (s : string) : string :=
  match s with
  | EmptyString => EmptyString
  | String a rest => if is_space a then lstrip rest else s
  end.

(** Drops the trailing white space: a character is kept when it is not
    white space or when something is kept after it. *)
Fixpoint rstrip (s : string) : string :=
  match s with
  | EmptyString => EmptyString
  | String a rest =>
      match rstrip rest with
      | EmptyString => if is_space a then EmptyString else String a EmptyString
      | kept => String a kept
      end
  end.

Definition strip (s : string) : string := rstrip (lstrip s).

(** The white space of [str.split()] outside ASCII, by the bytes of its
    UTF-8 encoding: U+0085 and U+00A0 (two bytes), and U+1680, U+2000 to
    U+200A, U+2028, U+2029, U+202F, U+205F and U+3000 (three bytes). *)
Definition is_space2 (a b : ascii) : bool :=
  (nat_of_ascii a =? 194)%nat &&
  ((nat_of_ascii b =? 133)%nat || (nat_of_ascii b =? 160)%nat).

Definition is_space3 (a b c : ascii) : bool :=
  let '(x, y, z) := (nat_of_ascii a, nat_of_ascii b, nat_of_ascii c) in
  ((x =? 225) && (y =? 154) && (z =? 128))%nat ||
  ((x =? 226) && (y =? 128) &&
   ((128 <=? z) && (z <=? 138) || (z =? 168) || (z =? 169) || (z =? 175)))%nat ||
  ((x =? 226) && (y =? 129) && (z =? 159))%nat ||
  ((x =? 227) && (y =? 128) && (z =? 128))%nat.

(** [s.split()]: the maximal runs of non-white-space characters.  [word]
    is the current run, reversed. *)
Fixpoint split_from (word : list ascii) (s : string) : list string :=
  let flush :=
    match word with
    | [] => []
    | _ => [string_of_list_ascii (rev word)]
    end in
  match s with
  | EmptyString => flush
  | String a rest =>
      if is_space a then flush ++ split_from [] rest else
      match rest with
      | EmptyString => split_from (a :: word) rest
      | String b rest2 =>
          if is_space2 a b then flush ++ split_from [] rest2 else
          match rest2 with
          | EmptyString => split_from (a :: word) rest
          | String c rest3 =>
              if is_space3 a b c then flush ++ split_from [] rest3
              else split_from (a :: word) rest
          end
      end
  end.

Definition split (s : string) : list string := split_from [] s.

End Py.

(** ** The dataset *)

(** One row of [datasets/medium_topics.json]. *)
Record TopicRecord := {
  topic : string;
  stories : Q;
  writers : Q;
  related_topics : list string
}.

(** A row of the node table: the dataset row without [related_topics] and
    with [topic] renamed to [id]. *)
Record NodeRow := {
  id : string;
  node_stories : Q;
  node_writers : Q
}.

(** A row of the edge table, with its [from] and [to] cells. *)
Record EdgeRow := {
  from : value;
  to : value
}.

(** Keeps the first occurrence of every element, in order of appearance:
    what [Series.drop_duplicates()] and [Series.unique()] do.  [seen] holds
    the elements met so far. *)
Fixpoint keep_first {A} `{EqDecision A} (seen rest : list A) : list A :=
  match rest with
  | [] => []
  | x :: rest' =>
      if bool_decide (x ∈ seen) then keep_first seen rest'
      else x :: keep_first (x :: seen) rest'
  end.

Section generate_data.

(** [list(s)] for a Python set [s]. *)
Variable set_iter : gset value → list value.

(** The normal form under which topics are matched (lines 25 to 27). *)
Definition clean (s : string) : string :=
  Py.strip (Py.lower (Py.re_sub s)).

(** [Series.item()]: the only element, or ValueError. *)
Definition item {A} (l : list A) : result A :=
  match l with
  | [x] => Ok x
  | _ => Raise ItemError
  end.

(** [.explode(column="related_topics")] on the columns
    [topic, related_topics]: one row per entry of the list, and one row
    with the missing value for an empty list. *)
Definition explode_row (r : TopicRecord) : list (value * value) :=
  match related_topics r with
  | [] => [(Str (topic r), NaN)]
  | _ :: _ => (λ t, (Str (topic r), Str t)) <$> related_topics r
  end.

Definition explode (rows : list TopicRecord) : list (value * value) :=
  rows ≫= explode_row.

(** [.apply(set, axis=1)]: each row becomes the set of its two cells. *)
Definition row_set (p : value * value) : gset value :=
  {[ p.1 ]} ∪ {[ p.2 ]}.

(** [Series.drop_duplicates()]: the first occurrence of each value is
    kept.  The values are Python sets, which cannot be hashed; the hash
    table of pandas then files them under one hash and tells them apart by
    [==], that is by set equality. *)
Definition drop_duplicates (l : list (gset value)) : list (gset value) :=
  keep_first [] l.

(** [.str.get(i)] on one list: the element at [i], or the missing value. *)
Definition str_get (i : nat) (l : list value) : value :=
  default NaN (l !! i).

(** [a, b = series.str]: iterating the accessor yields the columns
    [get(0)], [get(1)], ... as long as the column has a value that is not
    missing; the unpacking asks for a first, a second, and then requires
    the iteration to be over. *)
Definition unpack_str (lists : list (list value)) : result (list value * list value) :=
  let g0 := str_get 0 <$> lists in
  if negb (existsb notna g0) then Raise UnpackError else
  let g1 := str_get 1 <$> lists in
  if negb (existsb notna g1) then Raise UnpackError else
  let g2 := str_get 2 <$> lists in
  if existsb notna g2 then Raise UnpackError else
  Ok (g0, g1).

(** The frame whose columns [from] and [to] are the two unpacked columns. *)
Definition make_edges (cols : list value * list value) : list EdgeRow :=
  (λ p, {| from := p.1; to := p.2 |}) <$> zip cols.1 cols.2.

Definition node_row (r : TopicRecord) : NodeRow :=
  {| id := topic r; node_stories := stories r; node_writers := writers r |}.

(** [generate_data(df, selected_topic)], with [selected_topic] bound.
    [None] is the Python [None]; the result [None] is the pair
    [(None, None)]. *)
Definition generate_data (df : list TopicRecord) (selected_topic : option string)
    : result (option (list EdgeRow * list NodeRow)) :=
  match selected_topic with
  | None => Ok None
  | Some selected =>
      if bool_decide (selected = "") then Ok None else
      let clean_selected_topic := clean selected in
      let clean_topics := (λ r, clean (topic r)) <$> df in
      if negb (bool_decide (clean_selected_topic ∈ clean_topics)) then Ok None else
      related ← item (related_topics <$>
                        filter (λ r, clean (topic r) = clean_selected_topic) df);
      let df_filter := λ r, topic r ∈ related ++ [selected] in
      let df_graph := drop_duplicates (row_set <$> explode (filter df_filter df)) in
      cols ← unpack_str (set_iter <$> df_graph);
      let edges := make_edges cols in
      let nodes := ⋃ df_graph in
      let nodes := node_row <$> filter (λ r, Str (topic r) ∈ nodes) df in
      Ok (Some (edges, nodes))
  end.

(** The binding of the parameter [selected_topic="Life"] at a call. *)
Inductive argument :=
  | Omitted
  | Passed (v : option string).

Definition bind_selected_topic (a : argument) : option string :=
  match a with
  | Omitted => Some "Life"
  | Passed v => v
  end.

Definition call_generate_data (df : list TopicRecord) (a : argument) :=
  generate_data df (bind_selected_topic a).

End generate_data.

(** ** The ranked table *)

(** A row of the table of [preprocess_data], under its final column names. *)
Record SummaryRow := {
  Topics : string;
  Stories : Q;
  Writers : Q
}.

(** [x.round()]: the nearest integer, the even one on a tie. *)
Definition round_half_even (q : Q) : Q :=
  let f := Qfloor q in
  let d := (q - inject_Z f)%Q in
  match (d ?= 1 # 2)%Q with
  | Lt => inject_Z f
  | Gt => inject_Z (f + 1)
  | Eq => if Z.even f then inject_Z f else inject_Z (f + 1)
  end.

Section preprocess_data.

(** [np.exp] on a float. *)
Variable np_exp : Q → Q.

(** The positions of the rows in the order in which
    [sort_values("stories", ascending=False)] returns them, given the keys.
    The default [kind="quicksort"] is used: the order of equal keys is
    whatever numpy's quicksort makes it. *)
Variable sort_order : list Q → list nat.

Definition summary_row (r : TopicRecord) : SummaryRow :=
  {| Topics := topic r;
     Stories := round_half_even (np_exp (stories r));
     Writers := round_half_even (np_exp (writers r)) |}.

(** [preprocess_data(df)].  The columns are renamed by position, which
    supposes that [df] has the columns topic, stories, writers and
    related_topics in this order. *)
Definition preprocess_data (df : list TopicRecord) : list SummaryRow :=
  let table := summary_row <$> df in
  omap (λ i, table !! i) (sort_order (Stories <$> table)).

End preprocess_data.

(** ** Tables, and the objects the caller shares with [parse_data] *)

(** The dtype of a column, as far as [select_dtypes] tells them apart:
    one of int16 ... float64, or anything else. *)
Inductive dtype := numeric | object.

#[global] Instance dtype_eq_dec : EqDecision dtype.
Proof. solve_decision. Defined.

Record Column := {
  col_dtype : dtype;
  cells : list value
}.

(** A pandas DataFrame: its number of rows and its columns by name. *)
Record DataFrame := {
  nrows : nat;
  columns : gmap string Column
}.

(** [{"min": minn, "max": maxx}] *)
Record Bounds := {
  bmin : value;
  bmax : value
}.

(** [scaling_vars]: [{"node": ..., "edge": ...}], each [None] or a dict from
    column name to bounds. *)
Record ScalingVars := {
  sv_node : option (gmap string Bounds);
  sv_edge : option (gmap string Bounds)
}.

(** [data]: [{"nodes": [...], "edges": [...]}], lists of dicts. *)
Record GraphData := {
  data_nodes : list (gmap string value);
  data_edges : list (gmap string value)
}.

(** DataFrames are objects: the caller and the callee hold references to
    the same frame.  [loc] names an object, [store] gives its current
    state, and a computation that may update objects and may raise is a
    function from the store to an outcome and the store it leaves. *)
Abbreviation loc := positive.
Abbreviation store := (loc → DataFrame).
Definition M (A : Type) : Type := store → result A * store.

Definition ret {A} (a : A) : M A := λ h, (Ok a, h).
Definition raise {A} (e : exn) : M A := λ h, (Raise e, h).
Definition lift {A} (r : result A) : M A := λ h, (r, h).
Definition load (l : loc) : M DataFrame := λ h, (Ok (h l), h).
Definition update (l : loc) (f : DataFrame → DataFrame) : M unit :=
  λ h, (Ok (), <[l := f (h l)]> h).
Definition bindM {A B} (m : M A) (k : A → M B) : M B := λ h,
  match m h with
  | (Ok a, h') => k a h'
  | (Raise e, h') => (Raise e, h')
  end.

Notation "'do' x <- m ; k" := (bindM m (λ x, k))
  (at level 10, x name, m at level 100, k at level 200).
Notation "'do_' m ; k" := (bindM m (λ _, k))
  (at level 10, m at level 100, k at level 200).

Section numbers.

(** [str(x)] for a number, in the format of its dtype. *)
Variable str_of_num : Q → string.

(** [str(v)], which [astype(str)] applies to every cell. *)
Definition str_of_value (v : value) : string :=
  match v with
  | Str s => s
  | Num q => str_of_num q
  | NaN => "nan"
  | Color hex => "{'color': '" ++ hex ++ "'}"
  | Inf negative => if negative then "-inf" else "inf"
  end.

Definition astype_str (c : Column) : Column :=
  {| col_dtype := object; cells := (λ v, Str (str_of_value v)) <$> cells c |}.

(** [df.loc[:, names] = df.loc[:, names].astype(str)], in place. *)
Definition set_astype_str (names : list string) (df : DataFrame) : DataFrame :=
  {| nrows := nrows df;
     columns := foldr (alter astype_str) (columns df) names |}.

End numbers.

(** The numbers of a column; [min()] and [max()] skip everything else. *)
Definition numbers_of (l : list value) : list Q :=
  omap (λ v, match v with Num q => Some q | _ => None end) l.

Definition fold_num (op : Q → Q → Q) (l : list Q) : value :=
  match l with
  | [] => NaN
  | q :: l' => Num (foldl op q l')
  end.

Definition series_min (c : Column) : value := fold_num Qmin (numbers_of (cells c)).
Definition series_max (c : Column) : value := fold_num Qmax (numbers_of (cells c)).

Definition compute_scaling_vars_for_numerical_cols (df : DataFrame) : gmap string Bounds :=
  (λ c, {| bmin := series_min c; bmax := series_max c |})
    <$> filter (λ kc, col_dtype kc.2 = numeric) (columns df).

(** [df.to_dict(orient="records")] *)
Definition to_dict_records (df : DataFrame) : list (gmap string value) :=
  (λ i, (λ c, default NaN (cells c !! i)) <$> columns df) <$> seq 0 (nrows df).

(** [df[name].unique().tolist()]; the column is there when this is called. *)
Definition unique_of (name : string) (df : DataFrame) : list value :=
  keep_first [] (default [] (cells <$> columns df !! name)).

(** [d[key]] *)
Definition getitem (d : gmap string value) (key : string) : result value :=
  match d !! key with
  | Some v => Ok v
  | None => Raise (KeyError key)
  end.

(** [a + b] where a string is expected on both sides. *)
Definition str_add (a b : value) : result value :=
  match a, b with
  | Str x, Str y => Ok (Str (x ++ y))
  | _, _ => Raise TypeError
  end.

(** ** Binary64 arithmetic

    Every operation gives the binary64 number nearest to the exact result,
    the one with the even mantissa when two are as near (IEEE 754, the
    rounding of Python and numpy). *)

(** [2^e] *)
Definition pow2 (e : Z) : Q := (2 ^ e)%Q.

(** The integer part of the binary logarithm of [x], for [0 < x]: with
    [2^a <= n < 2^(a+1)] and [2^b <= d < 2^(b+1)], [n / d] lies between
    [2^(a-b-1)] and [2^(a-b+1)]. *)
Definition ilog2 (x : Q) : Z :=
  let l := (Z.log2 (Qnum x) - Z.log2 (Zpos (Qden x)))%Z in
  if Qle_bool (pow2 l) x then l else (l - 1)%Z.

(** The rounding.  A binary64 number is [m * 2^e] with an integer [m] of at
    most 53 bits and [-1074 <= e]; the numbers next to [x] are the
    multiples of [2^e] for [e] the exponent of [x] less 52, and not less
    than -1074 (the subnormal numbers).  What rounds to [2^1024] or more
    in magnitude is an infinity. *)
Definition b64_round (x : Q) : value :=
  if Qeq_bool x 0 then Num 0 else
  let e := Z.max (ilog2 (Qabs x) - 52) (-1074) in
  let y := Qred (round_half_even (x / pow2 e) * pow2 e) in
  if Qle_bool (pow2 1024) (Qabs y) then Inf (Qle_bool x 0) else Num y.

(** The numbers among the values. *)
Definition is_number (v : value) : bool :=
  match v with
  | Num _ | NaN | Inf _ => true
  | Str _ | Color _ => false
  end.

Definition b64_opp (a : value) : value :=
  match a with
  | Num x => Num (- x)
  | Inf negative => Inf (negb negative)
  | _ => a
  end.

(** [a + b], [a - b], [a * b] and [a / b] on numbers; the division is only
    used with a divisor that is not zero. *)
Definition b64_add (a b : value) : value :=
  match a, b with
  | Num x, Num y => b64_round (x + y)
  | Inf s, Num _ | Num _, Inf s => Inf s
  | Inf s, Inf t => if Bool.eqb s t then Inf s else NaN
  | _, _ => NaN
  end.

Definition b64_sub (a b : value) : value := b64_add a (b64_opp b).

Definition b64_mul (a b : value) : value :=
  match a, b with
  | Num x, Num y => b64_round (x * y)
  | Inf s, Num y | Num y, Inf s =>
      if Qeq_bool y 0 then NaN else Inf (xorb s (Qle_bool y 0))
  | Inf s, Inf t => Inf (xorb s t)
  | _, _ => NaN
  end.

Definition b64_div (a b : value) : value :=
  match a, b with
  | Num x, Num y => b64_round (x / y)
  | Inf s, Num y => Inf (xorb s (Qle_bool y 0))
  | Num _, Inf _ => Num 0
  | _, _ => NaN
  end.

(** [a - b], [a * b] and [a + b] where a number is expected on both sides:
    a string or a dict is refused. *)
Definition arith (op : value → value → value) (a b : value) : result value :=
  if is_number a && is_number b then Ok (op a b) else Raise TypeError.

(** [a / b] on numbers.  Python raises on a zero divisor.  (When the
    divisor is a numpy scalar, as with the bounds that [parse_data]
    computes, numpy gives [inf] or [nan] with a warning instead of raising;
    apart from C4, which takes Python's numbers, every property that
    reaches the division has a divisor that is not zero.) *)
Definition truediv (a b : value) : result value :=
  if is_number a && is_number b then
    match b with
    | Num y => if Qeq_bool y 0 then Raise ZeroDivisionError else Ok (b64_div a b)
    | _ => Ok (b64_div a b)
    end
  else Raise TypeError.

Fixpoint mapM {A B} (f : A → result B) (l : list A) : result (list B) :=
  match l with
  | [] => Ok []
  | x :: l' => y ← f x; ys ← mapM f l'; Ok (y :: ys)
  end.

Section pipeline.

Variable set_iter : gset value → list value.
Variable str_of_num : Q → string.

(** The constants of [config.py]. *)
Variables MIN_NODE_SIZE MAX_NODE_SIZE DEFAULT_NODE_SIZE : Q.

Definition plain_node (node_name : value) : gmap string value :=
  {[ "id" := node_name; "label" := node_name; "shape" := Str "dot";
     "size" := Num DEFAULT_NODE_SIZE ]}.

(** The body of the loop over the node records (lines 106 to 112);
    [{**a, **b}] is [b ∪ a], the entries of [b] winning. *)
Definition node_dict (node_image_url_flag : bool) (node : gmap string value)
    : result (gmap string value) :=
  if negb node_image_url_flag then
    label ← getitem node "id";
    Ok ({[ "label" := label; "shape" := Str "dot";
           "size" := Num DEFAULT_NODE_SIZE ]} ∪ node)
  else
    label ← getitem node "id";
    image ← getitem node "node_image_url";
    Ok ({[ "label" := label; "shape" := Str "circularImage";
           "image" := image; "size" := Num 20 ]} ∪ node).

(** The body of the loop over the edge records (lines 116 and 117). *)
Definition edge_dict (row : gmap string value) : result (gmap string value) :=
  a ← getitem row "from";
  a_ ← str_add a (Str "__");
  b ← getitem row "to";
  edge_id ← str_add a_ b;
  Ok ({[ "id" := edge_id; "color" := Color "#97C2FC" ]} ∪ row).

Definition has_column (name : string) (df : DataFrame) : bool :=
  bool_decide (is_Some (columns df !! name)).

(** [parse_data(edge_df, node_df)]; [node_df = None] is the default. *)
Definition parse_data (edge_df : loc) (node_df : option loc)
    : M (GraphData * ScalingVars) :=
  do e <- load edge_df;
  do_ (if negb (has_column "from" e) || negb (has_column "to" e)
       then raise (Exception "Edge dataframe missing either 'from' or 'to' column.")
       else ret ());
  do_ (match node_df with
       | Some node_loc =>
           do n <- load node_loc;
           if negb (has_column "id" n)
           then raise (Exception "Node dataframe missing 'id' column.")
           else ret ()
       | None => ret ()
       end);
  do_ update edge_df (set_astype_str str_of_num ["from"; "to"]);
  do scaling_node <-
      match node_df with
      | Some node_loc =>
          do n <- load node_loc;
          ret (Some (compute_scaling_vars_for_numerical_cols n))
      | None => ret None
      end;
  do e <- load edge_df;
  let scaling_vars :=
    {| sv_node := scaling_node;
       sv_edge := Some (compute_scaling_vars_for_numerical_cols e) |} in
  do nodes <-
      match node_df with
      | None =>
          do e <- load edge_df;
          let node_list :=
            set_iter (list_to_set (unique_of "from" e ++ unique_of "to" e)) in
          ret (plain_node <$> node_list)
      | Some node_loc =>
          do_ update node_loc (set_astype_str str_of_num ["id"]);
          do n <- load node_loc;
          let node_image_url_flag := has_column "node_image_url" n in
          lift (mapM (node_dict node_image_url_flag) (to_dict_records n))
      end;
  do e <- load edge_df;
  do edges <- lift (mapM edge_dict (to_dict_records e));
  ret ({| data_nodes := nodes; data_edges := edges |}, scaling_vars).

(** [seq[-1]] *)
Definition last_item {A} (l : list A) : result A :=
  match list.last l with
  | Some x => Ok x
  | None => Raise IndexError
  end.

(** The body of the loop of lines 140 to 144, for one node. *)
Definition resize_node (scaling_vars : ScalingVars) (method : string)
    (node : gmap string value) : result (gmap string value) :=
  node_vars ← match sv_node scaling_vars with
              | Some d => Ok d
              | None => Raise TypeError
              end;
  b ← match node_vars !! method with
      | Some b => Ok b
      | None => Raise (KeyError method)
      end;
  let max_size := bmax b in
  let min_size := bmin b in
  range ← arith b64_sub (Num MAX_NODE_SIZE) (Num MIN_NODE_SIZE);
  width ← arith b64_sub max_size min_size;
  scaling ← truediv range width;
  v ← getitem node method;
  offset ← arith b64_sub v min_size;
  scaled ← arith b64_mul offset scaling;
  size ← arith b64_add scaled (Num MIN_NODE_SIZE);
  Ok (<["size" := size]> node).

(** [Medial.callback_size_nodes(data, scaling_vars, size_topics_by)].
    The nodes are updated one after the other; an exception ends the loop
    (the nodes already updated are not part of the outcome [Raise]). *)
Definition callback_size_nodes (data : GraphData) (scaling_vars : ScalingVars)
    (size_topics_by : option string) : result GraphData :=
  match size_topics_by with
  | Some label =>
      method ← last_item (Py.split label);
      nodes ← mapM (resize_node scaling_vars method) (data_nodes data);
      Ok {| data_nodes := nodes; data_edges := data_edges data |}
  | None =>
      Ok {| data_nodes := <["size" := Num DEFAULT_NODE_SIZE]> <$> data_nodes data;
            data_edges := data_edges data |}
  end.

End pipeline.

(** ** The tables of [generate_data] as frames *)

Definition edges_frame (edges : list EdgeRow) : DataFrame :=
  {| nrows := length edges;
     columns := {[ "from" := {| col_dtype := object; cells := from <$> edges |};
                   "to" := {| col_dtype := object; cells := to <$> edges |} ]} |}.

Definition nodes_frame (nodes : list NodeRow) : DataFrame :=
  {| nrows := length nodes;
     columns :=
       {[ "id" := {| col_dtype := object; cells := (λ r, Str (id r)) <$> nodes |};
          "stories" := {| col_dtype := numeric;
                          cells := (λ r, Num (node_stories r)) <$> nodes |};
          "writers" := {| col_dtype := numeric;
                          cells := (λ r, Num (node_writers r)) <$> nodes |} ]} |}.

Definition empty_frame : DataFrame := {| nrows := 0; columns := ∅ |}.

(** ** Statements and example data *)

(** Whether an edge row joins [a] and [b], in one orientation or the other. *)
Definition connects (a b : string) (row : EdgeRow) : Prop :=
  (from row = Str a ∧ to row = Str b) ∨ (from row = Str b ∧ to row = Str a).

#[global] Instance connects_dec a b row : Decision (connects a b row).
Proof. unfold connects. apply _. Defined.

(** The row of the edge table made from the list of one set. *)
Definition edge_of (l : list value) : EdgeRow :=
  {| from := str_get 0 l; to := str_get 1 l |}.

(** C1 as the specification states it. *)
Definition edges_reference_nodes (edges : list EdgeRow) (nodes : list NodeRow) : Prop :=
  ∀ row, row ∈ edges →
    (∃ n, n ∈ nodes ∧ from row = Str (id n)) ∧
    (∃ n, n ∈ nodes ∧ to row = Str (id n)).

(** C2 as the specification states it: the nodes are the matched topic and
    those of its related topics that are rows of the dataset. *)
Definition nodes_are_ego_network (df : list TopicRecord) (T : TopicRecord)
    (nodes : list NodeRow) : Prop :=
  ∀ s, s ∈ id <$> nodes ↔
       s = topic T ∨ (s ∈ related_topics T ∧ s ∈ topic <$> df).

(** The dataset of the end-to-end example of the specification. *)
Definition ex_df : list TopicRecord :=
  [ {| topic := "Life"; stories := 0; writers := 0; related_topics := ["Writing"] |};
    {| topic := "Writing"; stories := 0; writers := 0; related_topics := ["Life"] |} ].

(** A dataset in which a related topic, Writing, is not a row. *)
Definition df_dangling : list TopicRecord :=
  [ {| topic := "Life"; stories := 0; writers := 0; related_topics := ["Writing"] |} ].

(** A dataset whose only topic has no related topic. *)
Definition df_isolated : list TopicRecord :=
  [ {| topic := "Life"; stories := 0; writers := 0; related_topics := [] |} ].

(** A dataset in which every related topic is a row and Writing has no
    related topic. *)
Definition df_leaf : list TopicRecord :=
  [ {| topic := "Life"; stories := 0; writers := 0; related_topics := ["Writing"] |};
    {| topic := "Writing"; stories := 0; writers := 0; related_topics := [] |} ].

(** A dataset in which Poetry is related to Writing but not to Life. *)
Definition df_chain : list TopicRecord :=
  [ {| topic := "Life"; stories := 0; writers := 0; related_topics := ["Writing"] |};
    {| topic := "Writing"; stories := 0; writers := 0; related_topics := ["Poetry"] |};
    {| topic := "Poetry"; stories := 0; writers := 0; related_topics := ["Writing"] |} ].

(** A data set with one node, Life, whose [stories] attribute is [v], and
    scaling bounds [lo] and [hi] for [stories]. *)
Definition one_node (v : Q) : GraphData :=
  {| data_nodes := [ {[ "id" := Str "Life"; "stories" := Num v ]} ];
     data_edges := [] |}.

(** [q] is a binary64 number: rounding leaves it as it is. *)
Definition is_b64 (q : Q) : Prop := b64_round q = Num (Qred q).

(** The value of [(v - lo) * ((MAX - MIN) / (hi - lo)) + MIN] in binary64
    arithmetic: the expression of lines 143 and 144, every operation
    rounded. *)
Definition rescaled (MIN_NODE_SIZE MAX_NODE_SIZE : Q) (lo hi v : value) : value :=
  b64_add
    (b64_mul (b64_sub v lo)
       (b64_div (b64_sub (Num MAX_NODE_SIZE) (Num MIN_NODE_SIZE)) (b64_sub hi lo)))
    (Num MIN_NODE_SIZE).

Definition stories_bounds (lo hi : Q) : ScalingVars :=
  {| sv_node := Some {[ "stories" := {| bmin := Num lo; bmax := Num hi |} ]};
     sv_edge := Some ∅ |}.

(** [str(x)] on the numbers of an int64 column, for the examples. *)
Definition str_of_int64 (q : Q) : string := pretty (Qfloor q).

(** Every column of a frame has one cell per row. *)
Definition frame_wf (df : DataFrame) : Prop :=
  ∀ name c, columns df !! name = Some c → length (cells c) = nrows df.

(** The objects of the caller before a call of [parse_data]: at 1 an edge
    table with a missing [to] cell, at 2 a node table. *)
Definition ex_store : store :=
  <[ 1%positive := edges_frame [ {| from := Str "Life"; to := NaN |} ] ]>
  (<[ 2%positive := nodes_frame [ {| id := "Life"; node_stories := 3;
                                   node_writers := 5 |} ] ]>
   (λ _, empty_frame)).

(** The objects after the two conversions of [parse_data]: the [from] and
    [to] columns of the edge table (line 87), then the [id] column of the
    node table when one is given (line 102). *)
Definition converted (str_of_num : Q → string) (edge_df : loc) (node_df : option loc)
    (h : store) : store :=
  let h1 := <[edge_df := set_astype_str str_of_num ["from"; "to"] (h edge_df)]> h in
  match node_df with
  | Some node_loc => <[node_loc := set_astype_str str_of_num ["id"] (h1 node_loc)]> h1
  | None => h1
  end.

(** The two checks of lines 79 to 84. *)
Definition columns_present (edge_df : loc) (node_df : option loc) (h : store) : bool :=
  has_column "from" (h edge_df) && has_column "to" (h edge_df) &&
  match node_df with
  | Some node_loc => has_column "id" (h node_loc)
  | None => true
  end.

(** Two topics whose names differ only in punctuation and case. *)
Definition df_ambiguous : list TopicRecord :=
  [ {| topic := "Machine-Learning"; stories := 0; writers := 0;
       related_topics := ["AI"] |};
    {| topic := "Machine Learning"; stories := 0; writers := 0;
       related_topics := ["AI"] |} ].

(** A dataset in which Life lists itself as related. *)
Definition df_selfish : list TopicRecord :=
  [ {| topic := "Life"; stories := 0; writers := 0;
       related_topics := ["Life"; "Writing"] |};
    {| topic := "Writing"; stories := 0; writers := 0; related_topics := ["Life"] |} ].

(** *** The shape of a normalised name *)

(** A digit or a lowercase letter. *)
Definition is_word_char (a : ascii) : bool :=
  Py.in_range 48 57 a || Py.in_range 97 122 a.

(** Words of characters accepted by [wc], with single spaces between them.
    [after_space] tells that a space comes just before [s], so that [s] may
    not start with one.  A space at the end is allowed. *)
Fixpoint spaced (wc : ascii → bool) (after_space : bool) (s : string) : bool :=
  match s with
  | EmptyString => true
  | String a rest =>
      if wc a then spaced wc false rest
      else Ascii.eqb a " " && negb after_space && spaced wc true rest
  end.

(** The same, and [s] does not end with a space either. *)
Fixpoint words (wc : ascii → bool) (after_space : bool) (s : string) : bool :=
  match s with
  | EmptyString => negb after_space
  | String a rest =>
      if wc a then words wc false rest
      else Ascii.eqb a " " && negb after_space && words wc true rest
  end.

(** The normal form of the matching: empty, or words of digits and lowercase
    letters separated by single spaces, with no space at either end. *)
Definition normal_form (s : string) : bool :=
  match s with
  | EmptyString => true
  | _ => words is_word_char true s
  end.

(** Two strings that are the same but for the case of letters among
    [A-Za-z]. *)
Definition is_ascii_letter (a : ascii) : bool :=
  Py.in_range 65 90 a || Py.in_range 97 122 a.

Fixpoint same_but_for_case (s1 s2 : string) : bool :=
  match s1, s2 with
  | EmptyString, EmptyString => true
  | String a rest1, String b rest2 =>
      (Ascii.eqb a b ||
       is_ascii_letter a && is_ascii_letter b &&
       Ascii.eqb (Py.lower_char a) (Py.lower_char b))
      && same_but_for_case rest1 rest2
  | _, _ => false
  end.

(** [v] is not a number below [m]: it is a number that is at least [m], or
    [inf], or [nan]. *)
Definition not_below (m : Q) (v : value) : Prop :=
  match v with
  | Num q => (m <= q)%Q
  | Inf negative => negative = false
  | NaN => True
  | _ => False
  end.


(** A graph with the three nodes of [ex_nodes], and bounds for their
    [stories] attribute. *)
Definition three_nodes : GraphData :=
  {| data_nodes := [ {[ "id" := Str "Life"; "stories" := Num 7 ]};
                     {[ "id" := Str "Writing"; "stories" := Num 5 ]};
                     {[ "id" := Str "Poetry"; "stories" := Num 9 ]} ];
     data_edges := [ {[ "from" := Str "Life"; "to" := Str "Writing" ]} ] |}.

(** Objects of a caller whose tables hold numbers where names are expected:
    at 1 an edge table with numeric endpoints and a numeric [weight], at 2
    a node table with numeric ids and a [size] column of its own. *)
Definition num_store : store :=
  <[ 1%positive :=
       {| nrows := 2;
          columns :=
            {[ "from" := {| col_dtype := numeric; cells := [Num 1; Num 1] |};
               "to" := {| col_dtype := numeric; cells := [Num 2; Num 3] |};
               "weight" := {| col_dtype := numeric; cells := [Num 4; Num 6] |} ]} |} ]>
  (<[ 2%positive :=
        {| nrows := 3;
           columns :=
             {[ "id" := {| col_dtype := numeric; cells := [Num 1; Num 2; Num 3] |};
                "size" := {| col_dtype := numeric;
                             cells := [Num 7; Num 8; Num 9] |} ]} |} ]>
   (λ _, empty_frame)).

(** At 1 an edge table without the [to] column. *)
Definition bad_store : store :=
  <[ 1%positive :=
       {| nrows := 1;
          columns := {[ "from" := {| col_dtype := object;
                                     cells := [Str "Life"] |} ]} |} ]>
  (λ _, empty_frame).

(** ** The application: [Medial] and its callbacks *)

(** The two tables that [generate_data] returns are new objects; the caller
    passes them to [parse_data] and drops them after the call. *)
Definition fresh_tables (edge_df : list EdgeRow) (node_df : list NodeRow) : store :=
  <[ 1%positive := edges_frame edge_df ]>
  (<[ 2%positive := nodes_frame node_df ]> (λ _, empty_frame)).

(** The attributes of a [Medial] object ([self.size_topics_by] is a
    constant list of labels that only the layout reads). *)
Record Medial := {
  self_df : list TopicRecord;
  self_table : list SummaryRow;
  self_data : GraphData;
  self_scaling_vars : ScalingVars
}.

(** The payload that [callback_search_graph] returns is either the object
    bound to [self.data] (line 135) or a new object that nothing else
    refers to (line 134). *)
Inductive payload :=
  | self_data_object
  | new_object (data : GraphData).

Definition deref (self : Medial) (p : payload) : GraphData :=
  match p with
  | self_data_object => self_data self
  | new_object data => data
  end.

(** The exceptions of [Medial.__init__]: those of the functions it calls,
    and the AttributeError of [None.columns] at line 79 of [utils.py] when
    [parse_data] is passed the pair [(None, None)]. *)
Inductive init_exn :=
  | Of_call (e : exn)
  | AttributeError.

(** [format(n, ",d")] for a number that is not negative: the decimal digits
    with a comma before every group of three, counted from the right.  [k]
    is the number of digits of the current group already placed. *)
Fixpoint commas (k : nat) (rev_digits : list ascii) : list ascii :=
  match rev_digits with
  | [] => []
  | d :: rest =>
      match k with
      | 3 => ","%char :: d :: commas 1 rest
      | _ => d :: commas (S k) rest
      end
  end.

Definition format_comma_d (n : Z) : string :=
  let digits := list_ascii_of_string (pretty (Z.abs_N n)) in
  (if bool_decide (n < 0)%Z then "-" else "")
  +:+ string_of_list_ascii (rev (commas 0 (rev digits))).

(** ["{}".format(x)] for a string or [None]. *)
Definition format_str (x : option string) : string :=
  match x with
  | Some s => s
  | None => "None"
  end.

Section app.

Variable set_iter : gset value → list value.
Variable str_of_num : Q → string.
Variable np_exp : Q → Q.
Variable sort_order : list Q → list nat.
Variables MIN_NODE_SIZE MAX_NODE_SIZE DEFAULT_NODE_SIZE : Q.

(** [Medial.__init__], given the dataset read from the JSON file. *)
Definition Medial_init (df : list TopicRecord) : Medial + init_exn :=
  let table := preprocess_data np_exp sort_order df in
  match call_generate_data set_iter df Omitted with
  | Raise e => inr (Of_call e)
  | Ok None => inr AttributeError
  | Ok (Some (edge_df, node_df)) =>
      match (parse_data set_iter str_of_num DEFAULT_NODE_SIZE
               1%positive (Some 2%positive) (fresh_tables edge_df node_df)).1 with
      | Raise e => inr (Of_call e)
      | Ok (data, scaling_vars) =>
          inl {| self_df := df; self_table := table; self_data := data;
                 self_scaling_vars := scaling_vars |}
      end
  end.

(** [Medial.callback_search_graph(df, search_text)] *)
Definition callback_search_graph (self : Medial) (df : list TopicRecord)
    (search_text : option string) : result (payload * ScalingVars) :=
  tables ← generate_data set_iter df search_text;
  match tables with
  | Some (edge_df, node_df) =>
      out ← (parse_data set_iter str_of_num DEFAULT_NODE_SIZE
               1%positive (Some 2%positive) (fresh_tables edge_df node_df)).1;
      Ok (new_object out.1, out.2)
  | None => Ok (self_data_object, self_scaling_vars self)
  end.

(** The loop of lines 140 to 144 on the list object [data["nodes"]]: when a
    node raises, the nodes before it have their new size already. *)
Fixpoint resize_nodes (scaling_vars : ScalingVars) (method : string)
    (nodes : list (gmap string value)) : result unit * list (gmap string value) :=
  match nodes with
  | [] => (Ok (), [])
  | node :: rest =>
      match resize_node MIN_NODE_SIZE MAX_NODE_SIZE scaling_vars method node with
      | Ok node' =>
          let '(r, rest') := resize_nodes scaling_vars method rest in
          (r, node' :: rest')
      | Raise e => (Raise e, node :: rest)
      end
  end.

(** [Medial.callback_size_nodes] as what it does to the object [data]: the
    outcome, and the object after the call (which is what is returned). *)
Definition size_nodes_in_place (data : GraphData) (scaling_vars : ScalingVars)
    (size_topics_by : option string) : result unit * GraphData :=
  match size_topics_by with
  | Some label =>
      match last_item (Py.split label) with
      | Raise e => (Raise e, data)
      | Ok method =>
          let '(r, nodes) := resize_nodes scaling_vars method (data_nodes data) in
          (r, {| data_nodes := nodes; data_edges := data_edges data |})
      end
  | None =>
      (Ok (),
       {| data_nodes := <["size" := Num DEFAULT_NODE_SIZE]> <$> data_nodes data;
          data_edges := data_edges data |})
  end.

(** [update_total_related_topics(search_text)] *)
Definition update_total_related_topics (self : Medial)
    (search_text : option string) : result string :=
  tables ← generate_data set_iter (self_df self) search_text;
  match tables with
  | Some (_, node_df) =>
      Ok ("Total number of " +:+ String "034" (format_str search_text)
          +:+ String "034" " related topics: "
          +:+ format_comma_d (Z.of_nat (length node_df) - 1))
  | None =>
      if bool_decide (search_text = None ∨ search_text = Some "")
      then Ok "Type a topic you want to find."
      else Ok "Topic not found."
  end.

(** [setting_pane_callback(search_text, size_topics_by)]: the outcome, and
    the [Medial] object after the call.  Lines 211 and 212 are reached when
    nothing was raised; a payload that is the object [self.data] has been
    updated by then, also when the sizing raises. *)
Definition setting_pane_callback (self : Medial)
    (search_text size_topics_by : option string) : result GraphData * Medial :=
  match callback_search_graph self (self_df self) search_text with
  | Raise e => (Raise e, self)
  | Ok (p, scaling_vars) =>
      let '(r, data) := size_nodes_in_place (deref self p) scaling_vars
                          size_topics_by in
      match r with
      | Raise e =>
          (Raise e,
           match p with
           | self_data_object =>
               {| self_df := self_df self; self_table := self_table self;
                  self_data := data;
                  self_scaling_vars := self_scaling_vars self |}
           | new_object _ => self
           end)
      | Ok _ =>
          (Ok data,
           {| self_df := self_df self; self_table := self_table self;
              self_data := data; self_scaling_vars := scaling_vars |})
      end
  end.

End app.

(** A [Medial] object over [ex_df] that shows [three_nodes]. *)
Definition ex_medial (df : list TopicRecord) : Medial :=
  {| self_df := df; self_table := [];
     self_data := three_nodes; self_scaling_vars := stories_bounds 5 9 |}.

(** The node and the edge of the payload for a row of the tables of
    [generate_data]. *)
Definition node_of_row (DEFAULT_NODE_SIZE : Q) (r : NodeRow) : gmap string value :=
  {[ "id" := Str (id r); "label" := Str (id r); "shape" := Str "dot";
     "size" := Num DEFAULT_NODE_SIZE;
     "stories" := Num (node_stories r); "writers" := Num (node_writers r) ]}.

Definition edge_of_row (str_of_num : Q → string) (e : EdgeRow) : gmap string value :=
  let a := str_of_value str_of_num (from e) in
  let b := str_of_value str_of_num (to e) in
  {[ "from" := Str a; "to" := Str b; "id" := Str ((a +:+ "__") +:+ b);
     "color" := Color "#97C2FC" ]}.

(** Two topics that name each other, with different numbers of stories and
    of writers. *)
Definition df_two : list TopicRecord :=
  [ {| topic := "Life"; stories := 7; writers := 3;
       related_topics := ["Writing"] |};
    {| topic := "Writing"; stories := 5; writers := 4;
       related_topics := ["Life"] |} ].

(** * Properties *)

(** ** Auxiliary facts on the operations of [generate_data] *)

Section keep_first.

Context {A : Type} `{EqDecision A}.

Lemma elem_of_keep_first (seen l : list A) (x : A) :
  x ∈ keep_first seen l ↔ x ∈ l ∧ x ∉ seen.
Proof.
  revert seen. induction l as [|y l IH]; intros seen; simpl.
  - split; [intros Hx|intros [Hx _]]; by apply elem_of_nil in Hx.
  - case_bool_decide as Hy.
    + rewrite IH, elem_of_cons. split; [tauto|].
      intros [[->|Hx] Hn]; [done|tauto].
    + rewrite !elem_of_cons, IH, elem_of_cons. split.
      * intros [->|[Hx Hn]]; [tauto|]. split; [tauto|]. intros Hs. tauto.
      * intros [[->|Hx] Hn]; [tauto|].
        destruct (decide (x = y)) as [->|Hne]; [tauto|]. right. tauto.
Qed.

Lemma NoDup_keep_first (seen l : list A) : NoDup (keep_first seen l).
Proof.
  revert seen. induction l as [|y l IH]; intros seen; simpl.
  - constructor.
  - case_bool_decide as Hy; [apply IH|].
    constructor; [|apply IH].
    rewrite elem_of_keep_first, elem_of_cons. tauto.
Qed.

End keep_first.

Lemma elem_of_drop_duplicates (l : list (gset value)) (s : gset value) :
  s ∈ drop_duplicates l ↔ s ∈ l.
Proof.
  unfold drop_duplicates. rewrite elem_of_keep_first.
  split; [tauto|]. intros Hs. split; [done|]. apply not_elem_of_nil.
Qed.

Lemma elem_of_explode_row (r : TopicRecord) (p : value * value) :
  p ∈ explode_row r ↔
  p.1 = Str (topic r) ∧
  ((related_topics r = [] ∧ p.2 = NaN) ∨ ∃ t, t ∈ related_topics r ∧ p.2 = Str t).
Proof.
  unfold explode_row. destruct p as [a b]. simpl.
  destruct (related_topics r) as [|t0 rel] eqn:E at 1.
  - rewrite E, list_elem_of_singleton. split.
    + intros [= -> ->]. split; [done|]. by left.
    + intros [-> [[_ ->]|(t & Ht & _)]]; [done|]. by apply elem_of_nil in Ht.
  - rewrite list_elem_of_fmap. split.
    + intros (t & [= -> ->] & Ht). split; [done|]. right. eauto.
    + intros [-> [[E' _]|(t & Ht & ->)]]; [congruence|]. eauto.
Qed.

Lemma elem_of_row_set (p : value * value) (x : value) :
  x ∈ row_set p ↔ x = p.1 ∨ x = p.2.
Proof. unfold row_set. rewrite elem_of_union, !elem_of_singleton. done. Qed.

(** The strings met in the pairs of a list of rows are the names of the rows
    and their related topics. *)
Lemma Str_in_graph (rows : list TopicRecord) (s : string) :
  Str s ∈ ⋃ drop_duplicates (row_set <$> explode rows) ↔
  ∃ r, r ∈ rows ∧ (s = topic r ∨ s ∈ related_topics r).
Proof.
  rewrite elem_of_union_list. split.
  - intros (S & HS & Hs). rewrite elem_of_drop_duplicates in HS.
    apply list_elem_of_fmap in HS as (p & -> & Hp).
    apply list_elem_of_bind in Hp as (r & Hp & Hr).
    apply elem_of_explode_row in Hp as [H1 H2].
    exists r. split; [done|].
    apply elem_of_row_set in Hs as [Hs|Hs].
    + left. congruence.
    + right. destruct H2 as [[_ H2]|(t & Ht & H2)]; [congruence|].
      rewrite H2 in Hs. by injection Hs as ->.
  - intros (r & Hr & Hs).
    assert (∃ p, p ∈ explode_row r ∧ Str s ∈ row_set p) as (p & Hp & Hsp).
    { destruct Hs as [->|Hs].
      - destruct (related_topics r) as [|t rel] eqn:E.
        + exists (Str (topic r), NaN). split.
          * apply elem_of_explode_row. split; [done|]. by left.
          * apply elem_of_row_set. by left.
        + exists (Str (topic r), Str t). split.
          * apply elem_of_explode_row. split; [done|]. right. exists t.
            rewrite E. split; [|done]. apply elem_of_cons. by left.
          * apply elem_of_row_set. by left.
      - exists (Str (topic r), Str s). split.
        + apply elem_of_explode_row. split; [done|]. right. eauto.
        + apply elem_of_row_set. by right. }
    exists (row_set p). split; [|done].
    apply elem_of_drop_duplicates, list_elem_of_fmap. exists p. split; [done|].
    apply list_elem_of_bind. eauto.
Qed.

Lemma unpack_str_Ok (lists : list (list value)) (cols : list value * list value) :
  unpack_str lists = Ok cols →
  cols = (str_get 0 <$> lists, str_get 1 <$> lists).
Proof.
  unfold unpack_str. repeat case_match; congruence.
Qed.

Lemma make_edges_unpacked (lists : list (list value)) :
  make_edges (str_get 0 <$> lists, str_get 1 <$> lists) =
  edge_of <$> lists.
Proof.
  unfold make_edges. cbn [fst snd].
  induction lists as [|l lists IH]; csimpl; [done|]. f_equal. exact IH.
Qed.

Lemma item_Ok {A} (l : list A) (x : A) : item l = Ok x → l = [x].
Proof. destruct l as [|y [|z l]]; simpl; congruence. Qed.

(** What a run that returns tables has gone through. *)
Lemma generate_data_Some set_iter df selected edges nodes :
  generate_data set_iter df (Some selected) = Ok (Some (edges, nodes)) →
  ∃ T,
    filter (λ r, clean (topic r) = clean selected) df = [T] ∧
    let df_graph :=
      drop_duplicates (row_set <$>
        explode (filter (λ r, topic r ∈ related_topics T ++ [selected]) df)) in
    edges = edge_of <$> (set_iter <$> df_graph) ∧
    nodes = node_row <$> filter (λ r, Str (topic r) ∈ ⋃ df_graph) df.
Proof.
  unfold generate_data. case_bool_decide; [done|].
  case_match; [done|].
  destruct (item _) as [related|] eqn:Hitem; simpl; [|done].
  apply item_Ok in Hitem.
  destruct (filter _ df) as [|T [|]] eqn:HT; try done.
  injection Hitem as <-.
  destruct (unpack_str _) as [cols|] eqn:Hcols; simpl; [|done].
  apply unpack_str_Ok in Hcols as ->.
  intros [= <- <-]. exists T. split; [done|]. simpl.
  by rewrite make_edges_unpacked.
Qed.

Lemma str_get_Str (i : nat) (l : list value) (s : string) :
  str_get i l = Str s → Str s ∈ l.
Proof.
  unfold str_get. destruct (l !! i) as [v|] eqn:E; simpl; [|done].
  intros ->. by eapply list_elem_of_lookup_2.
Qed.

Lemma filter_none {A} (P : A → Prop) `{∀ x, Decision (P x)} (l : list A) :
  (∀ x, x ∈ l → ¬ P x) → filter P l = [].
Proof.
  induction l as [|x l IH]; intros Hl; [done|].
  rewrite filter_cons_False.
  - apply IH. intros y Hy. apply Hl, elem_of_cons. by right.
  - apply Hl, elem_of_cons. by left.
Qed.

(** In a list without repetition, at most one element is sent by [f] to a
    value with a property that identifies the element. *)
Lemma filter_fmap_at_most_one {A B} (f : A → B) (P : B → Prop)
    `{∀ y, Decision (P y)} (l : list A) (a0 : A) :
  NoDup l → (∀ x, x ∈ l → P (f x) → x = a0) →
  length (filter P (f <$> l)) ≤ 1.
Proof.
  induction l as [|x l IH]; intros Hnd Hl; [simpl; lia|].
  apply list.NoDup_cons in Hnd as [Hx Hnd]. rewrite fmap_cons.
  destruct (decide (P (f x))) as [HP|HP].
  - rewrite filter_cons_True by done.
    rewrite filter_none; [simpl; lia|].
    intros y Hy HPy. apply list_elem_of_fmap in Hy as (z & -> & Hz).
    assert (z = a0) by (apply Hl; [apply elem_of_cons; by right|done]).
    assert (x = a0) by (apply Hl; [apply elem_of_cons; by left|done]).
    congruence.
  - rewrite filter_cons_False by done. apply IH; [done|].
    intros y Hy. apply Hl, elem_of_cons. by right.
Qed.

Lemma filter_fmap_exactly_one {A B} (f : A → B) (P : B → Prop)
    `{∀ y, Decision (P y)} (l : list A) (a0 : A) :
  NoDup l → (∀ x, x ∈ l → P (f x) → x = a0) → a0 ∈ l → P (f a0) →
  length (filter P (f <$> l)) = 1.
Proof.
  intros Hnd Hl Ha HP.
  pose proof (filter_fmap_at_most_one f P l a0 Hnd Hl) as Hle.
  assert (f a0 ∈ filter P (f <$> l)) as Hin.
  { apply list_elem_of_filter. split; [done|]. by apply list_elem_of_fmap_2. }
  destruct (filter P (f <$> l)); [by apply elem_of_nil in Hin|simpl in *; lia].
Qed.

Section graph_properties.

Variable set_iter : gset value → list value.

(** [list(s)] enumerates the elements of [s], each once. *)
Hypothesis set_iter_perm : ∀ s, set_iter s ≡ₚ elements s.

Lemma elem_of_set_iter (s : gset value) (x : value) : x ∈ set_iter s ↔ x ∈ s.
Proof. by rewrite set_iter_perm, elem_of_elements. Qed.

(** The list of the set of a pair: one element when the two cells are
    equal, the two cells in one of the two orders otherwise. *)
Lemma set_iter_row_set (p : value * value) :
  (p.1 = p.2 ∧ set_iter (row_set p) = [p.1]) ∨
  (p.1 ≠ p.2 ∧
   (set_iter (row_set p) = [p.1; p.2] ∨ set_iter (row_set p) = [p.2; p.1])).
Proof.
  pose proof (set_iter_perm (row_set p)) as Hp. unfold row_set in *.
  destruct (decide (p.1 = p.2)) as [E|E].
  - left. split; [done|]. rewrite <- E, union_idemp_L, elements_singleton in Hp.
    rewrite <- E, union_idemp_L. by apply Permutation_singleton_r.
  - right. split; [done|].
    rewrite elements_disj_union, !elements_singleton in Hp
      by (apply disjoint_singleton_l; rewrite elem_of_singleton; done).
    simpl in Hp. symmetry in Hp. apply Permutation_length_2_inv in Hp. tauto.
Qed.

Lemma existsb_notna_true (i : nat) (lists : list (list value)) (l : list value) :
  l ∈ lists → notna (str_get i l) = true →
  existsb notna (str_get i <$> lists) = true.
Proof.
  intros Hl Hn. apply existsb_exists. exists (str_get i l). split; [|done].
  apply list_elem_of_In. by apply list_elem_of_fmap_2.
Qed.

Lemma existsb_notna_false (i : nat) (lists : list (list value)) :
  (∀ l, l ∈ lists → length l ≤ i) →
  existsb notna (str_get i <$> lists) = false.
Proof.
  intros Hlen. apply not_true_is_false. intros Hex.
  apply existsb_exists in Hex as (v & Hv & Hn).
  apply list_elem_of_In, list_elem_of_fmap in Hv as (l & -> & Hl).
  unfold str_get in Hn. rewrite lookup_ge_None_2 in Hn by (by apply Hlen).
  discriminate Hn.
Qed.

(** The run returns tables when the query is not empty, one row T matches
    it, and some selected row [r] lists a related topic [b] other than
    itself: the pair of [r] and [b] fills both unpacked columns. *)
Lemma generate_data_returns
    (df : list TopicRecord) (selected : string) (T r : TopicRecord) (b : string) :
  selected ≠ "" →
  filter (λ r, clean (topic r) = clean selected) df = [T] →
  r ∈ df → topic r ∈ related_topics T ++ [selected] →
  b ∈ related_topics r → topic r ≠ b →
  ∃ edges nodes,
    generate_data set_iter df (Some selected) = Ok (Some (edges, nodes)).
Proof.
  intros Hne HT Hr Hsel Hb Hrb. unfold generate_data.
  rewrite bool_decide_eq_false_2 by done.
  assert (T ∈ filter (λ r, clean (topic r) = clean selected) df) as HTf
    by (rewrite HT; apply list_elem_of_here).
  apply list_elem_of_filter in HTf as [Hclean HTdf].
  rewrite bool_decide_eq_true_2
    by (rewrite <- Hclean; by apply (list_elem_of_fmap_2 (λ r, clean (topic r)))).
  rewrite HT. simpl.
  set (df_graph := drop_duplicates _).
  assert (row_set (Str (topic r), Str b) ∈ df_graph) as Hin.
  { apply elem_of_drop_duplicates, list_elem_of_fmap_2, list_elem_of_bind.
    exists r. split; [|by apply list_elem_of_filter].
    apply elem_of_explode_row. split; [done|]. right. eauto. }
  assert (∀ i, i < 2 →
            notna (str_get i (set_iter (row_set (Str (topic r), Str b)))) = true)
    as Hfull.
  { intros i Hi.
    destruct (set_iter_row_set (Str (topic r), Str b)) as [[E _]|[_ [-> | ->]]].
    - simpl in E. congruence.
    - destruct i as [|[|i]]; [done..|lia].
    - destruct i as [|[|i]]; [done..|lia]. }
  apply (list_elem_of_fmap_2 set_iter) in Hin.
  unfold unpack_str.
  rewrite (existsb_notna_true 0 _ _ Hin (Hfull 0 ltac:(lia))).
  rewrite (existsb_notna_true 1 _ _ Hin (Hfull 1 ltac:(lia))).
  rewrite existsb_notna_false; [simpl; eauto|].
  intros l (S & -> & HS)%list_elem_of_fmap.
  apply elem_of_drop_duplicates, list_elem_of_fmap in HS as (p & -> & _).
  destruct (set_iter_row_set p) as [[_ ->]|[_ [-> | ->]]]; simpl; lia.
Qed.

(** The edge row of a pair joins [a] and [b] exactly when the pair is the
    unordered pair of [a] and [b], two different names. *)
Lemma connects_edge_of (p : value * value) (a b : string) :
  connects a b (edge_of (set_iter (row_set p))) ↔
  a ≠ b ∧ row_set p = row_set (Str a, Str b).
Proof.
  destruct (set_iter_row_set p) as [[E ->]|[E [-> | ->]]];
    unfold connects, edge_of, str_get, row_set; simpl.
  - split; [intros [[_ ?]|[_ ?]]; done|].
    intros [Hab Hs]. exfalso. apply Hab.
    rewrite <- E, union_idemp_L in Hs.
    assert (Str a ∈ ({[ p.1 ]} : gset value)) as Ha
      by (rewrite Hs, elem_of_union, !elem_of_singleton; tauto).
    assert (Str b ∈ ({[ p.1 ]} : gset value)) as Hb
      by (rewrite Hs, elem_of_union, !elem_of_singleton; tauto).
    apply elem_of_singleton in Ha, Hb. congruence.
  - split.
    + intros [[H1 H2]|[H1 H2]].
      * split; [intros ->; apply E; congruence|by rewrite H1, H2].
      * split; [intros ->; apply E; congruence|].
        rewrite H1, H2. apply union_comm_L.
    + intros [Hab Hs].
      assert (p.1 ∈ ({[ Str a ]} ∪ {[ Str b ]} : gset value)) as H1
        by (rewrite <- Hs, elem_of_union, !elem_of_singleton; tauto).
      assert (p.2 ∈ ({[ Str a ]} ∪ {[ Str b ]} : gset value)) as H2
        by (rewrite <- Hs, elem_of_union, !elem_of_singleton; tauto).
      rewrite elem_of_union, !elem_of_singleton in H1, H2.
      destruct H1 as [H1|H1], H2 as [H2|H2];
        try (exfalso; apply E; congruence); tauto.
  - split.
    + intros [[H1 H2]|[H1 H2]].
      * split; [intros ->; apply E; congruence|].
        rewrite H1, H2. apply union_comm_L.
      * split; [intros ->; apply E; congruence|by rewrite H1, H2].
    + intros [Hab Hs].
      assert (p.1 ∈ ({[ Str a ]} ∪ {[ Str b ]} : gset value)) as H1
        by (rewrite <- Hs, elem_of_union, !elem_of_singleton; tauto).
      assert (p.2 ∈ ({[ Str a ]} ∪ {[ Str b ]} : gset value)) as H2
        by (rewrite <- Hs, elem_of_union, !elem_of_singleton; tauto).
      rewrite elem_of_union, !elem_of_singleton in H1, H2.
      destruct H1 as [H1|H1], H2 as [H2|H2];
        try (exfalso; apply E; congruence); tauto.
Qed.

(** C1, amended.  When [generate_data] returns tables, every [from] or
    [to] value of the edge table that is the name of a topic of the dataset
    is the [id] of a row of the node table.  (An endpoint that names no
    dataset row has no node: edges are not filtered by the node set.) *)
Theorem edge_endpoints_in_dataset_are_nodes
    (df : list TopicRecord) (selected_topic : option string)
    (edges : list EdgeRow) (nodes : list NodeRow) (row : EdgeRow) (s : string) :
  generate_data set_iter df selected_topic = Ok (Some (edges, nodes)) →
  row ∈ edges →
  from row = Str s ∨ to row = Str s →
  s ∈ topic <$> df →
  s ∈ id <$> nodes.
Proof.
  intros Hrun Hrow Hs Hdf.
  destruct selected_topic as [selected|]; [|done].
  apply generate_data_Some in Hrun as (T & _ & -> & ->).
  apply list_elem_of_fmap in Hrow as (l & -> & Hl).
  apply list_elem_of_fmap in Hl as (S & -> & HS).
  assert (Str s ∈ S) as HsS.
  { apply (proj1 (elem_of_set_iter S (Str s))).
    destruct Hs as [Hs|Hs]; simpl in Hs; exact (str_get_Str _ _ _ Hs). }
  apply list_elem_of_fmap in Hdf as (r & -> & Hr).
  apply list_elem_of_fmap. exists (node_row r). split; [done|].
  apply list_elem_of_fmap_2, list_elem_of_filter. split; [|done].
  apply elem_of_union_list. eauto.
Qed.

(** C6.  Duplicate unordered pairs collapse to one edge.  Let the query be
    non-empty and matched by the single row T, and let a selected dataset
    row [r] list a related topic [b] other than itself.  Then
    [generate_data] returns tables; in the edge table at most one row joins
    two given names, in either orientation, and exactly one row joins [r]
    and [b] (whether or not the pair is also formed the other way round).
    For the two-topic dataset of the specification and the query "life",
    the nodes are Life and Writing and there is exactly one edge, which
    joins Life and Writing. *)
Theorem duplicate_pairs_collapse
    (df : list TopicRecord) (selected : string) (T r : TopicRecord) (b : string) :
  selected ≠ "" →
  filter (λ r, clean (topic r) = clean selected) df = [T] →
  r ∈ df → topic r ∈ related_topics T ++ [selected] →
  b ∈ related_topics r → topic r ≠ b →
  (∃ edges nodes,
     generate_data set_iter df (Some selected) = Ok (Some (edges, nodes)) ∧
     (∀ a' b', length (filter (connects a' b') edges) ≤ 1) ∧
     length (filter (connects (topic r) b) edges) = 1) ∧
  ∃ edge,
    generate_data set_iter ex_df (Some "life")
      = Ok (Some ([edge], node_row <$> ex_df)) ∧
    connects "Life" "Writing" edge.
Proof.
  intros Hne HT Hr Hsel Hb Hrb. split.
  - destruct (generate_data_returns df selected T r b) as (edges & nodes & Hrun);
      try done.
    exists edges, nodes. split; [done|].
    apply generate_data_Some in Hrun as (T' & HT' & -> & _).
    rewrite HT in HT'. injection HT' as <-.
    set (rows := filter (λ r, topic r ∈ related_topics T ++ [selected]) df).
    assert (∀ a' b' S, S ∈ drop_duplicates (row_set <$> explode rows) →
              connects a' b' (edge_of (set_iter S)) →
              S = row_set (Str a', Str b')) as Hid.
    { intros a' b' S HS Hc. rewrite elem_of_drop_duplicates in HS.
      apply list_elem_of_fmap in HS as (p & -> & _).
      by apply connects_edge_of in Hc as [_ ->]. }
    split.
    + intros a' b'. rewrite <- list_fmap_compose.
      apply filter_fmap_at_most_one with (a0 := row_set (Str a', Str b')).
      * apply NoDup_keep_first.
      * intros S HS Hc. exact (Hid a' b' S HS Hc).
    + rewrite <- list_fmap_compose.
      apply filter_fmap_exactly_one with (a0 := row_set (Str (topic r), Str b)).
      * apply NoDup_keep_first.
      * intros S HS Hc. exact (Hid (topic r) b S HS Hc).
      * apply elem_of_drop_duplicates, list_elem_of_fmap_2, list_elem_of_bind.
        exists r. split; [|by apply list_elem_of_filter].
        apply elem_of_explode_row. split; [done|]. right. eauto.
      * apply (proj2 (connects_edge_of (Str (topic r), Str b) (topic r) b)).
        done.
  - assert (generate_data set_iter ex_df (Some "life") =
            (cols ← unpack_str [set_iter (row_set (Str "Writing", Str "Life"))];
             Ok (Some (make_edges cols, node_row <$> ex_df)))) as ->
      by (vm_compute; reflexivity).
    destruct (set_iter_row_set (Str "Writing", Str "Life")) as [[E _]|[_ Hl]];
      [done|].
    simpl in Hl. destruct Hl as [-> | ->]; eexists; (split; [reflexivity|]);
      unfold connects; simpl; tauto.
Qed.

End graph_properties.

(** The example of the specification, queried by "Life": the endpoint Life
    of its edge is a node. *)
Lemma edge_endpoints_in_dataset_are_nodes_witness :
  generate_data elements ex_df (Some "Life")
    = Ok (Some ([{| from := Str "Writing"; to := Str "Life" |}], node_row <$> ex_df)) ∧
  "Life" ∈ id <$> (node_row <$> ex_df).
Proof.
  split; [vm_compute; reflexivity|].
  apply (edge_endpoints_in_dataset_are_nodes elements (λ s, reflexivity _)
           ex_df (Some "Life") [{| from := Str "Writing"; to := Str "Life" |}]
           (node_row <$> ex_df) {| from := Str "Writing"; to := Str "Life" |} "Life").
  - vm_compute; reflexivity.
  - apply list_elem_of_here.
  - right. reflexivity.
  - apply list_elem_of_here.
Defined.

(** C1 as stated fails: Life lists Writing as related, Writing is not a row
    of the dataset, and the edge Life -- Writing is produced although the
    node table has only Life. *)
Lemma dangling_endpoint_has_no_node :
  ∃ edges nodes,
    generate_data elements df_dangling (Some "Life") = Ok (Some (edges, nodes)) ∧
    ¬ edges_reference_nodes edges nodes.
Proof.
  eexists _, _. split; [vm_compute; reflexivity|].
  intros Href.
  destruct (Href {| from := Str "Writing"; to := Str "Life" |})
    as [(n & Hn & Hfrom) _]; [apply list_elem_of_here|].
  apply list_elem_of_singleton in Hn as ->. discriminate Hfrom.
Qed.

(** The same in a dataset all of whose related topics are rows: Writing has
    no related topic, and the missing value is an endpoint of an edge. *)
Lemma missing_value_is_an_endpoint :
  ∃ edges nodes,
    generate_data elements df_leaf (Some "Life") = Ok (Some (edges, nodes)) ∧
    ¬ edges_reference_nodes edges nodes.
Proof.
  eexists _, _. split; [vm_compute; reflexivity|].
  intros Href.
  destruct (Href {| from := NaN; to := Str "Writing" |})
    as [(n & _ & Hfrom) _]; [apply list_elem_of_further, list_elem_of_here|].
  discriminate Hfrom.
Qed.

(** The example of the specification, queried by "Life": both rows are
    selected, the pair is formed twice, and one edge joins Life and
    Writing. *)
Lemma duplicate_pairs_collapse_witness :
  ∃ edges nodes,
    generate_data elements ex_df (Some "Life") = Ok (Some (edges, nodes)) ∧
    length (filter (connects "Life" "Writing") edges) = 1.
Proof.
  destruct (duplicate_pairs_collapse elements (λ s, reflexivity _) ex_df "Life"
       {| topic := "Life"; stories := 0; writers := 0; related_topics := ["Writing"] |}
       {| topic := "Life"; stories := 0; writers := 0; related_topics := ["Writing"] |}
       "Writing") as [(edges & nodes & Hrun & _ & Hone) _].
  - discriminate.
  - vm_compute; reflexivity.
  - apply list_elem_of_here.
  - simpl. apply list_elem_of_further, list_elem_of_here.
  - apply list_elem_of_here.
  - discriminate.
  - exists edges, nodes. split; [exact Hrun|exact Hone].
Defined.

(** ** The node set *)

(** The ids of the node table are the names of the dataset rows that occur
    in a pair of the graph. *)
Lemma elem_of_node_ids (df : list TopicRecord) (P : TopicRecord → Prop)
    `{∀ r, Decision (P r)} (s : string) :
  s ∈ id <$> (node_row <$> filter P df) ↔ ∃ r, r ∈ df ∧ P r ∧ topic r = s.
Proof.
  rewrite <- list_fmap_compose, list_elem_of_fmap. split.
  - intros (r & -> & Hr). apply list_elem_of_filter in Hr as [HP Hr]. eauto.
  - intros (r & Hr & HP & <-). exists r. split; [done|].
    by apply list_elem_of_filter.
Qed.

(** The node set of a run that returns tables, for a query that is the name
    of the topic T as written. *)
Lemma node_ids_of_query_by_name
    (set_iter : gset value → list value) (df : list TopicRecord) (T : TopicRecord)
    (edges : list EdgeRow) (nodes : list NodeRow) :
  T ∈ df →
  generate_data set_iter df (Some (topic T)) = Ok (Some (edges, nodes)) →
  topic T ∈ id <$> nodes ∧
  (∀ t, t ∈ related_topics T → t ∈ topic <$> df → t ∈ id <$> nodes) ∧
  (∀ s, s ∈ id <$> nodes ↔
        s ∈ topic <$> df ∧
        ∃ r, r ∈ df ∧ topic r ∈ topic T :: related_topics T ∧
             (s = topic r ∨ s ∈ related_topics r)).
Proof.
  intros HT Hrun.
  apply generate_data_Some in Hrun as (T' & HT' & _ & ->).
  assert (T ∈ filter (λ r, clean (topic r) = clean (topic T)) df) as HTf
    by (by apply list_elem_of_filter).
  rewrite HT' in HTf. apply list_elem_of_singleton in HTf as <-. clear HT'.
  assert (∀ s, s ∈ id <$> (node_row <$>
                 filter (λ r, Str (topic r) ∈ ⋃ drop_duplicates (row_set <$>
                   explode (filter (λ r, topic r ∈ related_topics T ++ [topic T]) df)))
                   df) ↔
               s ∈ topic <$> df ∧
               ∃ r, r ∈ df ∧ topic r ∈ topic T :: related_topics T ∧
                    (s = topic r ∨ s ∈ related_topics r)) as Hchar.
  { intros s. rewrite elem_of_node_ids. split.
    - intros (r0 & Hr0 & Hin & <-). split; [by apply list_elem_of_fmap_2|].
      apply Str_in_graph in Hin as (r & Hr & Hs).
      apply list_elem_of_filter in Hr as [Hsel Hr].
      exists r. split; [done|]. split; [|done].
      rewrite elem_of_app, list_elem_of_singleton in Hsel.
      rewrite elem_of_cons. tauto.
    - intros [Hs (r & Hr & Hsel & Hrel)].
      apply list_elem_of_fmap in Hs as (r0 & -> & Hr0).
      exists r0. split; [done|]. split; [|done].
      apply Str_in_graph. exists r. split; [|done].
      apply list_elem_of_filter. split; [|done].
      rewrite elem_of_cons in Hsel.
      rewrite elem_of_app, list_elem_of_singleton. tauto. }
  split; [|split]; [..|exact Hchar].
  - apply Hchar. split; [by apply list_elem_of_fmap_2|].
    exists T. split; [done|]. split; [apply list_elem_of_here|by left].
  - intros t Ht Hdf. apply Hchar. split; [done|].
    exists T. split; [done|]. split; [apply list_elem_of_here|by right].
Qed.

(** C2, amended.  Let the query be, as written, the non-empty name of a
    topic T of the dataset, T being the only row with that normalized name
    and listing a related topic other than itself.  Then [generate_data]
    returns tables; the node set contains T and every related topic of T
    that is a row of the dataset, and it consists of exactly the dataset
    topics that are T, a related topic of T, or a related topic of a dataset
    row named by one of T's related topics.  (The topics two steps away from
    T are nodes too.) *)
Theorem nodes_of_query_by_name
    (set_iter : gset value → list value) (df : list TopicRecord) (T : TopicRecord)
    (b : string) :
  (∀ s, set_iter s ≡ₚ elements s) →
  topic T ≠ "" →
  filter (λ r, clean (topic r) = clean (topic T)) df = [T] →
  b ∈ related_topics T → topic T ≠ b →
  ∃ edges nodes,
    generate_data set_iter df (Some (topic T)) = Ok (Some (edges, nodes)) ∧
    topic T ∈ id <$> nodes ∧
    (∀ t, t ∈ related_topics T → t ∈ topic <$> df → t ∈ id <$> nodes) ∧
    (∀ s, s ∈ id <$> nodes ↔
          s ∈ topic <$> df ∧
          ∃ r, r ∈ df ∧ topic r ∈ topic T :: related_topics T ∧
               (s = topic r ∨ s ∈ related_topics r)).
Proof.
  intros Hperm Hne HT Hb HTb.
  assert (T ∈ df) as HTdf.
  { assert (T ∈ filter (λ r, clean (topic r) = clean (topic T)) df) as HTf
      by (rewrite HT; apply list_elem_of_here).
    by apply list_elem_of_filter in HTf as [_ ?]. }
  destruct (generate_data_returns set_iter Hperm df (topic T) T T b)
    as (edges & nodes & Hrun); try done.
  { apply elem_of_app. right. apply list_elem_of_here. }
  exists edges, nodes. split; [exact Hrun|].
  by eapply node_ids_of_query_by_name.
Qed.

(** In the chain Life -- Writing -- Poetry, queried by "Life", both Life
    and Poetry are nodes. *)
Lemma nodes_of_query_by_name_witness :
  ∃ edges nodes,
    generate_data elements df_chain (Some "Life") = Ok (Some (edges, nodes)) ∧
    "Life" ∈ id <$> nodes ∧ "Poetry" ∈ id <$> nodes.
Proof.
  destruct (nodes_of_query_by_name elements df_chain
    {| topic := "Life"; stories := 0; writers := 0; related_topics := ["Writing"] |}
    "Writing") as (edges & nodes & Hrun & H1 & _ & H3).
  - intros s. reflexivity.
  - discriminate.
  - vm_compute; reflexivity.
  - apply list_elem_of_here.
  - discriminate.
  - exists edges, nodes. split; [exact Hrun|]. split; [exact H1|].
    apply H3. split; [do 2 apply list_elem_of_further; apply list_elem_of_here|].
    exists {| topic := "Writing"; stories := 0; writers := 0;
              related_topics := ["Poetry"] |}.
    split; [apply list_elem_of_further, list_elem_of_here|].
    split; [apply list_elem_of_further, list_elem_of_here|].
    right. apply list_elem_of_here.
Defined.

(** C2 as stated fails: for the query "Life", Poetry is a node although it is
    neither Life nor one of the related topics of Life. *)
Lemma two_step_topic_is_a_node :
  ∃ edges nodes,
    generate_data elements df_chain (Some "Life") = Ok (Some (edges, nodes)) ∧
    ¬ nodes_are_ego_network df_chain
        {| topic := "Life"; stories := 0; writers := 0; related_topics := ["Writing"] |}
        nodes.
Proof.
  eexists _, _. split; [vm_compute; reflexivity|].
  intros Hego.
  destruct (proj1 (Hego "Poetry")) as [Heq|[Hrel _]].
  - do 2 apply list_elem_of_further. apply list_elem_of_here.
  - discriminate Heq.
  - apply list_elem_of_singleton in Hrel. discriminate Hrel.
Qed.

(** ** The null result *)

(** [(None, None)] is returned exactly for the absent or empty query and for
    a query whose normal form is the normal form of no topic. *)
Lemma generate_data_None_iff
    (set_iter : gset value → list value) (df : list TopicRecord)
    (selected_topic : option string) :
  generate_data set_iter df selected_topic = Ok None ↔
  selected_topic = None ∨ selected_topic = Some "" ∨
  ∃ selected, selected_topic = Some selected ∧
              clean selected ∉ (λ r, clean (topic r)) <$> df.
Proof.
  destruct selected_topic as [selected|]; simpl; [|tauto].
  case_bool_decide as Hempty.
  { subst. tauto. }
  case_bool_decide as Hin; simpl.
  - split; [|intros [|[[=]|(s & [= <-] & ?)]]; done].
    destruct (item _); simpl; [|done].
    destruct (unpack_str _); simpl; done.
  - split; [|done]. intros _. right. right. eauto.
Qed.

(** C3, at failing inputs.  In [df_dangling] the only topic is Life, with the
    related topic Writing; the query "life" matches Life after
    normalisation, so the result should be a pair of tables.  The rows are
    however selected with the query as typed (line 32), none is selected, and
    the call raises at line 42 instead of returning.  In [df_isolated] Life
    has no related topic: the queries "life" and "Life" both match and both
    raise, the latter whichever way the set of Life and the missing value is
    listed. *)
Theorem matching_query_raises (set_iter : gset value → list value) :
  (clean "life" ∈ (λ r, clean (topic r)) <$> df_dangling ∧
   generate_data set_iter df_dangling (Some "life") = Raise UnpackError) ∧
  (clean "life" ∈ (λ r, clean (topic r)) <$> df_isolated ∧
   generate_data set_iter df_isolated (Some "life") = Raise UnpackError) ∧
  generate_data elements df_isolated (Some "Life") = Raise UnpackError ∧
  generate_data (reverse ∘ elements) df_isolated (Some "Life") = Raise UnpackError.
Proof.
  split; [|split; [|split]].
  - split; [apply list_elem_of_here|]. vm_compute. reflexivity.
  - split; [apply list_elem_of_here|]. vm_compute. reflexivity.
  - vm_compute. reflexivity.
  - vm_compute. reflexivity.
Qed.

(** ** The default query *)

(** C9, amended.  A call that omits the query is the call with the query
    "Life", not a call without a selection.  Passing [None] or the empty
    string gives [(None, None)] on every dataset; the call without the
    argument never does when the dataset has a topic named Life, and when
    Life is the only row with its normalized name and lists a related topic
    other than itself it returns the tables that [generate_data] builds
    around Life: Life is a node, so is every related topic of Life that is a
    row of the dataset, and the nodes are exactly the dataset topics that
    are Life, a related topic of Life, or a related topic of a row named by
    one of Life's related topics. *)
Theorem omitted_query_is_Life
    (set_iter : gset value → list value) (df : list TopicRecord) :
  call_generate_data set_iter df Omitted = generate_data set_iter df (Some "Life") ∧
  call_generate_data set_iter df (Passed None) = Ok None ∧
  call_generate_data set_iter df (Passed (Some "")) = Ok None ∧
  ("Life" ∈ topic <$> df → call_generate_data set_iter df Omitted ≠ Ok None) ∧
  ∀ (T : TopicRecord) (b : string),
    (∀ s, set_iter s ≡ₚ elements s) →
    topic T = "Life" →
    filter (λ r, clean (topic r) = clean "Life") df = [T] →
    b ∈ related_topics T → b ≠ "Life" →
    ∃ edges nodes,
      call_generate_data set_iter df Omitted = Ok (Some (edges, nodes)) ∧
      "Life" ∈ id <$> nodes ∧
      (∀ t, t ∈ related_topics T → t ∈ topic <$> df → t ∈ id <$> nodes) ∧
      (∀ s, s ∈ id <$> nodes ↔
            s ∈ topic <$> df ∧
            ∃ r, r ∈ df ∧ topic r ∈ "Life" :: related_topics T ∧
                 (s = topic r ∨ s ∈ related_topics r)).
Proof.
  split; [reflexivity|]. split; [reflexivity|]. split; [reflexivity|]. split.
  - intros HLife. unfold call_generate_data. simpl bind_selected_topic.
    rewrite generate_data_None_iff. intros [|[|(s & [= <-] & Hnot)]]; [done..|].
    apply Hnot. apply list_elem_of_fmap in HLife as (r & Hr & Hin).
    apply list_elem_of_fmap. exists r. by rewrite <- Hr.
  - intros T b Hperm HT Hfilter Hb HTb.
    unfold call_generate_data. simpl bind_selected_topic.
    assert (T ∈ df) as HTdf.
    { assert (T ∈ filter (λ r, clean (topic r) = clean "Life") df) as HTf
        by (rewrite Hfilter; apply list_elem_of_here).
      by apply list_elem_of_filter in HTf as [_ ?]. }
    destruct (generate_data_returns set_iter Hperm df "Life" T T b)
      as (edges & nodes & Hrun); try done.
    { rewrite HT. apply elem_of_app. right. apply list_elem_of_here. }
    { by rewrite HT. }
    exists edges, nodes. split; [exact Hrun|].
    rewrite <- HT in Hrun |- *. by eapply node_ids_of_query_by_name.
Qed.

(** On the example of the specification the call without a query returns
    the tables of Life, and Life and Writing are the nodes. *)
Lemma omitted_query_is_Life_witness :
  ∃ edges nodes,
    call_generate_data elements ex_df Omitted = Ok (Some (edges, nodes)) ∧
    "Life" ∈ id <$> nodes ∧ "Writing" ∈ id <$> nodes.
Proof.
  destruct (omitted_query_is_Life elements ex_df) as (_ & _ & _ & _ & Hgraph).
  destruct (Hgraph {| topic := "Life"; stories := 0; writers := 0;
                      related_topics := ["Writing"] |} "Writing")
    as (edges & nodes & Hrun & HLife & Hrel & _).
  - intros s. reflexivity.
  - reflexivity.
  - vm_compute; reflexivity.
  - apply list_elem_of_here.
  - discriminate.
  - exists edges, nodes. split; [exact Hrun|]. split; [exact HLife|].
    apply Hrel; [apply list_elem_of_here|].
    apply list_elem_of_further, list_elem_of_here.
Defined.

(** C9 as stated fails: what the call without a query builds is not the ego
    graph of Life.  In the chain Life -- Writing -- Poetry, Poetry is a node
    although it is neither Life nor a related topic of Life. *)
Lemma omitted_query_graph_is_wider :
  ∃ edges nodes,
    call_generate_data elements df_chain Omitted = Ok (Some (edges, nodes)) ∧
    ¬ nodes_are_ego_network df_chain
        {| topic := "Life"; stories := 0; writers := 0; related_topics := ["Writing"] |}
        nodes.
Proof.
  eexists _, _. split; [vm_compute; reflexivity|].
  intros Hego.
  destruct (proj1 (Hego "Poetry")) as [Heq|[Hrel _]].
  - do 2 apply list_elem_of_further. apply list_elem_of_here.
  - discriminate Heq.
  - apply list_elem_of_singleton in Hrel. discriminate Hrel.
Qed.

(** Nor is a graph built whenever Life is a topic: when Life has no related
    topic the call raises (the behaviour of C3), in whichever order the set
    of Life and the missing value is listed. *)
Lemma omitted_query_can_raise :
  "Life" ∈ topic <$> df_isolated ∧
  call_generate_data elements df_isolated Omitted = Raise UnpackError ∧
  call_generate_data (reverse ∘ elements) df_isolated Omitted = Raise UnpackError.
Proof.
  split; [apply list_elem_of_here|]. split; vm_compute; reflexivity.
Qed.

(** ** Binary64 numbers *)

Lemma pow2_pos (e : Z) : (0 < pow2 e)%Q.
Proof. apply Qpower_0_lt. reflexivity. Qed.

Lemma pow2_plus (a b : Z) : (pow2 (a + b) == pow2 a * pow2 b)%Q.
Proof. apply Qpower_plus. discriminate. Qed.

Lemma pow2_nonneg_Z (a : Z) : (0 ≤ a)%Z → (pow2 a == inject_Z (2 ^ a))%Q.
Proof. intros H. unfold pow2. rewrite Zpower_Qpower by done. reflexivity. Qed.

Lemma pow2_le (a b : Z) : (a ≤ b)%Z → (pow2 a <= pow2 b)%Q.
Proof.
  intros H. replace b with (a + (b - a))%Z by lia. rewrite pow2_plus.
  assert (1 <= pow2 (b - a))%Q.
  { rewrite pow2_nonneg_Z by lia. change 1%Q with (inject_Z 1).
    rewrite <- Zle_Qle. pose proof (Z.pow_pos_nonneg 2 (b - a)). lia. }
  pose proof (pow2_pos a). nra.
Qed.

(** [ilog2] is not above the logarithm. *)
Lemma ilog2_le (x : Q) : (0 < x)%Q → (pow2 (ilog2 x) <= x)%Q.
Proof.
  intros Hx. unfold ilog2.
  destruct (Qle_bool _ x) eqn:E; [by apply Qle_bool_imp_le|]. clear E.
  destruct x as [n d]. cbn [Qnum Qden].
  assert (0 < n)%Z as Hn.
  { unfold Qlt in Hx. simpl in Hx. lia. }
  pose proof (Z.log2_spec n Hn) as [Ha _].
  pose proof (Z.log2_spec (Z.pos d) (Pos2Z.is_pos d)) as [_ Hb].
  pose proof (Z.log2_nonneg n) as Ha0.
  pose proof (Z.log2_nonneg (Z.pos d)) as Hb0.
  set (a := Z.log2 n) in *. set (b := Z.log2 (Z.pos d)) in *.
  assert (pow2 (a - b - 1) * inject_Z (2 ^ (b + 1)) == inject_Z (2 ^ a))%Q as Hp.
  { rewrite <- !pow2_nonneg_Z by lia. rewrite <- pow2_plus.
    replace (a - b - 1 + (b + 1))%Z with a by lia. reflexivity. }
  assert (n # d == inject_Z n / inject_Z (Z.pos d))%Q as -> by apply Qmake_Qdiv.
  apply Qle_shift_div_l; [reflexivity|].
  assert (inject_Z (2 ^ a) <= inject_Z n)%Q as Ha' by (by rewrite <- Zle_Qle).
  assert (inject_Z (Z.pos d) <= inject_Z (2 ^ (b + 1)))%Q as Hb'
    by (rewrite <- Zle_Qle; lia).
  pose proof (pow2_pos (a - b - 1)) as Hpos.
  assert (0 < inject_Z (Z.pos d))%Q by reflexivity.
  nra.
Qed.

Lemma Qabs_pos_eq (x : Q) : (0 < x)%Q → Qabs x = x.
Proof.
  destruct x as [n d]. unfold Qlt, Qabs. simpl. intros H. f_equal. lia.
Qed.

Lemma round_half_even_Z (q : Q) : ∃ z, round_half_even q = inject_Z z.
Proof. unfold round_half_even. repeat case_match; eauto. Qed.

Lemma round_half_even_ge (q : Q) (z : Z) :
  (inject_Z z <= q)%Q → (inject_Z z <= round_half_even q)%Q.
Proof.
  intros H. apply Qfloor_resp_le in H. rewrite Qfloor_Z in H.
  unfold round_half_even. repeat case_match; rewrite <- Zle_Qle; lia.
Qed.

(** What is at least the least positive binary64 number does not round to
    zero. *)
Lemma b64_round_pos (x : Q) :
  (pow2 (-1074) <= x)%Q →
  (∃ y, b64_round x = Num y ∧ (0 < y)%Q) ∨ b64_round x = Inf false.
Proof.
  intros Hx. pose proof (pow2_pos (-1074)) as H0.
  assert (0 < x)%Q as Hpos by lra.
  unfold b64_round.
  destruct (Qeq_bool x 0) eqn:E0; [apply Qeq_bool_eq in E0; lra|].
  set (e := Z.max (ilog2 (Qabs x) - 52) (-1074)).
  assert (1 <= x / pow2 e)%Q as Ht.
  { apply Qle_shift_div_l; [apply pow2_pos|]. rewrite Qmult_1_l.
    unfold e. destruct (Z.max_spec (ilog2 (Qabs x) - 52) (-1074)) as [[_ ->]|[_ ->]];
      [done|].
    rewrite Qabs_pos_eq by done.
    eapply Qle_trans; [|apply ilog2_le, Hpos]. apply pow2_le. lia. }
  apply (round_half_even_ge _ 1) in Ht.
  assert (0 < round_half_even (x / pow2 e) * pow2 e)%Q as Hy.
  { pose proof (pow2_pos e). change (inject_Z 1) with 1%Q in Ht. nra. }
  destruct (Qle_bool (pow2 1024) _).
  - right. f_equal. apply not_true_is_false. intros H%Qle_bool_imp_le. lra.
  - left. eexists. split; [reflexivity|]. by rewrite Qred_correct.
Qed.

(** A binary64 number is a multiple of the least positive one. *)
Lemma is_b64_multiple (q : Q) :
  is_b64 q → ∃ k : Z, (q == inject_Z k * pow2 (-1074))%Q.
Proof.
  unfold is_b64, b64_round. destruct (Qeq_bool q 0) eqn:E0.
  { intros _. exists 0%Z. apply Qeq_bool_eq in E0. rewrite E0. ring. }
  set (e := Z.max (ilog2 (Qabs q) - 52) (-1074)).
  destruct (round_half_even_Z (q / pow2 e)) as [z ->].
  destruct (Qle_bool _ _); [done|]. intros [= H].
  apply Qred_eq_iff in H.
  exists (z * 2 ^ (e + 1074))%Z. rewrite <- H.
  rewrite inject_Z_mult, <- pow2_nonneg_Z by lia.
  replace e with (e + 1074 + -1074)%Z at 1 by lia. rewrite pow2_plus. ring.
Qed.

(** Two binary64 numbers that differ are at least the least positive one
    apart, so that their difference is not rounded to zero. *)
Lemma b64_gap (lo hi : Q) :
  is_b64 lo → is_b64 hi → (lo < hi)%Q → (pow2 (-1074) <= hi - lo)%Q.
Proof.
  intros [a Ha]%is_b64_multiple [b Hb]%is_b64_multiple Hlt.
  pose proof (pow2_pos (-1074)) as H0.
  assert (a < b)%Z as Hab.
  { apply Z.lt_nge. intros Hle. rewrite Zle_Qle in Hle. nra. }
  assert (inject_Z (a + 1) <= inject_Z b)%Q as H1 by (rewrite <- Zle_Qle; lia).
  rewrite inject_Z_plus in H1. change (inject_Z 1) with 1%Q in H1.
  rewrite Ha, Hb. nra.
Qed.

(** [ilog2] is the integer part of the logarithm. *)
Lemma ilog2_lt (x : Q) : (0 < x)%Q → (x < pow2 (ilog2 x + 1))%Q.
Proof.
  intros Hx. unfold ilog2.
  destruct (Qle_bool _ x) eqn:E.
  - clear E. destruct x as [n d]. cbn [Qnum Qden].
    assert (0 < n)%Z as Hn.
    { unfold Qlt in Hx. simpl in Hx. lia. }
    pose proof (Z.log2_spec n Hn) as [_ Ha].
    pose proof (Z.log2_spec (Z.pos d) (Pos2Z.is_pos d)) as [Hb _].
    pose proof (Z.log2_nonneg n) as Ha0.
    pose proof (Z.log2_nonneg (Z.pos d)) as Hb0.
    set (a := Z.log2 n) in *. set (b := Z.log2 (Z.pos d)) in *.
    assert (pow2 (a - b + 1) * inject_Z (2 ^ b) == inject_Z (2 ^ (a + 1)))%Q as Hp.
    { rewrite <- !pow2_nonneg_Z by lia. rewrite <- pow2_plus.
      replace (a - b + 1 + b)%Z with (a + 1)%Z by lia. reflexivity. }
    assert (n # d == inject_Z n / inject_Z (Z.pos d))%Q as -> by apply Qmake_Qdiv.
    apply Qlt_shift_div_r; [reflexivity|].
    assert (inject_Z n < inject_Z (2 ^ (a + 1)))%Q as Ha'
      by (rewrite <- Zlt_Qlt; lia).
    assert (inject_Z (2 ^ b) <= inject_Z (Z.pos d))%Q as Hb'
      by (by rewrite <- Zle_Qle).
    pose proof (pow2_pos (a - b + 1)) as Hpos.
    nra.
  - match goal with |- (_ < pow2 (?l - 1 + 1))%Q =>
      replace (l - 1 + 1)%Z with l by lia end.
    apply Qnot_le_lt. intros H%Qle_bool_iff. congruence.
Qed.

Lemma pow2_lt_inv (a b : Z) : (pow2 a < pow2 b)%Q → (a < b)%Z.
Proof.
  intros H. apply Z.lt_nge. intros Hle%pow2_le. lra.
Qed.

Lemma ilog2_unique (x : Q) (i : Z) :
  (pow2 i <= x)%Q → (x < pow2 (i + 1))%Q → ilog2 x = i.
Proof.
  intros H1 H2. pose proof (pow2_pos i).
  assert (0 < x)%Q as Hx by lra.
  pose proof (ilog2_le x Hx). pose proof (ilog2_lt x Hx).
  assert (pow2 i < pow2 (ilog2 x + 1))%Q as Ha%pow2_lt_inv by lra.
  assert (pow2 (ilog2 x) < pow2 (i + 1))%Q as Hb%pow2_lt_inv by lra.
  lia.
Qed.

Lemma ilog2_proper (x y : Q) : (0 < x)%Q → (x == y)%Q → ilog2 x = ilog2 y.
Proof.
  intros Hx Hxy. symmetry. apply ilog2_unique.
  - rewrite <- Hxy. by apply ilog2_le.
  - rewrite <- Hxy. by apply ilog2_lt.
Qed.

Lemma round_half_even_proper (x y : Q) :
  (x == y)%Q → round_half_even x = round_half_even y.
Proof.
  intros H. unfold round_half_even.
  rewrite (Qfloor_comp _ _ H).
  assert ((x - inject_Z (Qfloor y) ?= 1 # 2) = (y - inject_Z (Qfloor y) ?= 1 # 2))%Q
    as -> by (by rewrite H).
  reflexivity.
Qed.

Lemma Qle_bool_proper (x y z : Q) : (x == y)%Q → Qle_bool x z = Qle_bool y z.
Proof.
  intros H. destruct (Qle_bool y z) eqn:E.
  - apply Qle_bool_iff. apply Qle_bool_iff in E. by rewrite H.
  - apply not_true_is_false. intros E'%Qle_bool_iff.
    apply not_true_iff_false in E. apply E, Qle_bool_iff. by rewrite <- H.
Qed.

Lemma Qeq_bool_proper (x y z : Q) : (x == y)%Q → Qeq_bool x z = Qeq_bool y z.
Proof.
  intros H. destruct (Qeq_bool y z) eqn:E.
  - apply Qeq_bool_iff. apply Qeq_bool_iff in E. by rewrite H.
  - apply not_true_is_false. intros E'%Qeq_bool_iff.
    apply not_true_iff_false in E. apply E, Qeq_bool_iff. by rewrite <- H.
Qed.

(** The rounding depends on the number only, not on the fraction that
    denotes it. *)
Lemma b64_round_proper (x y : Q) : (x == y)%Q → b64_round x = b64_round y.
Proof.
  intros H. unfold b64_round.
  rewrite (Qeq_bool_proper x y 0 H).
  destruct (Qeq_bool y 0) eqn:E0; [done|].
  assert (¬ (y == 0)%Q) as Hy0.
  { intros Hy%Qeq_bool_iff. congruence. }
  assert (0 < Qabs x)%Q as Hpos.
  { destruct (Qlt_le_dec 0 x) as [Hx|Hx].
    - by rewrite Qabs_pos by lra.
    - rewrite Qabs_neg by done. rewrite <- H in Hy0. lra. }
  rewrite (ilog2_proper (Qabs x) (Qabs y) Hpos) by (by rewrite H).
  set (e := Z.max _ _).
  rewrite (round_half_even_proper (x / pow2 e) (y / pow2 e)) by (by rewrite H).
  by rewrite (Qle_bool_proper x y 0 H).
Qed.

Lemma is_number_b64_round (x : Q) : is_number (b64_round x) = true.
Proof. unfold b64_round. by repeat case_match. Qed.

Lemma is_number_b64_add (a b : value) : is_number (b64_add a b) = true.
Proof.
  unfold b64_add. repeat case_match; try done; apply is_number_b64_round.
Qed.

Lemma is_number_b64_sub (a b : value) : is_number (b64_sub a b) = true.
Proof. apply is_number_b64_add. Qed.

Lemma is_number_b64_mul (a b : value) : is_number (b64_mul a b) = true.
Proof.
  unfold b64_mul. repeat case_match; try done; apply is_number_b64_round.
Qed.

Lemma is_number_b64_div (a b : value) : is_number (b64_div a b) = true.
Proof.
  unfold b64_div. repeat case_match; try done; apply is_number_b64_round.
Qed.

Lemma arith_number (op : value → value → value) (a b : value) :
  is_number a = true → is_number b = true → arith op a b = Ok (op a b).
Proof. intros Ha Hb. unfold arith. by rewrite Ha, Hb. Qed.

(** The division by the difference of two binary64 numbers that differ does
    not raise. *)
Lemma truediv_by_difference (a : value) (lo hi : Q) :
  is_number a = true →
  is_b64 lo → is_b64 hi → (lo < hi)%Q →
  truediv a (b64_sub (Num hi) (Num lo))
    = Ok (b64_div a (b64_sub (Num hi) (Num lo))).
Proof.
  intros Ha Hlo Hhi Hlt. unfold truediv. rewrite Ha, is_number_b64_sub.
  cbn [andb]. unfold b64_sub, b64_opp, b64_add.
  destruct (b64_round_pos (hi + - lo)) as [(y & -> & Hy)| ->];
    [by apply b64_gap| |done].
  destruct (Qeq_bool y 0) eqn:E; [|done].
  apply Qeq_bool_eq in E. lra.
Qed.

(** ** Node sizes *)

Lemma mapM_Forall2 {A B} (f : A → result B) (R : A → B → Prop) (l : list A) :
  Forall (λ x, ∃ y, f x = Ok y ∧ R x y) l →
  ∃ ys, mapM f l = Ok ys ∧ Forall2 R l ys.
Proof.
  induction 1 as [|x l (y & Hy & HR) _ (ys & Hys & HF)]; simpl.
  - exists []. split; [done|constructor].
  - exists (y :: ys). rewrite Hy, Hys. split; [done|by constructor].
Qed.

Section sizes.

Variables MIN_NODE_SIZE MAX_NODE_SIZE DEFAULT_NODE_SIZE : Q.

Lemma resize_node_Ok (scaling_vars : ScalingVars) (method : string)
    (node_vars : gmap string Bounds) (lo hi v : Q) (node : gmap string value) :
  sv_node scaling_vars = Some node_vars →
  node_vars !! method = Some {| bmin := Num lo; bmax := Num hi |} →
  is_b64 lo → is_b64 hi → (lo < hi)%Q →
  node !! method = Some (Num v) →
  resize_node MIN_NODE_SIZE MAX_NODE_SIZE scaling_vars method node =
    Ok (<["size" := rescaled MIN_NODE_SIZE MAX_NODE_SIZE (Num lo) (Num hi) (Num v)]>
          node).
Proof.
  intros Hsv Hb Hlo Hhi Hlt Hv. unfold resize_node, getitem.
  rewrite Hsv. cbn [mbind result_bind]. rewrite Hb.
  cbn [mbind result_bind bmin bmax].
  rewrite !(arith_number b64_sub) by done. cbn [mbind result_bind].
  rewrite truediv_by_difference by (done || apply is_number_b64_sub).
  cbn [mbind result_bind]. rewrite Hv. cbn [mbind result_bind].
  rewrite (arith_number b64_sub) by done. cbn [mbind result_bind].
  rewrite (arith_number b64_mul)
    by (apply is_number_b64_sub || apply is_number_b64_div).
  cbn [mbind result_bind].
  rewrite (arith_number b64_add) by (done || apply is_number_b64_mul).
  reflexivity.
Qed.

(** C5, amended.  With a sizing label whose last word is the attribute,
    bounds [lo < hi] for it and a value [v] for it in every node, all of
    them and the two size constants binary64 numbers, the call returns and
    each node gets as its size the value of
    [(v - lo) * ((MAX - MIN) / (hi - lo)) + MIN] in binary64 arithmetic,
    every operation rounded, and nothing else changes; with bounds 0 and 10,
    [MIN = 10], [MAX = 50] and [v = 5] no operation rounds and the size is
    30; with no label every node gets [DEFAULT_NODE_SIZE], whatever the
    bounds and the nodes. *)
Theorem size_by_attribute (data : GraphData) (scaling_vars : ScalingVars) :
  (∀ (label method : string) (node_vars : gmap string Bounds) (lo hi : Q),
     list.last (Py.split label) = Some method →
     sv_node scaling_vars = Some node_vars →
     node_vars !! method = Some {| bmin := Num lo; bmax := Num hi |} →
     is_b64 MIN_NODE_SIZE → is_b64 MAX_NODE_SIZE →
     is_b64 lo → is_b64 hi → (lo < hi)%Q →
     Forall (λ node, ∃ v, node !! method = Some (Num v) ∧ is_b64 v)
            (data_nodes data) →
     ∃ nodes,
       callback_size_nodes MIN_NODE_SIZE MAX_NODE_SIZE DEFAULT_NODE_SIZE
         data scaling_vars (Some label)
         = Ok {| data_nodes := nodes; data_edges := data_edges data |} ∧
       Forall2 (λ node node', ∃ v,
                  node !! method = Some (Num v) ∧
                  node' = <["size" := rescaled MIN_NODE_SIZE MAX_NODE_SIZE
                                        (Num lo) (Num hi) (Num v)]> node)
               (data_nodes data) nodes) ∧
  callback_size_nodes 10 50 DEFAULT_NODE_SIZE
    (one_node 5) (stories_bounds 0 10) (Some "Number of stories")
    = Ok {| data_nodes := <["size" := Num 30]> <$> data_nodes (one_node 5);
            data_edges := [] |} ∧
  callback_size_nodes MIN_NODE_SIZE MAX_NODE_SIZE DEFAULT_NODE_SIZE
    data scaling_vars None
    = Ok {| data_nodes := <["size" := Num DEFAULT_NODE_SIZE]> <$> data_nodes data;
            data_edges := data_edges data |}.
Proof.
  split; [|split; [vm_compute; reflexivity|reflexivity]].
  intros label method node_vars lo hi Hlast Hsv Hb _ _ Hlo Hhi Hlt Hnodes.
  unfold callback_size_nodes, last_item. rewrite Hlast.
  cbn [mbind result_bind].
  destruct (mapM_Forall2
    (resize_node MIN_NODE_SIZE MAX_NODE_SIZE scaling_vars method)
    (λ node node', ∃ v,
       node !! method = Some (Num v) ∧
       node' = <["size" := rescaled MIN_NODE_SIZE MAX_NODE_SIZE
                             (Num lo) (Num hi) (Num v)]> node)
    (data_nodes data)) as (nodes & -> & HF).
  - eapply List.Forall_impl; [|exact Hnodes]. intros node (v & Hv & _). simpl.
    eexists. split; [by eapply resize_node_Ok|]. by exists v.
  - exists nodes. split; [reflexivity|exact HF].
Qed.

End sizes.

(** With the bounds 0 and 147 the node at the upper bound gets the size
    that the rounded operations give, the binary64 number just above 50. *)
Lemma size_by_attribute_witness :
  callback_size_nodes 10 50 15 (one_node 147) (stories_bounds 0 147)
    (Some "Number of stories")
  = Ok {| data_nodes :=
            [ <["size" := Num (7036874417766401 # 140737488355328)]>
                ({[ "id" := Str "Life"; "stories" := Num 147 ]}) ];
          data_edges := [] |}.
Proof.
  destruct (size_by_attribute 10 50 15 (one_node 147) (stories_bounds 0 147))
    as [Hsized _].
  destruct (Hsized "Number of stories" "stories"
              {[ "stories" := {| bmin := Num 0; bmax := Num 147 |} ]} 0%Q 147%Q)
    as (nodes & Hrun & HF).
  - vm_compute; reflexivity.
  - reflexivity.
  - vm_compute; reflexivity.
  - vm_compute; reflexivity.
  - vm_compute; reflexivity.
  - vm_compute; reflexivity.
  - vm_compute; reflexivity.
  - reflexivity.
  - repeat constructor. exists 147%Q. split; vm_compute; reflexivity.
  - rewrite Hrun. do 2 f_equal.
    simpl in HF. apply Forall2_cons_inv_l in HF as (node' & rest & H1 & Hrest & ->).
    apply Forall2_nil_inv_l in Hrest as ->.
    destruct H1 as (v & Hv & ->).
    assert (v = 147%Q) as -> by (vm_compute in Hv; congruence).
    vm_compute. reflexivity.
Defined.

(** C5 as stated fails: the size is not the value of the formula.  With
    the bounds 0 and 147, [MIN = 10] and [MAX = 50], the node whose value is
    147 gets the size 50.00000000000001 (50 + 2^-47), where the formula
    gives 50, both as an exact value and when it is computed from left to
    right in binary64 arithmetic: the code divides first, and the quotient
    40 / 147 is rounded before it is multiplied by 147. *)
Lemma rounded_size_is_not_the_formula :
  ∃ size,
    callback_size_nodes 10 50 15 (one_node 147) (stories_bounds 0 147)
      (Some "Number of stories")
    = Ok {| data_nodes :=
              [ <["size" := Num size]>
                  ({[ "id" := Str "Life"; "stories" := Num 147 ]}) ];
            data_edges := [] |} ∧
    (size == 50 + 1 / 2 ^ 47)%Q ∧
    ¬ (size == (147 - 0) * (50 - 10) / (147 - 0) + 10)%Q ∧
    b64_add (b64_div (b64_mul (b64_sub (Num 147) (Num 0))
                              (b64_sub (Num 50) (Num 10)))
                     (b64_sub (Num 147) (Num 0)))
            (Num 10) = Num 50 ∧
    (50 < size)%Q.
Proof.
  exists (7036874417766401 # 140737488355328)%Q.
  split; [vm_compute; reflexivity|]. split; [reflexivity|].
  split; [discriminate|]. split; [vm_compute; reflexivity|reflexivity].
Qed.

(** When no operation rounds, that is, when the exact value of every
    intermediate result is a binary64 number, the size is the value of the
    formula. *)
Lemma rescaled_exact (MIN_NODE_SIZE MAX_NODE_SIZE lo hi v : Q) :
  is_b64 (v - lo) → is_b64 (MAX_NODE_SIZE - MIN_NODE_SIZE) → is_b64 (hi - lo) →
  is_b64 ((MAX_NODE_SIZE - MIN_NODE_SIZE) / (hi - lo)) →
  is_b64 ((v - lo) * ((MAX_NODE_SIZE - MIN_NODE_SIZE) / (hi - lo))) →
  is_b64 ((v - lo) * ((MAX_NODE_SIZE - MIN_NODE_SIZE) / (hi - lo)) + MIN_NODE_SIZE) →
  rescaled MIN_NODE_SIZE MAX_NODE_SIZE (Num lo) (Num hi) (Num v)
    = Num (Qred ((v - lo) * ((MAX_NODE_SIZE - MIN_NODE_SIZE) / (hi - lo))
                 + MIN_NODE_SIZE)).
Proof.
  intros Hoffset Hrange Hwidth Hscaling Hscaled Hsize.
  unfold rescaled, b64_sub, b64_opp.
  unfold b64_add at 2 3 4.
  change (v + - lo)%Q with (v - lo)%Q.
  change (MAX_NODE_SIZE + - MIN_NODE_SIZE)%Q with (MAX_NODE_SIZE - MIN_NODE_SIZE)%Q.
  change (hi + - lo)%Q with (hi - lo)%Q.
  rewrite Hoffset, Hrange, Hwidth. unfold b64_div.
  rewrite (b64_round_proper _ ((MAX_NODE_SIZE - MIN_NODE_SIZE) / (hi - lo)))
    by (by rewrite !Qred_correct).
  rewrite Hscaling. unfold b64_mul.
  rewrite (b64_round_proper _
             ((v - lo) * ((MAX_NODE_SIZE - MIN_NODE_SIZE) / (hi - lo))))
    by (by rewrite !Qred_correct).
  rewrite Hscaled. unfold b64_add.
  rewrite (b64_round_proper _
             ((v - lo) * ((MAX_NODE_SIZE - MIN_NODE_SIZE) / (hi - lo))
              + MIN_NODE_SIZE))
    by (by rewrite !Qred_correct).
  exact Hsize.
Qed.

(** C4, at a failing input.  One node whose [stories] value is 3 and bounds
    whose minimum and maximum are both 3: the division of line 143 is not
    guarded, the call raises, and no node gets the size [MIN_NODE_SIZE]. *)
Theorem equal_bounds_divide_by_zero :
  callback_size_nodes 10 50 15 (one_node 3) (stories_bounds 3 3)
    (Some "Number of stories")
  = Raise ZeroDivisionError.
Proof. vm_compute. reflexivity. Qed.

(** The same for every node list that is not empty and all bounds with
    [min == max]. *)
Lemma equal_bounds_always_raise
    (MIN_NODE_SIZE MAX_NODE_SIZE DEFAULT_NODE_SIZE : Q)
    (data : GraphData) (scaling_vars : ScalingVars) (label method : string)
    (node_vars : gmap string Bounds) (lo hi : Q) :
  list.last (Py.split label) = Some method →
  sv_node scaling_vars = Some node_vars →
  node_vars !! method = Some {| bmin := Num lo; bmax := Num hi |} →
  (lo == hi)%Q →
  data_nodes data ≠ [] →
  callback_size_nodes MIN_NODE_SIZE MAX_NODE_SIZE DEFAULT_NODE_SIZE
    data scaling_vars (Some label)
  = Raise ZeroDivisionError.
Proof.
  intros Hlast Hsv Hb Heq Hne. unfold callback_size_nodes, last_item.
  rewrite Hlast. simpl. destruct (data_nodes data) as [|node nodes]; [done|].
  simpl. unfold resize_node. rewrite Hsv. cbn [mbind result_bind].
  rewrite Hb. cbn [mbind result_bind bmin bmax].
  rewrite !(arith_number b64_sub) by done. cbn [mbind result_bind].
  assert (b64_sub (Num hi) (Num lo) = Num 0) as ->.
  { unfold b64_sub, b64_opp, b64_add, b64_round.
    by rewrite (Qeq_eq_bool (hi + - lo) 0) by lra. }
  unfold truediv. by rewrite is_number_b64_sub.
Qed.

(** ** [parse_data] *)

Section parse_data_properties.

Variable set_iter : gset value → list value.
Variable str_of_num : Q → string.
Variable DEFAULT_NODE_SIZE : Q.

Lemma astype_str_idemp (c : Column) :
  astype_str str_of_num (astype_str str_of_num c) = astype_str str_of_num c.
Proof.
  unfold astype_str. simpl. f_equal. rewrite <- list_fmap_compose.
  apply list_fmap_ext. done.
Qed.

(** The columns named are converted, the others are left as they are. *)
Lemma lookup_set_astype_str (names : list string) (df : DataFrame) (c : string) :
  columns (set_astype_str str_of_num names df) !! c =
  if decide (c ∈ names) then astype_str str_of_num <$> columns df !! c
  else columns df !! c.
Proof.
  unfold set_astype_str. simpl.
  induction names as [|n names IH]; cbn [foldr].
  - case_decide as Hc; [by apply elem_of_nil in Hc|done].
  - destruct (decide (n = c)) as [->|Hne].
    + rewrite lookup_alter_eq, IH.
      rewrite (decide_True (P := c ∈ c :: names)) by apply list_elem_of_here.
      case_decide; [|done].
      destruct (columns df !! c); simpl; [|done]. by rewrite astype_str_idemp.
    + rewrite lookup_alter_ne, IH by done.
      case_decide as Hc; case_decide as Hc'; try done.
      * exfalso. apply Hc'. by apply list_elem_of_further.
      * exfalso. apply elem_of_cons in Hc' as [->|]; done.
Qed.

Lemma nrows_set_astype_str (names : list string) (df : DataFrame) :
  nrows (set_astype_str str_of_num names df) = nrows df.
Proof. reflexivity. Qed.

Lemma mapM_Ok {A B} (f : A → result B) (l : list A) :
  (∀ x, x ∈ l → ∃ y, f x = Ok y) → ∃ ys, mapM f l = Ok ys.
Proof.
  induction l as [|x l IH]; intros Hl; simpl.
  - eauto.
  - destruct (Hl x) as [y ->]; [apply list_elem_of_here|].
    destruct IH as [ys ->]; [|simpl; eauto].
    intros z Hz. apply Hl. by apply list_elem_of_further.
Qed.

Lemma elem_of_to_dict_records (df : DataFrame) (row : gmap string value) :
  row ∈ to_dict_records df →
  ∃ i, i < nrows df ∧ row = (λ c, default NaN (cells c !! i)) <$> columns df.
Proof.
  unfold to_dict_records. intros (i & -> & Hi)%list_elem_of_fmap.
  apply elem_of_seq in Hi. exists i. split; [lia|done].
Qed.

Lemma node_dict_Ok (flag : bool) (row : gmap string value) :
  is_Some (row !! "id") →
  (flag = true → is_Some (row !! "node_image_url")) →
  ∃ d, node_dict DEFAULT_NODE_SIZE flag row = Ok d.
Proof.
  intros [v Hv] Himg. unfold node_dict, getitem. rewrite Hv.
  destruct flag; simpl; [|eauto].
  destruct Himg as [w ->]; [done|]. simpl. eauto.
Qed.

Lemma edge_dict_Ok (row : gmap string value) (a b : string) :
  row !! "from" = Some (Str a) → row !! "to" = Some (Str b) →
  ∃ d, edge_dict row = Ok d.
Proof.
  intros Ha Hb. unfold edge_dict, getitem. rewrite Ha, Hb. simpl. eauto.
Qed.

Lemma parse_data_unchecked (edge_df : loc) (node_df : option loc) (h : store) :
  columns_present edge_df node_df h = false →
  ∃ msg,
    parse_data set_iter str_of_num DEFAULT_NODE_SIZE edge_df node_df h
      = (Raise (Exception msg), h).
Proof.
  unfold columns_present, parse_data, bindM, load, raise, ret. intros Hc.
  destruct (has_column "from" (h edge_df)); simpl in *; [|eauto].
  destruct (has_column "to" (h edge_df)); simpl in *; [|eauto].
  destruct node_df as [node_loc|]; [|done]. simpl.
  rewrite Hc. simpl. eauto.
Qed.

Lemma parse_data_checked (edge_df : loc) (node_df : option loc) (h : store) :
  columns_present edge_df node_df h = true →
  let h' := converted str_of_num edge_df node_df h in
  parse_data set_iter str_of_num DEFAULT_NODE_SIZE edge_df node_df h =
    (nodes ← match node_df with
             | None =>
                 Ok (plain_node DEFAULT_NODE_SIZE <$>
                       set_iter (list_to_set (unique_of "from" (h' edge_df) ++
                                              unique_of "to" (h' edge_df))))
             | Some node_loc =>
                 mapM (node_dict DEFAULT_NODE_SIZE
                         (has_column "node_image_url" (h' node_loc)))
                      (to_dict_records (h' node_loc))
             end;
     edges ← mapM edge_dict (to_dict_records (h' edge_df));
     Ok ({| data_nodes := nodes; data_edges := edges |},
         {| sv_node :=
              (λ l, compute_scaling_vars_for_numerical_cols
                      (<[edge_df := set_astype_str str_of_num ["from"; "to"]
                                      (h edge_df)]> h l)) <$> node_df;
            sv_edge :=
              Some (compute_scaling_vars_for_numerical_cols
                      (set_astype_str str_of_num ["from"; "to"] (h edge_df))) |}),
     h').
Proof.
  unfold columns_present, parse_data, converted, bindM, load, update, raise, ret, lift.
  intros Hc.
  destruct (has_column "from" (h edge_df)); simpl in *; [|done].
  destruct (has_column "to" (h edge_df)); simpl in *; [|done].
  destruct node_df as [node_loc|]; simpl.
  - rewrite Hc. simpl. rewrite !fn_lookup_insert.
    destruct (mapM (node_dict _ _) _); simpl; [|done].
    destruct (mapM edge_dict _); simpl; done.
  - rewrite !fn_lookup_insert.
    destruct (mapM edge_dict _); simpl; done.
Qed.

Lemma has_column_true (name : string) (df : DataFrame) :
  has_column name df = true ↔ is_Some (columns df !! name).
Proof. unfold has_column. apply bool_decide_eq_true. Qed.

Lemma has_column_false (name : string) (df : DataFrame) :
  has_column name df = false ↔ columns df !! name = None.
Proof.
  unfold has_column. rewrite bool_decide_eq_false. symmetry.
  apply eq_None_not_Some.
Qed.

Lemma columns_present_false (edge_df : loc) (node_df : option loc) (h : store) :
  columns_present edge_df node_df h = false ↔
  columns (h edge_df) !! "from" = None ∨ columns (h edge_df) !! "to" = None ∨
  ∃ node_loc, node_df = Some node_loc ∧ columns (h node_loc) !! "id" = None.
Proof.
  unfold columns_present. rewrite !andb_false_iff, !has_column_false.
  destruct node_df as [node_loc|].
  - rewrite has_column_false. split.
    + intros [[?|?]|?]; eauto.
    + intros [?|[?|(l & [= <-] & ?)]]; eauto.
  - split.
    + intros [[?|?]|?]; eauto. done.
    + intros [?|[?|(l & [=] & ?)]]; eauto.
Qed.

Lemma is_Some_set_astype_str (names : list string) (df : DataFrame) (c : string) :
  is_Some (columns (set_astype_str str_of_num names df) !! c) ↔
  is_Some (columns df !! c).
Proof.
  rewrite lookup_set_astype_str. case_decide; [|done]. apply fmap_is_Some.
Qed.

(** The edge table after the conversions. *)
Lemma converted_edge_column (edge_df : loc) (node_df : option loc) (h : store)
    (c : string) :
  c ∈ ["from"; "to"] →
  columns (converted str_of_num edge_df node_df h edge_df) !! c =
  astype_str str_of_num <$> columns (h edge_df) !! c.
Proof.
  intros Hc. unfold converted.
  assert (c ∉ ["id"]) as Hid.
  { intros ->%list_elem_of_singleton.
    repeat (apply elem_of_cons in Hc as [Hc|Hc]; [discriminate Hc|]).
    by apply elem_of_nil in Hc. }
  destruct node_df as [node_loc|].
  - destruct (decide (node_loc = edge_df)) as [->|Hne].
    + rewrite !fn_lookup_insert, lookup_set_astype_str, decide_False by done.
      by rewrite lookup_set_astype_str, decide_True.
    + rewrite fn_lookup_insert_ne, fn_lookup_insert by done.
      by rewrite lookup_set_astype_str, decide_True.
  - rewrite fn_lookup_insert. by rewrite lookup_set_astype_str, decide_True.
Qed.

Lemma converted_nrows (edge_df : loc) (node_df : option loc) (h : store) (l : loc) :
  nrows (converted str_of_num edge_df node_df h l) = nrows (h l).
Proof.
  unfold converted. destruct node_df as [node_loc|].
  - destruct (decide (node_loc = l)) as [->|Hne].
    + rewrite fn_lookup_insert. simpl.
      destruct (decide (edge_df = l)) as [->|Hne'].
      * by rewrite fn_lookup_insert.
      * by rewrite fn_lookup_insert_ne.
    + rewrite fn_lookup_insert_ne by done.
      destruct (decide (edge_df = l)) as [->|Hne'].
      * by rewrite fn_lookup_insert.
      * by rewrite fn_lookup_insert_ne.
  - destruct (decide (edge_df = l)) as [->|Hne'].
    + by rewrite fn_lookup_insert.
    + by rewrite fn_lookup_insert_ne.
Qed.

Lemma converted_is_Some (edge_df : loc) (node_df : option loc) (h : store)
    (l : loc) (c : string) :
  is_Some (columns (converted str_of_num edge_df node_df h l) !! c) ↔
  is_Some (columns (h l) !! c).
Proof.
  unfold converted. destruct node_df as [node_loc|].
  - destruct (decide (node_loc = l)) as [->|Hne].
    + rewrite fn_lookup_insert, is_Some_set_astype_str.
      destruct (decide (edge_df = l)) as [->|Hne'].
      * by rewrite fn_lookup_insert, is_Some_set_astype_str.
      * by rewrite fn_lookup_insert_ne.
    + rewrite fn_lookup_insert_ne by done.
      destruct (decide (edge_df = l)) as [->|Hne'].
      * by rewrite fn_lookup_insert, is_Some_set_astype_str.
      * by rewrite fn_lookup_insert_ne.
  - destruct (decide (edge_df = l)) as [->|Hne'].
    + by rewrite fn_lookup_insert, is_Some_set_astype_str.
    + by rewrite fn_lookup_insert_ne.
Qed.

(** After the conversion every cell of a converted column is a string. *)
Lemma converted_cell_is_Str (df : DataFrame) (c0 : Column) (i : nat) :
  length (cells c0) = nrows df → i < nrows df →
  ∃ s, default NaN (cells (astype_str str_of_num c0) !! i) = Str s.
Proof.
  intros Hlen Hi. unfold astype_str. simpl. rewrite list_lookup_fmap.
  destruct (lookup_lt_is_Some_2 (cells c0) i) as [v ->]; [lia|]. simpl. eauto.
Qed.

(** With the columns present, the two loops over the records succeed. *)
Lemma parse_data_checked_Ok (edge_df : loc) (node_df : option loc) (h : store) :
  frame_wf (h edge_df) →
  columns_present edge_df node_df h = true →
  ∃ out,
    parse_data set_iter str_of_num DEFAULT_NODE_SIZE edge_df node_df h
      = (Ok out, converted str_of_num edge_df node_df h).
Proof.
  intros Hwf Hc. rewrite parse_data_checked by done. cbv zeta.
  unfold columns_present in Hc.
  apply andb_true_iff in Hc as [Hc Hid]. apply andb_true_iff in Hc as [Hfrom Hto].
  apply has_column_true in Hfrom as [cf Hcf], Hto as [ct Hct].
  set (h' := converted str_of_num edge_df node_df h).
  assert (∃ edges, mapM edge_dict (to_dict_records (h' edge_df)) = Ok edges)
    as [edges Hedges].
  { apply mapM_Ok. intros row (i & Hi & ->)%elem_of_to_dict_records.
    unfold h' in Hi. rewrite converted_nrows in Hi.
    destruct (converted_cell_is_Str (h edge_df) cf i) as [a Ha]; [by eapply Hwf|done|].
    destruct (converted_cell_is_Str (h edge_df) ct i) as [b Hb]; [by eapply Hwf|done|].
    apply (edge_dict_Ok _ a b); rewrite lookup_fmap; unfold h';
      rewrite converted_edge_column.
    - rewrite Hcf. cbn [fmap option_fmap option_map]. by rewrite Ha.
    - apply list_elem_of_here.
    - rewrite Hct. cbn [fmap option_fmap option_map]. by rewrite Hb.
    - apply list_elem_of_further, list_elem_of_here. }
  destruct node_df as [node_loc|].
  - assert (∃ nodes, mapM (node_dict DEFAULT_NODE_SIZE
                             (has_column "node_image_url" (h' node_loc)))
                          (to_dict_records (h' node_loc)) = Ok nodes)
      as [nodes ->].
    { apply mapM_Ok. intros row (i & Hi & ->)%elem_of_to_dict_records.
      apply node_dict_Ok.
      - rewrite lookup_fmap. apply fmap_is_Some. unfold h'.
        apply converted_is_Some. by apply has_column_true.
      - intros Himg. rewrite lookup_fmap. apply fmap_is_Some.
        by apply has_column_true. }
    simpl. rewrite Hedges. simpl. eauto.
  - simpl. rewrite Hedges. simpl. eauto.
Qed.

(** C8.  On tables whose columns have one cell per row, [parse_data] raises
    its exception exactly when the edge table lacks the [from] or the [to]
    column or a node table is given that lacks the [id] column; otherwise it
    returns, and it raises nothing else. *)
Theorem parse_data_raises_iff_column_missing
    (edge_df : loc) (node_df : option loc) (h : store) :
  frame_wf (h edge_df) →
  let outcome :=
    (parse_data set_iter str_of_num DEFAULT_NODE_SIZE edge_df node_df h).1 in
  ((∃ e, outcome = Raise e) ↔
   columns (h edge_df) !! "from" = None ∨ columns (h edge_df) !! "to" = None ∨
   ∃ node_loc, node_df = Some node_loc ∧ columns (h node_loc) !! "id" = None) ∧
  ((∃ out, outcome = Ok out) ∨ (∃ msg, outcome = Raise (Exception msg))).
Proof.
  intros Hwf outcome. subst outcome.
  rewrite <- columns_present_false.
  destruct (columns_present edge_df node_df h) eqn:Hc.
  - destruct (parse_data_checked_Ok edge_df node_df h Hwf Hc) as [out ->]. simpl.
    split; [|eauto]. split; [intros [e [=]]|done].
  - destruct (parse_data_unchecked edge_df node_df h Hc) as [msg ->]. simpl.
    split; [|eauto]. split; eauto.
Qed.

(** A column with a cell that is not a string is changed by the conversion. *)
Lemma astype_str_changes (col : Column) (v : value) :
  v ∈ cells col → (∀ s, v ≠ Str s) → astype_str str_of_num col ≠ col.
Proof.
  intros Hv Hns Heq. apply (f_equal cells) in Heq. simpl in Heq.
  rewrite <- Heq in Hv. apply list_elem_of_fmap in Hv as (w & -> & _).
  by eapply Hns.
Qed.

Lemma columns_present_true (edge_df : loc) (node_df : option loc) (h : store) :
  is_Some (columns (h edge_df) !! "from") →
  is_Some (columns (h edge_df) !! "to") →
  (∀ node_loc, node_df = Some node_loc → is_Some (columns (h node_loc) !! "id")) →
  columns_present edge_df node_df h = true.
Proof.
  intros Hfrom Hto Hid. unfold columns_present.
  rewrite !andb_true_iff, !has_column_true. split; [done|].
  destruct node_df as [node_loc|]; [|done].
  apply has_column_true. by apply Hid.
Qed.

(** C10.  On an edge table with the [from] and [to] columns (and one cell
    per row in every column) and, when one is given, a node table with the
    [id] column that is a different object, [parse_data] returns, and in the
    objects of the caller it has converted the [from] and [to] columns of
    the edge table and the [id] column of the node table to strings; every
    other column, the number of rows, and every other object are as before.
    A [from] or [to] column is not as before when one of its cells was not
    a string. *)
Theorem parse_data_converts_in_place
    (edge_df : loc) (node_df : option loc) (h : store) :
  frame_wf (h edge_df) →
  is_Some (columns (h edge_df) !! "from") →
  is_Some (columns (h edge_df) !! "to") →
  (∀ node_loc, node_df = Some node_loc → is_Some (columns (h node_loc) !! "id")) →
  node_df ≠ Some edge_df →
  ∃ out h',
    parse_data set_iter str_of_num DEFAULT_NODE_SIZE edge_df node_df h = (Ok out, h') ∧
    (∀ c, columns (h' edge_df) !! c =
          if decide (c ∈ ["from"; "to"])
          then astype_str str_of_num <$> columns (h edge_df) !! c
          else columns (h edge_df) !! c) ∧
    nrows (h' edge_df) = nrows (h edge_df) ∧
    (∀ node_loc, node_df = Some node_loc →
       (∀ c, columns (h' node_loc) !! c =
             if decide (c = "id")
             then astype_str str_of_num <$> columns (h node_loc) !! c
             else columns (h node_loc) !! c) ∧
       nrows (h' node_loc) = nrows (h node_loc)) ∧
    (∀ l, l ≠ edge_df → node_df ≠ Some l → h' l = h l) ∧
    (∀ c col v, c ∈ ["from"; "to"] → columns (h edge_df) !! c = Some col →
       v ∈ cells col → (∀ s, v ≠ Str s) →
       columns (h' edge_df) !! c ≠ columns (h edge_df) !! c).
Proof.
  intros Hwf Hfrom Hto Hid Hdiff.
  destruct (parse_data_checked_Ok edge_df node_df h Hwf) as [out Hrun];
    [by apply columns_present_true|].
  exists out, (converted str_of_num edge_df node_df h). split; [exact Hrun|].
  clear Hrun.
  assert (∀ c col v, c ∈ ["from"; "to"] → columns (h edge_df) !! c = Some col →
            v ∈ cells col → (∀ s, v ≠ Str s) →
            (if decide (c ∈ ["from"; "to"])
             then astype_str str_of_num <$> columns (h edge_df) !! c
             else columns (h edge_df) !! c) ≠ columns (h edge_df) !! c) as Hchg.
  { intros c col v Hc Hcol Hv Hns. rewrite decide_True, Hcol by done. simpl.
    intros [= Heq]. by eapply astype_str_changes. }
  unfold converted.
  destruct node_df as [node_loc|].
  - assert (node_loc ≠ edge_df) as Hne by congruence.
    split; [|split; [|split; [|split]]].
    + intros c. rewrite fn_lookup_insert_ne, fn_lookup_insert by done.
      apply lookup_set_astype_str.
    + by rewrite fn_lookup_insert_ne, fn_lookup_insert.
    + intros ? [= <-]. rewrite fn_lookup_insert, fn_lookup_insert_ne by done.
      split; [|done]. intros c. rewrite lookup_set_astype_str.
      destruct (decide (c = "id")) as [->|Hc].
      * by rewrite decide_True by apply list_elem_of_here.
      * rewrite decide_False; [done|]. by intros ->%list_elem_of_singleton.
    + intros l Hl Hl'. rewrite !fn_lookup_insert_ne; congruence.
    + intros c col v Hin Hcol Hv Hns.
      rewrite fn_lookup_insert_ne, fn_lookup_insert, lookup_set_astype_str by done.
      by eapply Hchg.
  - split; [|split; [|split; [|split]]].
    + intros c. rewrite fn_lookup_insert. apply lookup_set_astype_str.
    + by rewrite fn_lookup_insert.
    + intros ? [=].
    + intros l Hl _. by rewrite fn_lookup_insert_ne.
    + intros c col v Hin Hcol Hv Hns.
      rewrite fn_lookup_insert, lookup_set_astype_str. by eapply Hchg.
Qed.

End parse_data_properties.

Lemma edges_frame_wf (edges : list EdgeRow) : frame_wf (edges_frame edges).
Proof.
  intros name c. unfold edges_frame. simpl.
  destruct (decide (name = "from")) as [->|Hfrom].
  - rewrite lookup_insert_eq. intros [= <-]. simpl. by rewrite length_fmap.
  - rewrite lookup_insert_ne by done.
    destruct (decide (name = "to")) as [->|Hto].
    + rewrite lookup_singleton_eq. intros [= <-]. simpl. by rewrite length_fmap.
    + by rewrite lookup_singleton_ne.
Qed.

(** The tables of [ex_store] have the three columns: the call returns. *)
Lemma parse_data_raises_iff_column_missing_witness :
  ∃ out, (parse_data elements str_of_int64 15 1%positive (Some 2%positive) ex_store).1
         = Ok out.
Proof.
  destruct (parse_data_raises_iff_column_missing elements str_of_int64 15
              1%positive (Some 2%positive) ex_store) as [Hiff [Hok|[msg Hraise]]].
  - apply edges_frame_wf.
  - exact Hok.
  - exfalso. destruct (proj1 Hiff) as [H|[H|(l & [= <-] & H)]]; [eauto|..];
      vm_compute in H; discriminate H.
Defined.

(** In [ex_store] the missing [to] cell of the caller's edge table has
    become the string "nan" after the call. *)
Lemma parse_data_converts_in_place_witness :
  columns (ex_store 1%positive) !! "to"
    = Some {| col_dtype := object; cells := [NaN] |} ∧
  ∃ out h',
    parse_data elements str_of_int64 15 1%positive (Some 2%positive) ex_store
      = (Ok out, h') ∧
    columns (h' 1%positive) !! "to"
      = Some {| col_dtype := object; cells := [Str "nan"] |}.
Proof.
  split; [vm_compute; reflexivity|].
  destruct (parse_data_converts_in_place elements str_of_int64 15 1%positive
              (Some 2%positive) ex_store) as (out & h' & Hrun & Hcols & _).
  - apply edges_frame_wf.
  - vm_compute. eauto.
  - vm_compute. eauto.
  - intros ? [= <-]. vm_compute. eauto.
  - discriminate.
  - exists out, h'. split; [exact Hrun|]. rewrite Hcols. vm_compute. reflexivity.
Defined.

(** ** The ranked table *)

Section preprocess_data_properties.

Variable np_exp : Q → Q.
Variable sort_order : list Q → list nat.

(** What [sort_values] guarantees whatever the algorithm: the rows come back
    in an order that is a rearrangement of their positions, with the keys
    descending. *)
Hypothesis sort_order_perm : ∀ keys, sort_order keys ≡ₚ seq 0 (length keys).
Hypothesis sort_order_desc : ∀ keys i j a b x y,
  i < j → sort_order keys !! i = Some a → sort_order keys !! j = Some b →
  keys !! a = Some x → keys !! b = Some y → (y <= x)%Q.

Lemma omap_lookup_total {A} (table : list A) (idx : list nat) :
  (∀ i, i ∈ idx → i < length table) →
  length (omap (λ i, table !! i) idx) = length idx ∧
  ∀ k i, idx !! k = Some i → omap (λ i, table !! i) idx !! k = table !! i.
Proof.
  induction idx as [|i idx IH]; intros Hidx; [done|].
  destruct (lookup_lt_is_Some_2 table i) as [x Hx];
    [apply Hidx, list_elem_of_here|].
  destruct IH as [IHlen IHk];
    [intros j Hj; by apply Hidx, list_elem_of_further|].
  simpl. rewrite Hx. simpl. split; [f_equal; exact IHlen|].
  intros [|k] j Hk; simpl in *; [by injection Hk as <-|exact (IHk k j Hk)].
Qed.

Lemma sort_order_bound (keys : list Q) (i : nat) :
  i ∈ sort_order keys → i < length keys.
Proof. rewrite sort_order_perm, elem_of_seq. lia. Qed.

(** The table has as many rows as the dataset. *)
Lemma preprocess_data_length (df : list TopicRecord) :
  length (preprocess_data np_exp sort_order df) = length df.
Proof.
  unfold preprocess_data.
  destruct (omap_lookup_total (summary_row np_exp <$> df)
              (sort_order (Stories <$> (summary_row np_exp <$> df)))) as [-> _].
  - intros i Hi%sort_order_bound. by rewrite length_fmap in Hi.
  - by rewrite sort_order_perm, length_seq, !length_fmap.
Qed.

(** The rows are in descending order of [Stories]. *)
Lemma preprocess_data_descending (df : list TopicRecord) (i j : nat)
    (ri rj : SummaryRow) :
  i < j →
  preprocess_data np_exp sort_order df !! i = Some ri →
  preprocess_data np_exp sort_order df !! j = Some rj →
  (Stories rj <= Stories ri)%Q.
Proof.
  unfold preprocess_data. set (table := summary_row np_exp <$> df).
  set (idx := sort_order (Stories <$> table)).
  destruct (omap_lookup_total table idx) as [Hlen Hk].
  { intros k Hk%sort_order_bound. by rewrite length_fmap in Hk. }
  intros Hij Hi Hj.
  pose proof (lookup_lt_Some _ _ _ Hi) as Hi'.
  pose proof (lookup_lt_Some _ _ _ Hj) as Hj'.
  destruct (lookup_lt_is_Some_2 idx i) as [a Ha]; [lia|].
  destruct (lookup_lt_is_Some_2 idx j) as [b Hb]; [lia|].
  rewrite (Hk i a Ha) in Hi. rewrite (Hk j b Hb) in Hj.
  apply (sort_order_desc (Stories <$> table) i j a b); try done.
  - by rewrite list_lookup_fmap, Hi.
  - by rewrite list_lookup_fmap, Hj.
Qed.

End preprocess_data_properties.

(** * Further properties of the code *)

(** ** [generate_data]: the null result, errors, and the shape of the tables *)

(** X1.  [generate_data] returns [(None, None)] exactly when the query is
    [None] or empty, or when its normal form is the normal form of no topic
    of the dataset (lines 22 to 29). *)
Theorem null_result_iff
    (set_iter : gset value → list value) (df : list TopicRecord)
    (selected_topic : option string) :
  generate_data set_iter df selected_topic = Ok None ↔
  selected_topic = None ∨ selected_topic = Some "" ∨
  ∃ selected, selected_topic = Some selected ∧
              clean selected ∉ (λ r, clean (topic r)) <$> df.
Proof. apply generate_data_None_iff. Qed.

Lemma filter_two {A} (P : A → Prop) `{∀ x, Decision (P x)} (l : list A)
    (i j : nat) (x y : A) :
  i < j → l !! i = Some x → l !! j = Some y → P x → P y →
  2 ≤ length (filter P l).
Proof.
  revert i j. induction l as [|a l IH]; intros i j Hij Hi Hj Hx Hy; [done|].
  destruct j as [|j]; [lia|]. destruct i as [|i]; simpl in *.
  - injection Hi as ->. rewrite filter_cons_True by done. simpl.
    assert (y ∈ filter P l) as Hin.
    { apply list_elem_of_filter. split; [done|]. by eapply list_elem_of_lookup_2. }
    destruct (filter P l); [by apply elem_of_nil in Hin|simpl; lia].
  - assert (2 ≤ length (filter P l)) by (apply (IH i j); [lia|done..]).
    rewrite filter_cons. case_decide; simpl; lia.
Qed.

(** X2.  When two rows of the dataset have the normal form of the query,
    [generate_data] raises at [.item()] (line 31): names that differ only in
    case or punctuation make each other unreachable. *)
Theorem ambiguous_match_raises
    (set_iter : gset value → list value) (df : list TopicRecord) (selected : string)
    (i j : nat) (r1 r2 : TopicRecord) :
  selected ≠ "" →
  i < j → df !! i = Some r1 → df !! j = Some r2 →
  clean (topic r1) = clean selected → clean (topic r2) = clean selected →
  generate_data set_iter df (Some selected) = Raise ItemError.
Proof.
  intros Hne Hij Hi Hj H1 H2. unfold generate_data.
  rewrite bool_decide_eq_false_2 by done.
  rewrite bool_decide_eq_true_2.
  2: { rewrite <- H1. apply (list_elem_of_fmap_2 (λ r, clean (topic r))).
       by eapply list_elem_of_lookup_2. }
  simpl.
  pose proof (filter_two (λ r, clean (topic r) = clean selected) df i j r1 r2
                Hij Hi Hj H1 H2) as Hlen.
  destruct (filter _ df) as [|a [|b l]]; simpl in *; [lia|lia|done].
Qed.

Lemma ambiguous_match_raises_witness :
  generate_data elements df_ambiguous (Some "machine learning") = Raise ItemError.
Proof.
  apply (ambiguous_match_raises elements df_ambiguous "machine learning" 0 1
           {| topic := "Machine-Learning"; stories := 0; writers := 0;
              related_topics := ["AI"] |}
           {| topic := "Machine Learning"; stories := 0; writers := 0;
              related_topics := ["AI"] |}).
  - discriminate.
  - lia.
  - reflexivity.
  - reflexivity.
  - vm_compute; reflexivity.
  - vm_compute; reflexivity.
Defined.

(** What a run that returns tables has gone through, with a set of the
    graph in hand. *)
Lemma generate_data_Some_graph set_iter df selected edges nodes :
  generate_data set_iter df (Some selected) = Ok (Some (edges, nodes)) →
  ∃ T S,
    filter (λ r, clean (topic r) = clean selected) df = [T] ∧
    S ∈ drop_duplicates (row_set <$>
          explode (filter (λ r, topic r ∈ related_topics T ++ [selected]) df)).
Proof.
  intros Hrun.
  destruct (generate_data_Some _ _ _ _ _ Hrun) as (T & HT & _).
  exists T. revert Hrun. unfold generate_data. case_bool_decide; [done|].
  case_match; [done|]. rewrite HT. simpl.
  set (df_graph := drop_duplicates _).
  destruct (unpack_str _) as [cols|] eqn:Hcols; simpl; [|done]. intros _.
  unfold unpack_str in Hcols.
  destruct (existsb notna (str_get 0 <$> (set_iter <$> df_graph))) eqn:E0;
    simpl in Hcols; [|done].
  apply existsb_exists in E0 as (v & Hv & _).
  apply list_elem_of_In, list_elem_of_fmap in Hv as (l & _ & Hl).
  apply list_elem_of_fmap in Hl as (S & _ & HS). eauto.
Qed.

(** X3.  The tables that [generate_data] returns are never empty: there is
    at least one edge and at least one node, so the count of related topics
    that the application prints, [len(node_df) - 1], is not negative. *)
Theorem returned_tables_are_not_empty
    (set_iter : gset value → list value) (df : list TopicRecord)
    (selected_topic : option string) (edges : list EdgeRow) (nodes : list NodeRow) :
  generate_data set_iter df selected_topic = Ok (Some (edges, nodes)) →
  0 < length edges ∧ 0 < length nodes.
Proof.
  intros Hrun. destruct selected_topic as [selected|]; [|done].
  destruct (generate_data_Some_graph _ _ _ _ _ Hrun) as (T & S & HT & HS).
  apply generate_data_Some in Hrun as (T' & HT' & -> & ->).
  rewrite HT in HT'. injection HT' as <-. split.
  - rewrite !length_fmap.
    destruct (drop_duplicates _); [by apply elem_of_nil in HS|simpl; lia].
  - pose proof HS as HS'. rewrite elem_of_drop_duplicates in HS'.
    apply list_elem_of_fmap in HS' as (p & -> & Hp).
    apply list_elem_of_bind in Hp as (r & Hp & Hr).
    apply elem_of_explode_row in Hp as [Hp1 _].
    apply list_elem_of_filter in Hr as [_ Hr].
    assert (node_row r ∈ node_row <$>
              filter (λ r0, Str (topic r0) ∈ ⋃ drop_duplicates (row_set <$>
                explode (filter (λ r1, topic r1 ∈ related_topics T ++ [selected])
                   df))) df) as Hin.
    { apply list_elem_of_fmap_2, list_elem_of_filter. split; [|done].
      apply elem_of_union_list. exists (row_set p). split; [done|].
      apply elem_of_row_set. left. by rewrite Hp1. }
    destruct (node_row <$> _); [by apply elem_of_nil in Hin|simpl; lia].
Qed.

Lemma returned_tables_are_not_empty_witness :
  0 < length [{| from := Str "Writing"; to := Str "Life" |}] ∧
  0 < length (node_row <$> ex_df).
Proof.
  apply (returned_tables_are_not_empty elements ex_df (Some "Life")).
  vm_compute; reflexivity.
Defined.

(** The ids of the node table, for any query. *)
Lemma node_ids_of_query
    (set_iter : gset value → list value) (df : list TopicRecord) (selected : string)
    (edges : list EdgeRow) (nodes : list NodeRow) :
  generate_data set_iter df (Some selected) = Ok (Some (edges, nodes)) →
  ∃ T,
    filter (λ r, clean (topic r) = clean selected) df = [T] ∧
    ∀ s, s ∈ id <$> nodes ↔
         s ∈ topic <$> df ∧
         ∃ r, r ∈ df ∧ topic r ∈ related_topics T ++ [selected] ∧
              (s = topic r ∨ s ∈ related_topics r).
Proof.
  intros Hrun. apply generate_data_Some in Hrun as (T & HT & _ & ->).
  exists T. split; [done|]. intros s. rewrite elem_of_node_ids. split.
  - intros (r0 & Hr0 & Hin & <-). split; [by apply list_elem_of_fmap_2|].
    apply Str_in_graph in Hin as (r & Hr & Hs).
    apply list_elem_of_filter in Hr as [Hsel Hr]. eauto.
  - intros [Hs (r & Hr & Hsel & Hrel)].
    apply list_elem_of_fmap in Hs as (r0 & -> & Hr0).
    exists r0. split; [done|]. split; [|done].
    apply Str_in_graph. exists r. split; [|done].
    by apply list_elem_of_filter.
Qed.

(** X4.  The node set for any query.  When [generate_data] returns tables,
    with T the row that the query matches, the node ids are exactly the
    names of the dataset rows that occur in a pair formed from a row whose
    name is, as written, the query or one of T's related topics (line 32
    selects with the query as typed, not with the name of T). *)
Theorem node_set_of_any_query
    (set_iter : gset value → list value) (df : list TopicRecord) (selected : string)
    (edges : list EdgeRow) (nodes : list NodeRow) :
  generate_data set_iter df (Some selected) = Ok (Some (edges, nodes)) →
  ∃ T,
    filter (λ r, clean (topic r) = clean selected) df = [T] ∧
    ∀ s, s ∈ id <$> nodes ↔
         s ∈ topic <$> df ∧
         ∃ r, r ∈ df ∧ topic r ∈ related_topics T ++ [selected] ∧
              (s = topic r ∨ s ∈ related_topics r).
Proof. apply node_ids_of_query. Qed.

Lemma node_set_of_any_query_witness :
  ∃ T,
    filter (λ r, clean (topic r) = clean "life") df_chain = [T] ∧
    ∀ s, s ∈ ["Writing"; "Poetry"] ↔
         s ∈ topic <$> df_chain ∧
         ∃ r, r ∈ df_chain ∧ topic r ∈ related_topics T ++ ["life"] ∧
              (s = topic r ∨ s ∈ related_topics r).
Proof.
  apply (node_set_of_any_query elements df_chain "life"
           [{| from := Str "Writing"; to := Str "Poetry" |}]
           [{| id := "Writing"; node_stories := 0; node_writers := 0 |};
            {| id := "Poetry"; node_stories := 0; node_writers := 0 |}]).
  vm_compute; reflexivity.
Defined.

(** X5.  The matched topic can be missing from its own graph.  When the
    query is not, as written, the name of the matched row T, T does not list
    itself, and no selected row lists T as related, the tables returned do
    not contain T as a node. *)
Theorem matched_topic_can_be_missing
    (set_iter : gset value → list value) (df : list TopicRecord) (selected : string)
    (T : TopicRecord) (edges : list EdgeRow) (nodes : list NodeRow) :
  generate_data set_iter df (Some selected) = Ok (Some (edges, nodes)) →
  T ∈ df → clean (topic T) = clean selected →
  topic T ∉ related_topics T ++ [selected] →
  (∀ r, r ∈ df → topic r ∈ related_topics T ++ [selected] →
        topic T ∉ related_topics r) →
  topic T ∉ id <$> nodes.
Proof.
  intros Hrun HT Hclean Hself Hnone Hin.
  destruct (node_ids_of_query _ _ _ _ _ Hrun) as (T' & HT' & Hchar).
  assert (T ∈ filter (λ r, clean (topic r) = clean selected) df) as HTf
    by (by apply list_elem_of_filter).
  rewrite HT' in HTf. apply list_elem_of_singleton in HTf as <-.
  apply Hchar in Hin as [_ (r & Hr & Hsel & [Heq|Hrel])].
  - apply Hself. by rewrite Heq.
  - by apply (Hnone r).
Qed.

Lemma matched_topic_can_be_missing_witness :
  generate_data elements df_chain (Some "life")
    = Ok (Some ([{| from := Str "Writing"; to := Str "Poetry" |}],
                [{| id := "Writing"; node_stories := 0; node_writers := 0 |};
                 {| id := "Poetry"; node_stories := 0; node_writers := 0 |}])) ∧
  "Life" ∉ id <$> [{| id := "Writing"; node_stories := 0; node_writers := 0 |};
                   {| id := "Poetry"; node_stories := 0; node_writers := 0 |}].
Proof.
  split; [vm_compute; reflexivity|].
  apply (matched_topic_can_be_missing elements df_chain "life"
           {| topic := "Life"; stories := 0; writers := 0;
              related_topics := ["Writing"] |}
           [{| from := Str "Writing"; to := Str "Poetry" |}]).
  - vm_compute; reflexivity.
  - apply list_elem_of_here.
  - vm_compute; reflexivity.
  - intros H. repeat (apply elem_of_cons in H as [H|H]; [discriminate H|]).
    by apply elem_of_nil in H.
  - intros r Hr Hsel Hrel.
    repeat (apply elem_of_cons in Hr as [->|Hr];
            [simpl in *;
             repeat (apply elem_of_cons in Hsel as [Hsel|Hsel];
                     [try discriminate Hsel|]);
             repeat (apply elem_of_cons in Hrel as [Hrel|Hrel];
                     [try discriminate Hrel|]);
             try (by apply elem_of_nil in Hsel);
             try (by apply elem_of_nil in Hrel)|]).
    by apply elem_of_nil in Hr.
Defined.

(** X6.  The node table is made of dataset rows, in the order of the
    dataset, each with its [stories] and [writers] as they are; when the
    topic names of the dataset are distinct, so are the node ids. *)
Theorem nodes_are_dataset_rows_in_order
    (set_iter : gset value → list value) (df : list TopicRecord)
    (selected_topic : option string) (edges : list EdgeRow) (nodes : list NodeRow) :
  generate_data set_iter df selected_topic = Ok (Some (edges, nodes)) →
  nodes `sublist_of` (node_row <$> df) ∧
  (NoDup (topic <$> df) → NoDup (id <$> nodes)).
Proof.
  intros Hrun. destruct selected_topic as [selected|]; [|done].
  apply generate_data_Some in Hrun as (T & _ & _ & ->).
  assert (node_row <$> filter (λ r, Str (topic r) ∈ ⋃ drop_duplicates (row_set <$>
            explode (filter (λ r0, topic r0 ∈ related_topics T ++ [selected]) df)))
            df `sublist_of` node_row <$> df) as Hsub
    by apply fmap_sublist, sublist_filter.
  split; [exact Hsub|]. intros Hnd.
  eapply sublist_NoDup; [|apply (fmap_sublist id), Hsub].
  by rewrite <- list_fmap_compose.
Qed.

Lemma nodes_are_dataset_rows_in_order_witness :
  [{| id := "Writing"; node_stories := 0; node_writers := 0 |};
   {| id := "Poetry"; node_stories := 0; node_writers := 0 |}]
    `sublist_of` (node_row <$> df_chain).
Proof.
  apply (nodes_are_dataset_rows_in_order elements df_chain (Some "life")
           [{| from := Str "Writing"; to := Str "Poetry" |}]).
  vm_compute; reflexivity.
Defined.

(** X7.  No edge is a loop: the [from] and [to] cells of an edge row always
    differ.  (A topic that lists itself as related gives a row whose [to]
    cell is missing, not a row from the topic to itself.) *)
Theorem edges_are_not_loops
    (set_iter : gset value → list value) (df : list TopicRecord)
    (selected_topic : option string) (edges : list EdgeRow) (nodes : list NodeRow)
    (row : EdgeRow) :
  (∀ s, set_iter s ≡ₚ elements s) →
  generate_data set_iter df selected_topic = Ok (Some (edges, nodes)) →
  row ∈ edges →
  from row ≠ to row.
Proof.
  intros Hperm Hrun Hrow. destruct selected_topic as [selected|]; [|done].
  apply generate_data_Some in Hrun as (T & _ & -> & _).
  apply list_elem_of_fmap in Hrow as (l & -> & Hl).
  apply list_elem_of_fmap in Hl as (S & -> & HS).
  rewrite elem_of_drop_duplicates in HS.
  apply list_elem_of_fmap in HS as (p & -> & Hp).
  apply list_elem_of_bind in Hp as (r & Hp & _).
  apply elem_of_explode_row in Hp as [Hp1 _].
  destruct (set_iter_row_set set_iter Hperm p) as [[_ ->]|[Hne [-> | ->]]];
    unfold edge_of, str_get; simpl.
  - rewrite Hp1. discriminate.
  - exact Hne.
  - intros Heq. by apply Hne.
Qed.

Lemma edges_are_not_loops_witness :
  generate_data elements df_selfish (Some "Life")
    = Ok (Some ([{| from := Str "Life"; to := NaN |};
                 {| from := Str "Writing"; to := Str "Life" |}],
                node_row <$> df_selfish)) ∧
  from {| from := Str "Life"; to := NaN |} ≠ to {| from := Str "Life"; to := NaN |}.
Proof.
  split; [vm_compute; reflexivity|].
  apply (edges_are_not_loops elements df_selfish (Some "Life")
           [{| from := Str "Life"; to := NaN |};
            {| from := Str "Writing"; to := Str "Life" |}]
           (node_row <$> df_selfish)).
  - intros s. reflexivity.
  - vm_compute; reflexivity.
  - apply list_elem_of_here.
Defined.

(** X8.  No edge is invented: every edge row comes from one selected dataset
    row [r] (a row whose name is, as written, the query or a related topic
    of the matched row).  The name of [r] is one of its two cells, and every
    name in the row is the name of [r] or a related topic of [r]. *)
Theorem edges_come_from_selected_rows
    (set_iter : gset value → list value) (df : list TopicRecord) (selected : string)
    (edges : list EdgeRow) (nodes : list NodeRow) (row : EdgeRow) :
  (∀ s, set_iter s ≡ₚ elements s) →
  generate_data set_iter df (Some selected) = Ok (Some (edges, nodes)) →
  row ∈ edges →
  ∃ T r,
    filter (λ r, clean (topic r) = clean selected) df = [T] ∧
    r ∈ df ∧ topic r ∈ related_topics T ++ [selected] ∧
    (from row = Str (topic r) ∨ to row = Str (topic r)) ∧
    ∀ s, from row = Str s ∨ to row = Str s →
         s = topic r ∨ s ∈ related_topics r.
Proof.
  intros Hperm Hrun Hrow.
  apply generate_data_Some in Hrun as (T & HT & -> & _).
  apply list_elem_of_fmap in Hrow as (l & -> & Hl).
  apply list_elem_of_fmap in Hl as (S & -> & HS).
  rewrite elem_of_drop_duplicates in HS.
  apply list_elem_of_fmap in HS as (p & -> & Hp).
  apply list_elem_of_bind in Hp as (r & Hp & Hr).
  apply list_elem_of_filter in Hr as [Hsel Hr].
  apply elem_of_explode_row in Hp as [Hp1 Hp2].
  exists T, r. split; [done|]. split; [done|]. split; [done|].
  assert (∀ s, Str s ∈ row_set p → s = topic r ∨ s ∈ related_topics r) as Hnames.
  { intros s [Hs|Hs]%elem_of_row_set.
    - left. congruence.
    - right. destruct Hp2 as [[_ H2]|(t & Ht & H2)]; [congruence|].
      rewrite H2 in Hs. by injection Hs as ->. }
  split.
  - destruct (set_iter_row_set set_iter Hperm p) as [[_ ->]|[_ [-> | ->]]];
      unfold edge_of, str_get; simpl; rewrite Hp1; tauto.
  - intros s Hs. apply Hnames.
    apply (elem_of_set_iter set_iter Hperm).
    destruct Hs as [Hs|Hs]; simpl in Hs; exact (str_get_Str _ _ _ Hs).
Qed.

Lemma edges_come_from_selected_rows_witness :
  ∃ T r,
    filter (λ r, clean (topic r) = clean "Life") df_chain = [T] ∧
    r ∈ df_chain ∧ topic r ∈ related_topics T ++ ["Life"] ∧
    (Str "Writing" = Str (topic r) ∨ Str "Poetry" = Str (topic r)) ∧
    ∀ s, Str "Writing" = Str s ∨ Str "Poetry" = Str s →
         s = topic r ∨ s ∈ related_topics r.
Proof.
  apply (edges_come_from_selected_rows elements df_chain "Life"
           [{| from := Str "Writing"; to := Str "Life" |};
            {| from := Str "Writing"; to := Str "Poetry" |}]
           (node_row <$> df_chain)
           {| from := Str "Writing"; to := Str "Poetry" |}).
  - intros s. reflexivity.
  - vm_compute; reflexivity.
  - apply list_elem_of_further, list_elem_of_here.
Defined.

(** ** The normal form of a name (lines 25 to 27) *)

Lemma is_alnum_lower_char (a : ascii) :
  Py.is_alnum a = true → is_word_char (Py.lower_char a) = true.
Proof. destruct a as [[] [] [] [] [] [] [] []]; vm_compute; congruence. Qed.

Lemma is_alnum_lower_char_eq (a : ascii) :
  Py.is_alnum (Py.lower_char a) = Py.is_alnum a.
Proof. destruct a as [[] [] [] [] [] [] [] []]; reflexivity. Qed.

Lemma lower_char_idemp (a : ascii) :
  Py.lower_char (Py.lower_char a) = Py.lower_char a.
Proof. destruct a as [[] [] [] [] [] [] [] []]; reflexivity. Qed.

Lemma word_char_facts (a : ascii) :
  is_word_char a = true →
  Py.is_alnum a = true ∧ Py.is_space a = false ∧ Py.lower_char a = a.
Proof. destruct a as [[] [] [] [] [] [] [] []]; vm_compute; intuition congruence. Qed.

Lemma eqb_space (a : ascii) : Ascii.eqb a " " = true → a = " "%char.
Proof. apply Ascii.eqb_eq. Qed.

(** [re.sub] leaves words of alphanumeric characters and single spaces. *)
Lemma spaced_re_sub_from (b : bool) (s : string) :
  spaced Py.is_alnum b (Py.re_sub_from b s) = true.
Proof.
  revert b. induction s as [|a s IH]; intros b; simpl; [done|].
  destruct (Py.is_alnum a) eqn:Ha; simpl.
  - rewrite Ha. apply IH.
  - destruct b; [apply IH|]. simpl. apply IH.
Qed.

Lemma spaced_lower (b : bool) (s : string) :
  spaced Py.is_alnum b s = true → spaced is_word_char b (Py.lower s) = true.
Proof.
  revert b. induction s as [|a s IH]; intros b; simpl; [done|].
  destruct (Py.is_alnum a) eqn:Ha.
  - intros H. rewrite is_alnum_lower_char by done. by apply IH.
  - intros H. apply andb_true_iff in H as [H Hs].
    apply andb_true_iff in H as [Ha' Hb]. apply eqb_space in Ha' as ->.
    simpl. rewrite Hb. simpl. by apply IH.
Qed.

Lemma spaced_after_space_lstrip (s : string) :
  spaced is_word_char true s = true → Py.lstrip s = s.
Proof.
  destruct s as [|a s]; simpl; [done|].
  destruct (is_word_char a) eqn:Ha.
  - destruct (word_char_facts a Ha) as (_ & -> & _). done.
  - rewrite andb_false_r. done.
Qed.

Lemma spaced_lstrip (b : bool) (s : string) :
  spaced is_word_char b s = true → spaced is_word_char true (Py.lstrip s) = true.
Proof.
  destruct s as [|a s]; simpl; [done|].
  destruct (is_word_char a) eqn:Ha.
  - destruct (word_char_facts a Ha) as (_ & -> & _). simpl. by rewrite Ha.
  - intros H. apply andb_true_iff in H as [H Hs].
    apply andb_true_iff in H as [Ha' Hb]. apply eqb_space in Ha' as ->.
    simpl. by rewrite (spaced_after_space_lstrip s Hs).
Qed.

Lemma words_rstrip (b : bool) (s : string) :
  spaced is_word_char b s = true →
  Py.rstrip s = EmptyString ∨ words is_word_char b (Py.rstrip s) = true.
Proof.
  revert b. induction s as [|a s IH]; intros b; simpl; [by left|].
  destruct (is_word_char a) eqn:Ha.
  - intros H. right. destruct (word_char_facts a Ha) as (_ & Hsp & _).
    destruct (IH false H) as [->|Hw].
    + rewrite Hsp. simpl. by rewrite Ha.
    + destruct (Py.rstrip s) as [|c k] eqn:E.
      * rewrite Hsp. simpl. by rewrite Ha.
      * change (words is_word_char b (String a (String c k)) = true).
        cbn [words]. rewrite Ha. exact Hw.
  - intros H. apply andb_true_iff in H as [H Hs].
    apply andb_true_iff in H as [Ha' Hb]. apply eqb_space in Ha' as ->.
    destruct (IH true Hs) as [->|Hw]; [by left|]. right.
    destruct (Py.rstrip s) eqn:E; [done|]. simpl in *. by rewrite Hb, Hw.
Qed.

Lemma words_weaken (s : string) :
  words is_word_char true s = true → words is_word_char false s = true.
Proof.
  destruct s as [|a s]; simpl; [done|].
  destruct (is_word_char a); [done|]. by rewrite andb_false_r.
Qed.

Lemma words_re_sub_from (b : bool) (s : string) :
  words is_word_char b s = true → Py.re_sub_from b s = s.
Proof.
  revert b. induction s as [|a s IH]; intros b; simpl; [done|].
  destruct (is_word_char a) eqn:Ha.
  - destruct (word_char_facts a Ha) as (-> & _ & _). intros H. by rewrite IH.
  - intros H. apply andb_true_iff in H as [H Hs].
    apply andb_true_iff in H as [Ha' Hb]. apply eqb_space in Ha' as ->.
    apply negb_true_iff in Hb as ->. simpl. by rewrite IH.
Qed.

Lemma words_lower (b : bool) (s : string) :
  words is_word_char b s = true → Py.lower s = s.
Proof.
  revert b. induction s as [|a s IH]; intros b; simpl; [done|].
  destruct (is_word_char a) eqn:Ha.
  - destruct (word_char_facts a Ha) as (_ & _ & ->). intros H. by rewrite (IH false).
  - intros H. apply andb_true_iff in H as [H Hs].
    apply andb_true_iff in H as [Ha' Hb]. apply eqb_space in Ha' as ->.
    by rewrite (IH true).
Qed.

Lemma words_rstrip_fixed (b : bool) (s : string) :
  words is_word_char b s = true → Py.rstrip s = s.
Proof.
  revert b. induction s as [|a s IH]; intros b; simpl; [done|].
  destruct (is_word_char a) eqn:Ha.
  - destruct (word_char_facts a Ha) as (_ & Hsp & _). intros H.
    rewrite (IH false H). destruct s; [by rewrite Hsp|done].
  - intros H. apply andb_true_iff in H as [H Hs].
    apply andb_true_iff in H as [Ha' Hb]. apply eqb_space in Ha' as ->.
    rewrite (IH true Hs). destruct s; [done|done].
Qed.

Lemma words_lstrip_fixed (s : string) :
  words is_word_char true s = true → Py.lstrip s = s.
Proof.
  destruct s as [|a s]; simpl; [done|].
  destruct (is_word_char a) eqn:Ha.
  - destruct (word_char_facts a Ha) as (_ & -> & _). done.
  - by rewrite andb_false_r.
Qed.

Lemma normal_form_clean (s : string) : normal_form (clean s) = true.
Proof.
  unfold clean, Py.strip, Py.re_sub.
  pose proof (spaced_lstrip false _
                (spaced_lower false _ (spaced_re_sub_from false s))) as H.
  apply words_rstrip in H as [->|H]; [done|].
  unfold normal_form. by destruct (Py.rstrip _).
Qed.

(** X9.  The normal form under which names are matched is empty or made of
    words of digits and lowercase letters separated by single spaces, with
    no space at either end, whatever the name. *)
Theorem clean_is_normal (s : string) : normal_form (clean s) = true.
Proof. apply normal_form_clean. Qed.

Lemma normal_form_fixed (s : string) : normal_form s = true → clean s = s.
Proof.
  destruct s as [|a s]; [done|]. unfold normal_form. intros H.
  unfold clean, Py.strip, Py.re_sub.
  rewrite (words_re_sub_from false) by (by apply words_weaken).
  rewrite (words_lower true) by done.
  rewrite words_lstrip_fixed by done.
  by apply (words_rstrip_fixed true).
Qed.

(** X10.  Normalising is idempotent, so a topic is found by its own normal
    form: the query [clean (topic T)], when not empty, never gives the null
    result on a dataset that has the row T. *)
Theorem clean_idempotent
    (set_iter : gset value → list value) (df : list TopicRecord) (T : TopicRecord)
    (s : string) :
  T ∈ df → clean (topic T) ≠ "" →
  clean (clean s) = clean s ∧
  generate_data set_iter df (Some (clean (topic T))) ≠ Ok None.
Proof.
  assert (∀ s, clean (clean s) = clean s) as Hidem
    by (intros s'; apply normal_form_fixed, normal_form_clean).
  intros HT Hne. split; [apply Hidem|].
  rewrite generate_data_None_iff. intros [|[[=]|(q & [= <-] & Hnot)]]; [done..|].
  apply Hnot. rewrite Hidem. by apply (list_elem_of_fmap_2 (λ r, clean (topic r))).
Qed.

Lemma clean_idempotent_witness :
  clean (clean "  Machine--Learning & AI ") = clean "  Machine--Learning & AI " ∧
  generate_data elements df_ambiguous (Some "machine learning") ≠ Ok None.
Proof.
  apply (clean_idempotent elements df_ambiguous
           {| topic := "Machine-Learning"; stories := 0; writers := 0;
              related_topics := ["AI"] |}).
  - apply list_elem_of_here.
  - vm_compute. discriminate.
Defined.

Lemma lower_re_sub_from (b : bool) (s : string) :
  Py.lower (Py.re_sub_from b s) = Py.re_sub_from b (Py.lower s).
Proof.
  revert b. induction s as [|a s IH]; intros b; simpl; [done|].
  rewrite is_alnum_lower_char_eq.
  destruct (Py.is_alnum a); simpl; [by rewrite IH|].
  destruct b; simpl; by rewrite IH.
Qed.

Lemma lower_idemp (s : string) : Py.lower (Py.lower s) = Py.lower s.
Proof. induction s as [|a s IH]; simpl; [done|]. by rewrite lower_char_idemp, IH. Qed.

Lemma same_but_for_case_lower (s1 s2 : string) :
  same_but_for_case s1 s2 = true → Py.lower s1 = Py.lower s2.
Proof.
  revert s2. induction s1 as [|a s1 IH]; intros [|b s2]; simpl; try done.
  intros [Hab Hrest]%andb_true_iff. rewrite (IH s2 Hrest). f_equal.
  apply orb_true_iff in Hab as [Hab|Hab].
  - apply Ascii.eqb_eq in Hab. by rewrite Hab.
  - apply andb_true_iff in Hab as [_ Hab]. by apply Ascii.eqb_eq in Hab.
Qed.

(** X11.  The case of the ASCII letters never matters: two names that are
    the same but for the case of letters among [A-Za-z] have the same normal
    form, so the same queries match them. *)
Theorem clean_ignores_case (s1 s2 : string) :
  same_but_for_case s1 s2 = true → clean s1 = clean s2.
Proof.
  intros H%same_but_for_case_lower. unfold clean, Py.re_sub.
  rewrite !lower_re_sub_from. by rewrite H.
Qed.

Lemma clean_ignores_case_witness : clean "LiFe Lessons" = clean "life LESSONS".
Proof. apply clean_ignores_case. reflexivity. Defined.

(** ** [compute_scaling_vars_for_numerical_cols] *)


Lemma Qmin_cases (x y : Q) : Qmin x y = x ∨ Qmin x y = y.
Proof. unfold Qmin, GenericMinMax.gmin. destruct (x ?= y)%Q; tauto. Qed.

Lemma Qmax_cases (x y : Q) : Qmax x y = x ∨ Qmax x y = y.
Proof. unfold Qmax, GenericMinMax.gmax. destruct (x ?= y)%Q; tauto. Qed.

Lemma foldl_Qmin_spec (l : list Q) (q0 : Q) :
  foldl Qmin q0 l ∈ q0 :: l ∧ ∀ x, x ∈ q0 :: l → (foldl Qmin q0 l <= x)%Q.
Proof.
  revert q0. induction l as [|a l IH]; intros q0; simpl.
  - split; [apply list_elem_of_here|].
    intros x ->%list_elem_of_singleton. apply Qle_refl.
  - destruct (IH (Qmin q0 a)) as [Hin Hle]. split.
    + apply elem_of_cons in Hin as [Hin|Hin].
      * rewrite Hin. destruct (Qmin_cases q0 a) as [-> | ->].
        -- apply list_elem_of_here.
        -- apply list_elem_of_further, list_elem_of_here.
      * by do 2 apply list_elem_of_further.
    + assert (foldl Qmin (Qmin q0 a) l <= Qmin q0 a)%Q as Hm
        by apply Hle, list_elem_of_here.
      intros x [->|[->|Hx]%elem_of_cons]%elem_of_cons.
      * eapply Qle_trans; [exact Hm|apply Q.le_min_l].
      * eapply Qle_trans; [exact Hm|apply Q.le_min_r].
      * by apply Hle, list_elem_of_further.
Qed.

Lemma foldl_Qmax_spec (l : list Q) (q0 : Q) :
  foldl Qmax q0 l ∈ q0 :: l ∧ ∀ x, x ∈ q0 :: l → (x <= foldl Qmax q0 l)%Q.
Proof.
  revert q0. induction l as [|a l IH]; intros q0; simpl.
  - split; [apply list_elem_of_here|].
    intros x ->%list_elem_of_singleton. apply Qle_refl.
  - destruct (IH (Qmax q0 a)) as [Hin Hle]. split.
    + apply elem_of_cons in Hin as [Hin|Hin].
      * rewrite Hin. destruct (Qmax_cases q0 a) as [-> | ->].
        -- apply list_elem_of_here.
        -- apply list_elem_of_further, list_elem_of_here.
      * by do 2 apply list_elem_of_further.
    + assert (Qmax q0 a <= foldl Qmax (Qmax q0 a) l)%Q as Hm
        by apply Hle, list_elem_of_here.
      intros x [->|[->|Hx]%elem_of_cons]%elem_of_cons.
      * eapply Qle_trans; [apply Q.le_max_l|exact Hm].
      * eapply Qle_trans; [apply Q.le_max_r|exact Hm].
      * by apply Hle, list_elem_of_further.
Qed.

Lemma lookup_compute_scaling_vars (df : DataFrame) (name : string) (col : Column) :
  columns df !! name = Some col → col_dtype col = numeric →
  compute_scaling_vars_for_numerical_cols df !! name
    = Some {| bmin := series_min col; bmax := series_max col |}.
Proof.
  intros Hcol Hnum. unfold compute_scaling_vars_for_numerical_cols.
  rewrite lookup_fmap.
  by rewrite (map_lookup_filter_Some_2 _ _ name col Hcol Hnum).
Qed.



(** X13.  Only numeric columns get bounds: a column of another dtype (names,
    or the [from], [to] and [id] columns once [parse_data] has converted them)
    and a column that does not exist have no entry. *)
Theorem scaling_bounds_only_for_numeric_columns (df : DataFrame) (name : string) :
  compute_scaling_vars_for_numerical_cols df !! name = None ↔
  ∀ col, columns df !! name = Some col → col_dtype col = object.
Proof.
  unfold compute_scaling_vars_for_numerical_cols.
  rewrite lookup_fmap, fmap_None, map_lookup_filter_None. split.
  - intros [Hnone|Hobj] col Hcol; [congruence|].
    specialize (Hobj col Hcol). simpl in Hobj. by destruct (col_dtype col).
  - intros Hobj. destruct (columns df !! name) as [col|] eqn:Hcol; [|by left].
    right. intros col' [= <-]. simpl. by rewrite (Hobj col).
Qed.



(** ** [Medial.callback_size_nodes]: the lower end of the range, frame and
    errors *)

(** Rounding keeps the sign. *)
Lemma b64_round_nonneg (x : Q) : (0 <= x)%Q → not_below 0 (b64_round x).
Proof.
  intros Hx. unfold b64_round.
  destruct (Qeq_bool x 0) eqn:E0; [simpl; lra|].
  assert (0 < x)%Q as Hpos.
  { destruct (Qeq_dec x 0) as [Hz%Qeq_bool_iff|Hz]; [congruence|lra]. }
  set (e := Z.max _ _). pose proof (pow2_pos e) as He.
  assert (inject_Z 0 <= x / pow2 e)%Q as Ht.
  { apply Qle_shift_div_l; [done|]. change (inject_Z 0) with 0%Q. lra. }
  apply round_half_even_ge in Ht. change (inject_Z 0) with 0%Q in Ht.
  destruct (Qle_bool (pow2 1024) _).
  - simpl. apply not_true_is_false. intros H%Qle_bool_iff. lra.
  - simpl. rewrite Qred_correct. nra.
Qed.

(** Rounding is monotone at a binary64 number: what is at least [m] is not
    rounded below [m]. *)
Lemma b64_round_ge (m x : Q) :
  is_b64 m → (0 < m)%Q → (m <= x)%Q → not_below m (b64_round x).
Proof.
  intros Hm Hm0 Hmx.
  assert (0 < x)%Q as Hx by lra.
  assert (∃ k : Z, (m == inject_Z k * pow2 (Z.max (ilog2 m - 52) (-1074)))%Q)
    as [k Hk].
  { revert Hm. unfold is_b64, b64_round.
    destruct (Qeq_bool m 0) eqn:E0; [apply Qeq_bool_iff in E0; lra|].
    rewrite (Qabs_pos_eq m Hm0).
    set (em := Z.max _ _).
    destruct (round_half_even_Z (m / pow2 em)) as [z ->].
    destruct (Qle_bool _ _); [done|]. intros [= H].
    apply Qred_eq_iff in H. exists z. by rewrite H. }
  set (em := Z.max (ilog2 m - 52) (-1074)) in *.
  pose proof (pow2_pos em) as Hem.
  assert (1 <= k)%Z as Hk1.
  { assert (0 < k)%Z; [|lia]. apply Z.lt_nge. intros Hle.
    rewrite Zle_Qle in Hle. change (inject_Z 0) with 0%Q in Hle.
    rewrite Hk in Hm0. nra. }
  assert (-1074 ≤ ilog2 m)%Z as Hlm.
  { assert (pow2 (-1074) < pow2 (ilog2 m + 1))%Q as H%pow2_lt_inv; [|lia].
    eapply Qle_lt_trans; [|apply ilog2_lt, Hm0].
    assert (pow2 (-1074) <= pow2 em)%Q by (apply pow2_le; lia).
    assert (inject_Z 1 <= inject_Z k)%Q as Hk1' by (by rewrite <- Zle_Qle).
    change (inject_Z 1) with 1%Q in Hk1'. nra. }
  unfold b64_round.
  destruct (Qeq_bool x 0) eqn:E0; [apply Qeq_bool_iff in E0; lra|].
  rewrite (Qabs_pos_eq x Hx).
  set (e := Z.max (ilog2 x - 52) (-1074)). pose proof (pow2_pos e) as He.
  assert (m <= round_half_even (x / pow2 e) * pow2 e)%Q as Hy.
  { destruct (Z.le_gt_cases (ilog2 x) (ilog2 m)) as [Hle|Hgt].
    - assert (e ≤ em)%Z as Hee by lia.
      assert (m == inject_Z (k * 2 ^ (em - e)) * pow2 e)%Q as Hm'.
      { rewrite Hk, inject_Z_mult, <- pow2_nonneg_Z by lia.
        replace em with (em - e + e)%Z at 1 by lia. rewrite pow2_plus. ring. }
      assert (inject_Z (k * 2 ^ (em - e)) <= x / pow2 e)%Q as Ht.
      { apply Qle_shift_div_l; [done|]. by rewrite <- Hm'. }
      apply round_half_even_ge in Ht. rewrite Hm'. nra.
    - assert (e ≤ ilog2 x)%Z as Hee by lia.
      assert (pow2 (ilog2 x) == inject_Z (2 ^ (ilog2 x - e)) * pow2 e)%Q as Hp.
      { rewrite <- pow2_nonneg_Z by lia. rewrite <- pow2_plus.
        by replace (ilog2 x - e + e)%Z with (ilog2 x) by lia. }
      assert (inject_Z (2 ^ (ilog2 x - e)) <= x / pow2 e)%Q as Ht.
      { apply Qle_shift_div_l; [done|]. rewrite <- Hp. by apply ilog2_le. }
      apply round_half_even_ge in Ht.
      assert (m < pow2 (ilog2 x))%Q; [|nra].
      eapply Qlt_le_trans; [apply ilog2_lt, Hm0|]. apply pow2_le. lia. }
  destruct (Qle_bool (pow2 1024) _).
  - simpl. apply not_true_is_false. intros H%Qle_bool_iff. lra.
  - simpl. by rewrite Qred_correct.
Qed.

Lemma not_below_b64_mul (a b : value) :
  not_below 0 a → not_below 0 b → not_below 0 (b64_mul a b).
Proof.
  destruct a as [|x| | |s], b as [|y| | |t]; simpl; try done.
  - intros Hx Hy. apply b64_round_nonneg. nra.
  - intros Hx ->. destruct (Qeq_bool x 0) eqn:E; [done|]. simpl.
    apply not_true_is_false. intros H%Qle_bool_iff.
    apply not_true_iff_false in E. apply E, Qeq_bool_iff. lra.
  - intros -> Hy. destruct (Qeq_bool y 0) eqn:E; [done|]. simpl.
    apply not_true_is_false. intros H%Qle_bool_iff.
    apply not_true_iff_false in E. apply E, Qeq_bool_iff. lra.
  - by intros -> ->.
Qed.

Lemma not_below_b64_div (a b : value) :
  not_below 0 a →
  (∃ w, b = Num w ∧ (0 < w)%Q) ∨ b = Inf false →
  not_below 0 (b64_div a b).
Proof.
  intros Ha [(w & -> & Hw)| ->]; destruct a as [|x| | |s]; simpl in *; try done.
  - apply b64_round_nonneg. apply Qle_shift_div_l; [done|]. lra.
  - subst s. simpl. apply not_true_is_false. intros H%Qle_bool_iff. lra.
Qed.

Lemma not_below_b64_add (a : value) (m : Q) :
  is_b64 m → (0 <= m)%Q → not_below 0 a → not_below m (b64_add a (Num m)).
Proof.
  intros Hm Hm0 Ha. destruct a as [|x| | |s]; simpl in *; try done.
  destruct (Qeq_dec m 0) as [Hz|Hz].
  - assert (0 <= x + m)%Q as H%b64_round_nonneg by lra.
    destruct (b64_round (x + m)); simpl in *; try done. lra.
  - apply b64_round_ge; [done|lra|lra].
Qed.

(** The size that the rescaling gives is not below [MIN_NODE_SIZE]. *)
Lemma rescaled_not_below (MIN_NODE_SIZE MAX_NODE_SIZE lo hi v : Q) :
  is_b64 MIN_NODE_SIZE → (0 <= MIN_NODE_SIZE <= MAX_NODE_SIZE)%Q →
  is_b64 lo → is_b64 hi → (lo < hi)%Q → (lo <= v)%Q →
  not_below MIN_NODE_SIZE
    (rescaled MIN_NODE_SIZE MAX_NODE_SIZE (Num lo) (Num hi) (Num v)).
Proof.
  intros Hmin [Hmin0 Hmm] Hlo Hhi Hlt Hv. unfold rescaled.
  apply not_below_b64_add; [done..|].
  apply not_below_b64_mul.
  - apply b64_round_nonneg. lra.
  - apply not_below_b64_div.
    + apply b64_round_nonneg. lra.
    + unfold b64_sub, b64_opp, b64_add.
      destruct (b64_round_pos (hi + - lo)) as [(y & -> & Hy)| ->]; eauto.
      by apply b64_gap.
Qed.

(** At the lower bound the size is [MIN_NODE_SIZE] when the scaling factor
    is a finite number. *)
Lemma rescaled_at_lower_bound (MIN_NODE_SIZE MAX_NODE_SIZE lo hi v s : Q) :
  is_b64 MIN_NODE_SIZE → (v == lo)%Q →
  b64_div (b64_sub (Num MAX_NODE_SIZE) (Num MIN_NODE_SIZE))
          (b64_sub (Num hi) (Num lo)) = Num s →
  rescaled MIN_NODE_SIZE MAX_NODE_SIZE (Num lo) (Num hi) (Num v)
    = Num (Qred MIN_NODE_SIZE).
Proof.
  intros Hmin Hv Hs. unfold rescaled. rewrite Hs.
  assert (b64_sub (Num v) (Num lo) = Num 0) as ->.
  { unfold b64_sub, b64_opp, b64_add.
    by rewrite (b64_round_proper (v + - lo) 0) by lra. }
  assert (b64_mul (Num 0) (Num s) = Num 0) as ->.
  { unfold b64_mul. by rewrite (b64_round_proper (0 * s) 0) by lra. }
  unfold b64_add. by rewrite (b64_round_proper (0 + MIN_NODE_SIZE) MIN_NODE_SIZE) by lra.
Qed.

(** X15.  With binary64 bounds [lo < hi], binary64 constants
    [0 <= MIN_NODE_SIZE <= MAX_NODE_SIZE] and attribute values that are
    binary64 numbers not below [lo], the call returns and no node gets a
    size below [MIN_NODE_SIZE]: the size is a number that is at least
    [MIN_NODE_SIZE], or [inf], or [nan]; a node at the lower bound gets
    exactly [MIN_NODE_SIZE] when the scaling factor
    [(MAX_NODE_SIZE - MIN_NODE_SIZE) / (hi - lo)] is finite.  (Rounding can
    put a size above [MAX_NODE_SIZE]: the upper end is not kept.) *)
Theorem sizes_are_not_below_MIN
    (MIN_NODE_SIZE MAX_NODE_SIZE DEFAULT_NODE_SIZE : Q)
    (data : GraphData) (scaling_vars : ScalingVars) (label method : string)
    (node_vars : gmap string Bounds) (lo hi : Q) :
  list.last (Py.split label) = Some method →
  sv_node scaling_vars = Some node_vars →
  node_vars !! method = Some {| bmin := Num lo; bmax := Num hi |} →
  is_b64 MIN_NODE_SIZE → is_b64 MAX_NODE_SIZE →
  (0 <= MIN_NODE_SIZE <= MAX_NODE_SIZE)%Q →
  is_b64 lo → is_b64 hi → (lo < hi)%Q →
  Forall (λ node, ∃ v, node !! method = Some (Num v) ∧ is_b64 v ∧ (lo <= v)%Q)
         (data_nodes data) →
  ∃ nodes,
    callback_size_nodes MIN_NODE_SIZE MAX_NODE_SIZE DEFAULT_NODE_SIZE
      data scaling_vars (Some label)
      = Ok {| data_nodes := nodes; data_edges := data_edges data |} ∧
    Forall2 (λ node node', ∃ v size,
               node !! method = Some (Num v) ∧
               node' = <["size" := size]> node ∧
               not_below MIN_NODE_SIZE size ∧
               ((v == lo)%Q →
                (∃ s, b64_div (b64_sub (Num MAX_NODE_SIZE) (Num MIN_NODE_SIZE))
                              (b64_sub (Num hi) (Num lo)) = Num s) →
                size = Num (Qred MIN_NODE_SIZE)))
            (data_nodes data) nodes.
Proof.
  intros Hlast Hsv Hb Hmin _ Hmm Hlo Hhi Hlt Hnodes.
  unfold callback_size_nodes, last_item. rewrite Hlast.
  cbn [mbind result_bind].
  destruct (mapM_Forall2
    (resize_node MIN_NODE_SIZE MAX_NODE_SIZE scaling_vars method)
    (λ node node', ∃ v size,
       node !! method = Some (Num v) ∧
       node' = <["size" := size]> node ∧
       not_below MIN_NODE_SIZE size ∧
       ((v == lo)%Q →
        (∃ s, b64_div (b64_sub (Num MAX_NODE_SIZE) (Num MIN_NODE_SIZE))
                      (b64_sub (Num hi) (Num lo)) = Num s) →
        size = Num (Qred MIN_NODE_SIZE)))
    (data_nodes data)) as (nodes & -> & HF).
  - eapply List.Forall_impl; [|exact Hnodes].
    intros node (v & Hv & _ & Hge). simpl.
    eexists. split; [by eapply resize_node_Ok|].
    exists v. eexists. split; [done|]. split; [done|]. split.
    + by apply rescaled_not_below.
    + intros Hvlo [s Hs]. by eapply rescaled_at_lower_bound.
  - exists nodes. split; [reflexivity|exact HF].
Qed.

(** With the bounds 5 and 9 the node Writing, whose value is 5, gets the
    size 10. *)
Lemma sizes_are_not_below_MIN_witness :
  ∃ life writing poetry,
    callback_size_nodes 10 50 15 three_nodes (stories_bounds 5 9)
      (Some "Number of stories")
      = Ok {| data_nodes := [life; writing; poetry];
              data_edges := data_edges three_nodes |} ∧
    writing = <["size" := Num 10]> ({[ "id" := Str "Writing"; "stories" := Num 5 ]}).
Proof.
  destruct (sizes_are_not_below_MIN 10 50 15 three_nodes (stories_bounds 5 9)
              "Number of stories" "stories"
              {[ "stories" := {| bmin := Num 5; bmax := Num 9 |} ]} 5 9)
    as (nodes & Hrun & HF).
  - vm_compute; reflexivity.
  - reflexivity.
  - vm_compute; reflexivity.
  - vm_compute; reflexivity.
  - vm_compute; reflexivity.
  - split; discriminate.
  - vm_compute; reflexivity.
  - vm_compute; reflexivity.
  - reflexivity.
  - repeat constructor.
    + exists 7%Q. split; [vm_compute; reflexivity|]. split; [vm_compute; reflexivity|discriminate].
    + exists 5%Q. split; [vm_compute; reflexivity|]. split; [vm_compute; reflexivity|discriminate].
    + exists 9%Q. split; [vm_compute; reflexivity|]. split; [vm_compute; reflexivity|discriminate].
  - simpl in HF.
    apply Forall2_cons_inv_l in HF as (life & rest & _ & HF & ->).
    apply Forall2_cons_inv_l in HF as (writing & rest' & Hw & HF & ->).
    apply Forall2_cons_inv_l in HF as (poetry & rest'' & _ & HF & ->).
    apply Forall2_nil_inv_l in HF as ->.
    exists life, writing, poetry. split; [exact Hrun|].
    destruct Hw as (v & size & Hv & -> & _ & Hat).
    assert (v = 5%Q) as -> by (vm_compute in Hv; congruence).
    rewrite Hat; [reflexivity|reflexivity|].
    eexists. vm_compute. reflexivity.
Defined.

Lemma mapM_inv {A B} (f : A → result B) (l : list A) (ys : list B) :
  mapM f l = Ok ys → Forall2 (λ x y, f x = Ok y) l ys.
Proof.
  revert ys. induction l as [|x l IH]; intros ys; simpl.
  - intros [= <-]. constructor.
  - destruct (f x) as [y|] eqn:Hy; simpl; [|done].
    destruct (mapM f l) as [ys'|]; simpl; [|done].
    intros [= <-]. constructor; [done|]. by apply IH.
Qed.

Lemma resize_node_inv (MIN_NODE_SIZE MAX_NODE_SIZE : Q) (scaling_vars : ScalingVars)
    (method : string) (node node' : gmap string value) :
  resize_node MIN_NODE_SIZE MAX_NODE_SIZE scaling_vars method node = Ok node' →
  ∃ size, node' = <["size" := size]> node.
Proof.
  unfold resize_node.
  destruct (sv_node scaling_vars); cbn [mbind result_bind]; [|done].
  destruct (_ !! method); cbn [mbind result_bind]; [|done].
  destruct (arith _ _ _); cbn [mbind result_bind]; [|done].
  destruct (arith _ _ _); cbn [mbind result_bind]; [|done].
  destruct (truediv _ _); cbn [mbind result_bind]; [|done].
  destruct (getitem _ _); cbn [mbind result_bind]; [|done].
  destruct (arith _ _ _); cbn [mbind result_bind]; [|done].
  destruct (arith _ _ _); cbn [mbind result_bind]; [|done].
  destruct (arith _ _ _); cbn [mbind result_bind]; [|done].
  intros [= <-]. eauto.
Qed.

Lemma callback_size_nodes_inv
    (MIN_NODE_SIZE MAX_NODE_SIZE DEFAULT_NODE_SIZE : Q)
    (data data' : GraphData) (scaling_vars : ScalingVars)
    (size_topics_by : option string) :
  callback_size_nodes MIN_NODE_SIZE MAX_NODE_SIZE DEFAULT_NODE_SIZE
    data scaling_vars size_topics_by = Ok data' →
  data_edges data' = data_edges data ∧
  Forall2 (λ node node', ∃ size, node' = <["size" := size]> node)
          (data_nodes data) (data_nodes data').
Proof.
  unfold callback_size_nodes. destruct size_topics_by as [label|].
  - destruct (last_item _) as [method|]; simpl; [|done].
    destruct (mapM _ _) as [nodes|] eqn:Hm; simpl; [|done].
    intros [= <-]. split; [done|]. simpl.
    apply mapM_inv in Hm. eapply list.Forall2_impl; [exact Hm|].
    intros node node' H. simpl in H. exact (resize_node_inv _ _ _ _ _ _ H).
  - intros [= <-]. split; [done|]. simpl.
    apply Forall2_fmap_r, Forall_Forall2_diag, Forall_forall. eauto.
Qed.

(** X16.  Sizing writes the key [size] of every node and nothing else: when
    the call returns, with or without a sizing label, the edges are the same,
    there are as many nodes, and every node keeps all its other entries. *)
Theorem sizing_only_writes_size
    (MIN_NODE_SIZE MAX_NODE_SIZE DEFAULT_NODE_SIZE : Q)
    (data data' : GraphData) (scaling_vars : ScalingVars)
    (size_topics_by : option string) :
  callback_size_nodes MIN_NODE_SIZE MAX_NODE_SIZE DEFAULT_NODE_SIZE
    data scaling_vars size_topics_by = Ok data' →
  data_edges data' = data_edges data ∧
  length (data_nodes data') = length (data_nodes data) ∧
  Forall2 (λ node node', is_Some (node' !! "size") ∧
                         ∀ key, key ≠ "size" → node' !! key = node !! key)
          (data_nodes data) (data_nodes data').
Proof.
  intros Hrun. apply callback_size_nodes_inv in Hrun as [Hedges HF].
  split; [done|]. split; [symmetry; by eapply Forall2_length|].
  eapply list.Forall2_impl; [exact HF|]. intros node node' [size ->]. split.
  - rewrite lookup_insert_eq. eauto.
  - intros key Hkey. by rewrite lookup_insert_ne.
Qed.

Lemma sizing_only_writes_size_witness :
  ∃ data',
    callback_size_nodes 10 50 15 three_nodes (stories_bounds 5 9)
      (Some "Number of stories") = Ok data' ∧
    data_edges data' = data_edges three_nodes.
Proof.
  destruct (callback_size_nodes 10 50 15 three_nodes (stories_bounds 5 9)
              (Some "Number of stories")) as [data'|e] eqn:Hrun;
    [|vm_compute in Hrun; discriminate Hrun].
  exists data'. split; [reflexivity|].
  by destruct (sizing_only_writes_size 10 50 15 three_nodes data'
                 (stories_bounds 5 9) (Some "Number of stories") Hrun) as [? _].
Defined.

(** X17.  Choosing no sizing label undoes any sizing: on the graph that a
    sizing call returned, the call without a label gives what it gives on
    the graph before the sizing.  Every node is at [DEFAULT_NODE_SIZE]
    again. *)
Theorem no_label_undoes_sizing
    (MIN_NODE_SIZE MAX_NODE_SIZE DEFAULT_NODE_SIZE : Q)
    (data data' : GraphData) (scaling_vars scaling_vars' : ScalingVars)
    (size_topics_by : option string) :
  callback_size_nodes MIN_NODE_SIZE MAX_NODE_SIZE DEFAULT_NODE_SIZE
    data scaling_vars size_topics_by = Ok data' →
  callback_size_nodes MIN_NODE_SIZE MAX_NODE_SIZE DEFAULT_NODE_SIZE
    data' scaling_vars' None
  = callback_size_nodes MIN_NODE_SIZE MAX_NODE_SIZE DEFAULT_NODE_SIZE
      data scaling_vars None.
Proof.
  intros Hrun. apply callback_size_nodes_inv in Hrun as [Hedges HF].
  unfold callback_size_nodes. rewrite Hedges. do 2 f_equal.
  induction HF as [|node node' nodes nodes' [size ->] _ IH]; [done|].
  rewrite !fmap_cons, IH. f_equal. apply insert_insert_eq.
Qed.

Lemma no_label_undoes_sizing_witness :
  ∃ data',
    callback_size_nodes 10 50 15 three_nodes (stories_bounds 5 9)
      (Some "Number of stories") = Ok data' ∧
    callback_size_nodes 10 50 15 data' (stories_bounds 5 9) None
    = callback_size_nodes 10 50 15 three_nodes (stories_bounds 5 9) None.
Proof.
  destruct (callback_size_nodes 10 50 15 three_nodes (stories_bounds 5 9)
              (Some "Number of stories")) as [data'|e] eqn:Hrun;
    [|vm_compute in Hrun; discriminate Hrun].
  exists data'. split; [reflexivity|].
  exact (no_label_undoes_sizing 10 50 15 three_nodes data' (stories_bounds 5 9)
           (stories_bounds 5 9) (Some "Number of stories") Hrun).
Defined.

(** The words of a label may be separated by any white space of Unicode:
    after a no-break space (U+00A0, the bytes 194 and 160) the last word is
    still [stories]. *)
Lemma last_word_after_no_break_space :
  list.last (Py.split ("Number of" +:+
                       String (ascii_of_nat 194) (String (ascii_of_nat 160) "stories")))
  = Some "stories".
Proof. vm_compute. reflexivity. Qed.

(** X18.  Sizing by an attribute for which there are no bounds (a column
    that is not numeric, or a label whose last word names no column) raises
    [KeyError] as soon as there is a node; with no node nothing is looked up
    and the call returns the graph as it is. *)
Theorem sizing_by_unknown_attribute
    (MIN_NODE_SIZE MAX_NODE_SIZE DEFAULT_NODE_SIZE : Q)
    (data : GraphData) (scaling_vars : ScalingVars) (label method : string)
    (node_vars : gmap string Bounds) :
  list.last (Py.split label) = Some method →
  sv_node scaling_vars = Some node_vars →
  node_vars !! method = None →
  callback_size_nodes MIN_NODE_SIZE MAX_NODE_SIZE DEFAULT_NODE_SIZE
    data scaling_vars (Some label)
  = match data_nodes data with
    | [] => Ok data
    | _ :: _ => Raise (KeyError method)
    end.
Proof.
  intros Hlast Hsv Hb. unfold callback_size_nodes, last_item.
  rewrite Hlast. simpl. destruct data as [[|node nodes] edges]; simpl; [done|].
  unfold resize_node. rewrite Hsv. simpl. by rewrite Hb.
Qed.

Lemma sizing_by_unknown_attribute_witness :
  callback_size_nodes 10 50 15 three_nodes (stories_bounds 5 9)
    (Some "Number of writers") = Raise (KeyError "writers").
Proof.
  apply (sizing_by_unknown_attribute 10 50 15 three_nodes (stories_bounds 5 9)
           "Number of writers" "writers"
           {[ "stories" := {| bmin := Num 5; bmax := Num 9 |} ]}).
  - vm_compute; reflexivity.
  - reflexivity.
  - vm_compute; reflexivity.
Defined.

(** ** [parse_data]: the caller's objects, the bounds and the payload *)

(** What a call with the columns present returns, part by part. *)
Lemma parse_data_returns (set_iter : gset value → list value)
    (str_of_num : Q → string) (DEFAULT_NODE_SIZE : Q)
    (edge_df : loc) (node_df : option loc) (h : store) :
  frame_wf (h edge_df) →
  columns_present edge_df node_df h = true →
  ∃ nodes edges,
    match node_df with
    | None =>
        nodes = plain_node DEFAULT_NODE_SIZE <$>
                  set_iter (list_to_set
                    (unique_of "from" (converted str_of_num edge_df node_df h edge_df) ++
                     unique_of "to" (converted str_of_num edge_df node_df h edge_df)))
    | Some node_loc =>
        mapM (node_dict DEFAULT_NODE_SIZE
                (has_column "node_image_url"
                   (converted str_of_num edge_df node_df h node_loc)))
             (to_dict_records (converted str_of_num edge_df node_df h node_loc))
        = Ok nodes
    end ∧
    mapM edge_dict (to_dict_records (converted str_of_num edge_df node_df h edge_df))
      = Ok edges ∧
    parse_data set_iter str_of_num DEFAULT_NODE_SIZE edge_df node_df h =
      (Ok ({| data_nodes := nodes; data_edges := edges |},
           {| sv_node :=
                (λ l, compute_scaling_vars_for_numerical_cols
                        (<[edge_df := set_astype_str str_of_num ["from"; "to"]
                                        (h edge_df)]> h l)) <$> node_df;
              sv_edge :=
                Some (compute_scaling_vars_for_numerical_cols
                        (set_astype_str str_of_num ["from"; "to"] (h edge_df))) |}),
       converted str_of_num edge_df node_df h).
Proof.
  intros Hwf Hc.
  destruct (parse_data_checked_Ok set_iter str_of_num DEFAULT_NODE_SIZE
              edge_df node_df h Hwf Hc) as [out Hout].
  rewrite (parse_data_checked set_iter str_of_num DEFAULT_NODE_SIZE
             edge_df node_df h Hc) in Hout |- *.
  cbv zeta in *.
  destruct node_df as [node_loc|]; simpl in *.
  - destruct (mapM (node_dict _ _) _) as [nodes|]; simpl in *; [|done].
    destruct (mapM edge_dict _) as [edges|]; simpl in *; [|done].
    by exists nodes, edges.
  - destruct (mapM edge_dict _) as [edges|]; simpl in *; [|done].
    by eexists _, edges.
Qed.

Lemma lookup_scaling_vars (df : DataFrame) (name : string) :
  compute_scaling_vars_for_numerical_cols df !! name =
  match columns df !! name with
  | Some col =>
      if decide (col_dtype col = numeric)
      then Some {| bmin := series_min col; bmax := series_max col |}
      else None
  | None => None
  end.
Proof.
  unfold compute_scaling_vars_for_numerical_cols. rewrite lookup_fmap.
  destruct (columns df !! name) as [col|] eqn:Hcol.
  - case_decide as Hnum.
    + by rewrite (map_lookup_filter_Some_2 _ _ name col Hcol Hnum).
    + apply fmap_None, map_lookup_filter_None. right.
      intros col' Hcol'. simpl. congruence.
  - apply fmap_None, map_lookup_filter_None. by left.
Qed.

(** X19.  A call that raises has changed nothing: the two checks come before
    the first conversion, and on tables with one cell per row nothing
    raises after them. *)
Theorem raising_call_changes_nothing (set_iter : gset value → list value)
    (str_of_num : Q → string) (DEFAULT_NODE_SIZE : Q)
    (edge_df : loc) (node_df : option loc) (h h' : store) (e : exn) :
  frame_wf (h edge_df) →
  parse_data set_iter str_of_num DEFAULT_NODE_SIZE edge_df node_df h = (Raise e, h') →
  h' = h.
Proof.
  intros Hwf Hrun. destruct (columns_present edge_df node_df h) eqn:Hc.
  - destruct (parse_data_checked_Ok set_iter str_of_num DEFAULT_NODE_SIZE
                edge_df node_df h Hwf Hc) as [out Hout]. congruence.
  - destruct (parse_data_unchecked set_iter str_of_num DEFAULT_NODE_SIZE
                edge_df node_df h Hc) as [msg Hmsg]. congruence.
Qed.

Lemma raising_call_changes_nothing_witness :
  ∃ e, parse_data elements str_of_int64 15 1%positive None bad_store
       = (Raise e, bad_store).
Proof.
  destruct (parse_data elements str_of_int64 15 1%positive None bad_store)
    as [[out|e] h'] eqn:Hrun; [vm_compute in Hrun; discriminate Hrun|].
  exists e. f_equal.
  apply (raising_call_changes_nothing elements str_of_int64 15 1%positive None
           bad_store h' e); [|exact Hrun].
  intros name c. unfold bad_store. rewrite fn_lookup_insert. simpl.
  destruct (decide (name = "from")) as [->|Hne].
  - rewrite lookup_singleton_eq. by intros [= <-].
  - by rewrite lookup_singleton_ne.
Defined.

(** X20.  The edge bounds are computed after the [from] and [to] columns
    have become strings, the node bounds before the [id] column has: the
    edge bounds never have an entry for [from] or [to] and are those of the
    caller's table for every other column, while the node bounds are those
    of the caller's node table as it was, [id] included when it holds
    numbers.  Without a node table there are no node bounds. *)
Theorem bounds_of_the_tables (set_iter : gset value → list value)
    (str_of_num : Q → string) (DEFAULT_NODE_SIZE : Q)
    (edge_df : loc) (node_df : option loc) (h : store) :
  frame_wf (h edge_df) →
  columns_present edge_df node_df h = true →
  node_df ≠ Some edge_df →
  ∃ data edge_vars h',
    parse_data set_iter str_of_num DEFAULT_NODE_SIZE edge_df node_df h
      = (Ok (data,
             {| sv_node := (λ l, compute_scaling_vars_for_numerical_cols (h l))
                             <$> node_df;
                sv_edge := Some edge_vars |}), h') ∧
    edge_vars !! "from" = None ∧ edge_vars !! "to" = None ∧
    ∀ c, c ≠ "from" → c ≠ "to" →
         edge_vars !! c = compute_scaling_vars_for_numerical_cols (h edge_df) !! c.
Proof.
  intros Hwf Hc Hne.
  destruct (parse_data_returns set_iter str_of_num DEFAULT_NODE_SIZE
              edge_df node_df h Hwf Hc) as (nodes & edges & _ & _ & Hrun).
  eexists _, _, _. split; [|split; [|split]].
  - rewrite Hrun. do 3 f_equal.
    destruct node_df as [node_loc|]; [|done]. simpl.
    rewrite fn_lookup_insert_ne; [done|congruence].
  - rewrite lookup_scaling_vars, lookup_set_astype_str, decide_True
      by apply list_elem_of_here.
    by destruct (columns (h edge_df) !! "from").
  - rewrite lookup_scaling_vars, lookup_set_astype_str, decide_True
      by apply list_elem_of_further, list_elem_of_here.
    by destruct (columns (h edge_df) !! "to").
  - intros c Hfrom Hto.
    rewrite !lookup_scaling_vars, lookup_set_astype_str, decide_False; [done|].
    intros [->|[->|[]%elem_of_nil]%elem_of_cons]%elem_of_cons; done.
Qed.

Lemma num_store_wf : frame_wf (num_store 1%positive).
Proof.
  intros name c. unfold num_store. rewrite fn_lookup_insert. simpl.
  destruct (decide (name = "from")) as [->|Hfrom].
  { rewrite lookup_insert_eq. by intros [= <-]. }
  rewrite lookup_insert_ne by done.
  destruct (decide (name = "to")) as [->|Hto].
  { rewrite lookup_insert_eq. by intros [= <-]. }
  rewrite lookup_insert_ne by done.
  destruct (decide (name = "weight")) as [->|Hw].
  { rewrite lookup_singleton_eq. by intros [= <-]. }
  by rewrite lookup_singleton_ne.
Qed.

(** On [num_store] the weights get bounds, the numeric endpoints do not,
    and the numeric ids do. *)
Lemma bounds_of_the_tables_witness :
  ∃ data node_vars edge_vars h',
    parse_data elements str_of_int64 15 1%positive (Some 2%positive) num_store
      = (Ok (data, {| sv_node := Some node_vars; sv_edge := Some edge_vars |}), h') ∧
    edge_vars !! "from" = None ∧
    edge_vars !! "weight" = Some {| bmin := Num 4; bmax := Num 6 |} ∧
    node_vars !! "id" = Some {| bmin := Num 1; bmax := Num 3 |}.
Proof.
  destruct (bounds_of_the_tables elements str_of_int64 15 1%positive
              (Some 2%positive) num_store)
    as (data & edge_vars & h' & Hrun & Hfrom & _ & Hother).
  - apply num_store_wf.
  - vm_compute; reflexivity.
  - discriminate.
  - eexists data, _, edge_vars, h'. split; [exact Hrun|]. split; [exact Hfrom|].
    split; [rewrite Hother by discriminate|]; vm_compute; reflexivity.
Defined.

Lemma elem_of_unique_of (str_of_num : Q → string) (edge_df : loc) (h : store)
    (name : string) (col : Column) (v : value) :
  name ∈ ["from"; "to"] →
  columns (h edge_df) !! name = Some col →
  v ∈ unique_of name (converted str_of_num edge_df None h edge_df) ↔
  ∃ w, w ∈ cells col ∧ v = Str (str_of_value str_of_num w).
Proof.
  intros Hname Hcol. unfold unique_of.
  rewrite (converted_edge_column str_of_num edge_df None h name Hname), Hcol.
  cbn [fmap option_fmap option_map default astype_str cells].
  unfold Datatypes.id.
  rewrite elem_of_keep_first, list_elem_of_fmap. split.
  - intros [(w & -> & Hw) _]. eauto.
  - intros (w & Hw & ->). split; [eauto|apply not_elem_of_nil].
Qed.

(** X21.  Without a node table the nodes are made from the edge table: one
    node for every distinct string among the converted [from] and [to]
    cells, each with the label equal to the id, the shape [dot] and the
    default size, and no node bounds are computed.  A missing endpoint
    gives a node named [nan]. *)
Theorem nodes_from_edges_alone (set_iter : gset value → list value)
    (str_of_num : Q → string) (DEFAULT_NODE_SIZE : Q)
    (edge_df : loc) (h : store) (froms tos : Column) :
  (∀ s, set_iter s ≡ₚ elements s) →
  frame_wf (h edge_df) →
  columns (h edge_df) !! "from" = Some froms →
  columns (h edge_df) !! "to" = Some tos →
  ∃ names edges edge_vars h',
    parse_data set_iter str_of_num DEFAULT_NODE_SIZE edge_df None h
      = (Ok ({| data_nodes := plain_node DEFAULT_NODE_SIZE <$> names;
                data_edges := edges |},
             {| sv_node := None; sv_edge := edge_vars |}), h') ∧
    NoDup names ∧
    ∀ v, v ∈ names ↔
         ∃ w, (w ∈ cells froms ∨ w ∈ cells tos) ∧
              v = Str (str_of_value str_of_num w).
Proof.
  intros Hperm Hwf Hfrom Hto.
  destruct (parse_data_returns set_iter str_of_num DEFAULT_NODE_SIZE
              edge_df None h Hwf) as (nodes & edges & -> & _ & Hrun).
  { unfold columns_present, has_column. rewrite Hfrom, Hto.
    rewrite !bool_decide_eq_true_2 by eauto. done. }
  eexists _, edges, _, _. split; [exact Hrun|]. split.
  - rewrite Hperm. apply NoDup_elements.
  - intros v. rewrite Hperm, elem_of_elements, elem_of_list_to_set, elem_of_app.
    rewrite (elem_of_unique_of str_of_num edge_df h "from" froms v)
      by (done || apply list_elem_of_here).
    rewrite (elem_of_unique_of str_of_num edge_df h "to" tos v)
      by (done || apply list_elem_of_further, list_elem_of_here).
    split.
    + intros [(w & Hw & ->)|(w & Hw & ->)]; eauto.
    + intros (w & [Hw|Hw] & ->); eauto.
Qed.

(** In [ex_store] the edge table has the row Life -- missing: the nodes made
    from it are Life and nan, in some order. *)
Lemma nodes_from_edges_alone_witness :
  ∃ names edges edge_vars h',
    parse_data elements str_of_int64 15 1%positive None ex_store
      = (Ok ({| data_nodes := plain_node 15 <$> names; data_edges := edges |},
             {| sv_node := None; sv_edge := edge_vars |}), h') ∧
    Str "nan" ∈ names ∧ Str "Life" ∈ names ∧ length names = 2.
Proof.
  destruct (nodes_from_edges_alone elements str_of_int64 15 1%positive ex_store
              {| col_dtype := object; cells := [Str "Life"] |}
              {| col_dtype := object; cells := [NaN] |})
    as (names & edges & edge_vars & h' & Hrun & Hnodup & Hnames).
  - done.
  - apply edges_frame_wf.
  - vm_compute; reflexivity.
  - vm_compute; reflexivity.
  - exists names, edges, edge_vars, h'. split; [exact Hrun|].
    assert (Str "nan" ∈ names) as Hnan.
    { apply Hnames. exists NaN. split; [right; apply list_elem_of_here|done]. }
    assert (Str "Life" ∈ names) as Hlife.
    { apply Hnames. exists (Str "Life"). split; [left; apply list_elem_of_here|done]. }
    split; [exact Hnan|]. split; [exact Hlife|].
    assert (∀ v, v ∈ names → v ∈ [Str "Life"; Str "nan"]) as Hsub.
    { intros v (w & [Hw|Hw] & ->)%Hnames; apply list_elem_of_singleton in Hw as ->.
      - apply list_elem_of_here.
      - apply list_elem_of_further, list_elem_of_here. }
    apply Nat.le_antisymm.
    + change 2 with (length [Str "Life"; Str "nan"]).
      apply submseteq_length, NoDup_submseteq; done.
    + change 2 with (length [Str "Life"; Str "nan"]).
      apply submseteq_length, NoDup_submseteq.
      * apply list.NoDup_cons. split; [|apply NoDup_singleton].
        intros H%list_elem_of_singleton. discriminate H.
      * intros v [->|[->|[]%elem_of_nil]%elem_of_cons]%elem_of_cons; done.
Defined.

Lemma lookup_to_dict_records (df : DataFrame) (i : nat) :
  i < nrows df →
  to_dict_records df !! i
    = Some ((λ c, default NaN (cells c !! i)) <$> columns df).
Proof.
  intros Hi. unfold to_dict_records.
  by rewrite list_lookup_fmap, lookup_seq_lt.
Qed.

Lemma length_to_dict_records (df : DataFrame) :
  length (to_dict_records df) = nrows df.
Proof. unfold to_dict_records. by rewrite length_fmap, length_seq. Qed.

Lemma has_column_set_astype_str (str_of_num : Q → string) (names : list string)
    (df : DataFrame) (c : string) :
  has_column c (set_astype_str str_of_num names df) = has_column c df.
Proof. unfold has_column. apply bool_decide_ext, is_Some_set_astype_str. Qed.

Lemma converted_node_table (str_of_num : Q → string) (edge_df node_loc : loc)
    (h : store) :
  node_loc ≠ edge_df →
  converted str_of_num edge_df (Some node_loc) h node_loc
    = set_astype_str str_of_num ["id"] (h node_loc).
Proof.
  intros Hne. unfold converted.
  by rewrite fn_lookup_insert, fn_lookup_insert_ne.
Qed.

Lemma converted_other_column (str_of_num : Q → string) (edge_df : loc)
    (node_df : option loc) (h : store) (l : loc) (k : string) :
  k ∉ ["from"; "to"; "id"] →
  columns (converted str_of_num edge_df node_df h l) !! k = columns (h l) !! k.
Proof.
  intros Hk.
  rewrite !not_elem_of_cons in Hk. destruct Hk as (Hf & Ht & Hi & _).
  assert (k ∉ ["from"; "to"]) as Hft.
  { rewrite !not_elem_of_cons. repeat split; try done. apply not_elem_of_nil. }
  assert (k ∉ ["id"]) as Hid.
  { rewrite !not_elem_of_cons. repeat split; try done. apply not_elem_of_nil. }
  unfold converted. destruct node_df as [node_loc|].
  - destruct (decide (node_loc = l)) as [->|Hne].
    + rewrite fn_lookup_insert, lookup_set_astype_str, decide_False by done.
      destruct (decide (edge_df = l)) as [->|Hne'].
      * by rewrite fn_lookup_insert, lookup_set_astype_str, decide_False.
      * by rewrite fn_lookup_insert_ne.
    + rewrite fn_lookup_insert_ne by done.
      destruct (decide (edge_df = l)) as [->|Hne'].
      * by rewrite fn_lookup_insert, lookup_set_astype_str, decide_False.
      * by rewrite fn_lookup_insert_ne.
  - destruct (decide (edge_df = l)) as [->|Hne'].
    + by rewrite fn_lookup_insert, lookup_set_astype_str, decide_False.
    + by rewrite fn_lookup_insert_ne.
Qed.

(** A node of the payload: the record of the row under the entries of
    lines 108 to 112. *)
Lemma node_dict_inv (DEFAULT_NODE_SIZE : Q) (flag : bool)
    (row node : gmap string value) :
  node_dict DEFAULT_NODE_SIZE flag row = Ok node →
  node !! "id" = row !! "id" ∧
  node !! "label" = row !! "id" ∧
  node !! "shape" = Some (Str (if flag then "circularImage" else "dot")) ∧
  node !! "size" = Some (Num (if flag then 20 else DEFAULT_NODE_SIZE)) ∧
  (flag = true → node !! "image" = row !! "node_image_url") ∧
  ∀ k, k ∉ ["label"; "shape"; "size"; "image"] → node !! k = row !! k.
Proof.
  unfold node_dict, getitem.
  destruct (row !! "id") as [label|] eqn:Hid; [|by destruct flag].
  destruct flag; simpl.
  - destruct (row !! "node_image_url") as [image|]; simpl; [|done].
    intros [= <-]. repeat split.
    + by rewrite lookup_union_r.
    + by apply lookup_union_Some_l.
    + by apply lookup_union_Some_l.
    + by apply lookup_union_Some_l.
    + intros _. by apply lookup_union_Some_l.
    + intros k Hk. rewrite !not_elem_of_cons in Hk.
      destruct Hk as (? & ? & ? & ? & _).
      rewrite lookup_union_r; [done|].
      rewrite !lookup_insert_ne by done. by apply lookup_singleton_ne.
  - intros [= <-]. repeat split.
    + by rewrite lookup_union_r.
    + by apply lookup_union_Some_l.
    + by apply lookup_union_Some_l.
    + by apply lookup_union_Some_l.
    + done.
    + intros k Hk. rewrite !not_elem_of_cons in Hk.
      destruct Hk as (? & ? & ? & ? & _).
      rewrite lookup_union_r; [done|].
      rewrite !lookup_insert_ne by done. by apply lookup_singleton_ne.
Qed.

(** An edge of the payload: the record of the row under the entries of
    line 117. *)
Lemma edge_dict_inv (row edge : gmap string value) :
  edge_dict row = Ok edge →
  ∃ a b, row !! "from" = Some (Str a) ∧ row !! "to" = Some (Str b) ∧
         edge !! "id" = Some (Str ((a ++ "__") ++ b)) ∧
         edge !! "color" = Some (Color "#97C2FC") ∧
         ∀ k, k ∉ ["id"; "color"] → edge !! k = row !! k.
Proof.
  unfold edge_dict, getitem.
  destruct (row !! "from") as [[a| | | |]|]; simpl; try done.
  destruct (row !! "to") as [[b| | | |]|]; simpl; try done.
  intros [= <-]. exists a, b. repeat split.
  - by apply lookup_union_Some_l.
  - by apply lookup_union_Some_l.
  - intros k Hk. rewrite !not_elem_of_cons in Hk. destruct Hk as (? & ? & _).
    rewrite lookup_union_r; [done|].
    rewrite lookup_insert_ne by done. by apply lookup_singleton_ne.
Qed.

(** X22.  With a node table the payload has one node per row, in row order.
    The node of a row has the converted [id] cell as its [id] and as its
    [label]; its [shape] and [size] are fixed by whether the table has a
    [node_image_url] column ([circularImage] and 20 with it, [dot] and the
    default size without), whatever the table's own [label], [shape] or
    [size] columns hold; the image is the [node_image_url] cell; every other
    column is carried over unchanged. *)
Theorem node_payload_follows_node_table (set_iter : gset value → list value)
    (str_of_num : Q → string) (DEFAULT_NODE_SIZE : Q)
    (edge_df node_loc : loc) (h : store) (ids : Column) :
  frame_wf (h edge_df) → frame_wf (h node_loc) →
  columns_present edge_df (Some node_loc) h = true →
  node_loc ≠ edge_df →
  columns (h node_loc) !! "id" = Some ids →
  ∃ data scaling_vars h',
    parse_data set_iter str_of_num DEFAULT_NODE_SIZE edge_df (Some node_loc) h
      = (Ok (data, scaling_vars), h') ∧
    length (data_nodes data) = nrows (h node_loc) ∧
    ∀ i v, cells ids !! i = Some v →
      ∃ node,
        data_nodes data !! i = Some node ∧
        node !! "id" = Some (Str (str_of_value str_of_num v)) ∧
        node !! "label" = Some (Str (str_of_value str_of_num v)) ∧
        node !! "shape"
          = Some (Str (if has_column "node_image_url" (h node_loc)
                       then "circularImage" else "dot")) ∧
        node !! "size"
          = Some (Num (if has_column "node_image_url" (h node_loc)
                       then 20 else DEFAULT_NODE_SIZE)) ∧
        (∀ col, columns (h node_loc) !! "node_image_url" = Some col →
                node !! "image" = Some (default NaN (cells col !! i))) ∧
        ∀ k col, k ∉ ["id"; "label"; "shape"; "size"; "image"] →
                 columns (h node_loc) !! k = Some col →
                 node !! k = Some (default NaN (cells col !! i)).
Proof.
  intros Hwf Hwfn Hc Hne Hids.
  destruct (parse_data_returns set_iter str_of_num DEFAULT_NODE_SIZE
              edge_df (Some node_loc) h Hwf Hc) as (nodes & edges & Hnodes & _ & Hrun).
  rewrite (converted_node_table str_of_num edge_df node_loc h Hne) in Hnodes.
  rewrite has_column_set_astype_str in Hnodes.
  apply mapM_inv in Hnodes.
  eexists _, _, _. split; [exact Hrun|]. simpl. split.
  { rewrite <- (Forall2_length Hnodes). by rewrite length_to_dict_records. }
  intros i v Hv.
  assert (i < nrows (h node_loc)) as Hi.
  { rewrite <- (Hwfn "id" ids Hids). by eapply lookup_lt_Some. }
  destruct (Forall2_lookup_l _ _ _ i _ Hnodes
              (lookup_to_dict_records
                 (set_astype_str str_of_num ["id"] (h node_loc)) i Hi))
    as (node & Hnode & Hdict).
  apply node_dict_inv in Hdict
    as (Hid & Hlabel & Hshape & Hsize & Himage & Hother).
  assert (((λ c, default NaN (cells c !! i)) <$>
             columns (set_astype_str str_of_num ["id"] (h node_loc))) !! "id"
          = Some (Str (str_of_value str_of_num v))) as Hrow.
  { rewrite lookup_fmap, lookup_set_astype_str, decide_True
      by apply list_elem_of_here.
    rewrite Hids. cbn [fmap option_fmap option_map astype_str cells].
    by rewrite list_lookup_fmap, Hv. }
  assert (∀ k col, k ≠ "id" → columns (h node_loc) !! k = Some col →
            ((λ c, default NaN (cells c !! i)) <$>
               columns (set_astype_str str_of_num ["id"] (h node_loc))) !! k
            = Some (default NaN (cells col !! i))) as Hrows.
  { intros k col Hk Hcol.
    rewrite lookup_fmap, lookup_set_astype_str, decide_False, Hcol; [done|].
    by intros ->%list_elem_of_singleton. }
  exists node. split; [exact Hnode|].
  split; [by rewrite Hid|]. split; [by rewrite Hlabel|].
  split; [exact Hshape|]. split; [exact Hsize|]. split.
  - intros col Hcol. rewrite Himage.
    + by apply Hrows.
    + apply has_column_true. eauto.
  - intros k col Hk Hcol. rewrite !not_elem_of_cons in Hk.
    destruct Hk as (? & ? & ? & ? & ? & _).
    rewrite Hother.
    + by apply Hrows.
    + rewrite !not_elem_of_cons. repeat split; try done. apply not_elem_of_nil.
Qed.

Lemma num_store_nodes_wf : frame_wf (num_store 2%positive).
Proof.
  intros name c. unfold num_store.
  rewrite fn_lookup_insert_ne, fn_lookup_insert by done. simpl.
  destruct (decide (name = "id")) as [->|Hid].
  { rewrite lookup_insert_eq. by intros [= <-]. }
  rewrite lookup_insert_ne by done.
  destruct (decide (name = "size")) as [->|Hw].
  { rewrite lookup_singleton_eq. by intros [= <-]. }
  by rewrite lookup_singleton_ne.
Qed.

(** In [num_store] the node table has a [size] column of its own, with 8 for
    the node 2: the node of the payload has the default size. *)
Lemma node_payload_follows_node_table_witness :
  ∃ data scaling_vars h' node,
    parse_data elements str_of_int64 15 1%positive (Some 2%positive) num_store
      = (Ok (data, scaling_vars), h') ∧
    length (data_nodes data) = 3 ∧
    data_nodes data !! 1 = Some node ∧
    node !! "id" = Some (Str "2") ∧ node !! "label" = Some (Str "2") ∧
    node !! "size" = Some (Num 15).
Proof.
  destruct (node_payload_follows_node_table elements str_of_int64 15
              1%positive 2%positive num_store
              {| col_dtype := numeric; cells := [Num 1; Num 2; Num 3] |})
    as (data & scaling_vars & h' & Hrun & Hlen & Hrows).
  - apply num_store_wf.
  - apply num_store_nodes_wf.
  - vm_compute; reflexivity.
  - discriminate.
  - vm_compute; reflexivity.
  - destruct (Hrows 1 (Num 2) eq_refl)
      as (node & Hnode & Hid & Hlabel & _ & Hsize & _).
    exists data, scaling_vars, h', node. by repeat split.
Defined.

(** X23.  The payload has one edge per row of the edge table, in row order.
    The edge of a row has the converted [from] and [to] cells, the [id]
    made of the two joined by two underscores, and the fixed colour; every
    other column is carried over unchanged. *)
Theorem edge_payload_follows_edge_table (set_iter : gset value → list value)
    (str_of_num : Q → string) (DEFAULT_NODE_SIZE : Q)
    (edge_df : loc) (node_df : option loc) (h : store) (froms tos : Column) :
  frame_wf (h edge_df) →
  columns_present edge_df node_df h = true →
  columns (h edge_df) !! "from" = Some froms →
  columns (h edge_df) !! "to" = Some tos →
  ∃ data scaling_vars h',
    parse_data set_iter str_of_num DEFAULT_NODE_SIZE edge_df node_df h
      = (Ok (data, scaling_vars), h') ∧
    length (data_edges data) = nrows (h edge_df) ∧
    ∀ i a b, cells froms !! i = Some a → cells tos !! i = Some b →
      ∃ edge,
        data_edges data !! i = Some edge ∧
        edge !! "from" = Some (Str (str_of_value str_of_num a)) ∧
        edge !! "to" = Some (Str (str_of_value str_of_num b)) ∧
        edge !! "id" = Some (Str ((str_of_value str_of_num a ++ "__")
                                    ++ str_of_value str_of_num b)) ∧
        edge !! "color" = Some (Color "#97C2FC") ∧
        ∀ k col, k ∉ ["from"; "to"; "id"; "color"] →
                 columns (h edge_df) !! k = Some col →
                 edge !! k = Some (default NaN (cells col !! i)).
Proof.
  intros Hwf Hc Hfrom Hto.
  destruct (parse_data_returns set_iter str_of_num DEFAULT_NODE_SIZE
              edge_df node_df h Hwf Hc) as (nodes & edges & _ & Hedges & Hrun).
  apply mapM_inv in Hedges.
  eexists _, _, _. split; [exact Hrun|]. simpl. split.
  { rewrite <- (Forall2_length Hedges), length_to_dict_records.
    apply converted_nrows. }
  intros i a b Ha Hb.
  assert (i < nrows (converted str_of_num edge_df node_df h edge_df)) as Hi.
  { rewrite converted_nrows, <- (Hwf "from" froms Hfrom). by eapply lookup_lt_Some. }
  destruct (Forall2_lookup_l _ _ _ i _ Hedges
              (lookup_to_dict_records _ i Hi)) as (edge & Hedge & Hdict).
  apply edge_dict_inv in Hdict as (a' & b' & Ha' & Hb' & Hid & Hcolor & Hother).
  rewrite lookup_fmap, converted_edge_column, Hfrom in Ha'
    by apply list_elem_of_here.
  rewrite lookup_fmap, converted_edge_column, Hto in Hb'
    by apply list_elem_of_further, list_elem_of_here.
  cbn [fmap option_fmap option_map astype_str cells] in Ha', Hb'.
  rewrite list_lookup_fmap, Ha in Ha'. rewrite list_lookup_fmap, Hb in Hb'.
  simpl in Ha', Hb'. injection Ha' as <-. injection Hb' as <-.
  exists edge. split; [exact Hedge|].
  assert (∀ k, k ∈ ["from"; "to"] →
            ∀ col, columns (h edge_df) !! k = Some col →
            edge !! k = Some (default NaN (cells (astype_str str_of_num col) !! i)))
    as Hends.
  { intros k Hk col Hcol.
    rewrite Hother, lookup_fmap, converted_edge_column, Hcol; [done|done|].
    rewrite !not_elem_of_cons. repeat split; [| |apply not_elem_of_nil];
      intros ->; rewrite !elem_of_cons in Hk;
      destruct Hk as [?|[?|[]%elem_of_nil]]; done. }
  split.
  { rewrite (Hends "from" (list_elem_of_here _ _) froms Hfrom).
    cbn [astype_str cells]. by rewrite list_lookup_fmap, Ha. }
  split.
  { rewrite (Hends "to" (list_elem_of_further _ _ _ (list_elem_of_here _ _))
               tos Hto).
    cbn [astype_str cells]. by rewrite list_lookup_fmap, Hb. }
  split; [exact Hid|]. split; [exact Hcolor|].
  intros k col Hk Hcol. rewrite !not_elem_of_cons in Hk.
  destruct Hk as (? & ? & ? & ? & _).
  rewrite Hother, lookup_fmap, converted_other_column, Hcol; [done| |].
  - rewrite !not_elem_of_cons. repeat split; try done. apply not_elem_of_nil.
  - rewrite !not_elem_of_cons. repeat split; try done. apply not_elem_of_nil.
Qed.

(** The first row of the edge table of [num_store] joins 1 and 2 with the
    weight 4. *)
Lemma edge_payload_follows_edge_table_witness :
  ∃ data scaling_vars h' edge,
    parse_data elements str_of_int64 15 1%positive (Some 2%positive) num_store
      = (Ok (data, scaling_vars), h') ∧
    length (data_edges data) = 2 ∧
    data_edges data !! 0 = Some edge ∧
    edge !! "id" = Some (Str "1__2") ∧ edge !! "weight" = Some (Num 4).
Proof.
  destruct (edge_payload_follows_edge_table elements str_of_int64 15
              1%positive (Some 2%positive) num_store
              {| col_dtype := numeric; cells := [Num 1; Num 1] |}
              {| col_dtype := numeric; cells := [Num 2; Num 3] |})
    as (data & scaling_vars & h' & Hrun & Hlen & Hrows).
  - apply num_store_wf.
  - vm_compute; reflexivity.
  - vm_compute; reflexivity.
  - vm_compute; reflexivity.
  - destruct (Hrows 0 (Num 1) (Num 2) eq_refl eq_refl)
      as (edge & Hedge & _ & _ & Hid & _ & Hother).
    exists data, scaling_vars, h', edge.
    split; [exact Hrun|]. split; [exact Hlen|]. split; [exact Hedge|].
    split; [exact Hid|].
    apply (Hother "weight" {| col_dtype := numeric; cells := [Num 4; Num 6] |}).
    + rewrite !not_elem_of_cons. repeat split; try done. apply not_elem_of_nil.
    + vm_compute; reflexivity.
Defined.

Lemma set_astype_str_idemp (str_of_num : Q → string) (names : list string)
    (df : DataFrame) :
  set_astype_str str_of_num names (set_astype_str str_of_num names df)
    = set_astype_str str_of_num names df.
Proof.
  assert (∀ a b : DataFrame, nrows a = nrows b → columns a = columns b → a = b)
    as Heq by (intros [] [] ; simpl; congruence).
  apply Heq; [done|]. apply map_eq. intros c.
  rewrite !lookup_set_astype_str. case_decide; [|done].
  destruct (columns df !! c) as [col|]; [|done]. simpl.
  by rewrite astype_str_idemp.
Qed.

Lemma converted_idemp (str_of_num : Q → string) (edge_df : loc)
    (node_df : option loc) (h : store) (l : loc) :
  node_df ≠ Some edge_df →
  converted str_of_num edge_df node_df (converted str_of_num edge_df node_df h) l
    = converted str_of_num edge_df node_df h l.
Proof.
  intros Hne. unfold converted. destruct node_df as [node_loc|].
  - assert (node_loc ≠ edge_df) as Hne' by congruence.
    destruct (decide (l = node_loc)) as [->|Hl].
    + rewrite !fn_lookup_insert, !fn_lookup_insert_ne, !fn_lookup_insert by done.
      apply set_astype_str_idemp.
    + rewrite !(fn_lookup_insert_ne _ node_loc l) by done.
      destruct (decide (l = edge_df)) as [->|Hl'].
      * rewrite !fn_lookup_insert, fn_lookup_insert_ne, fn_lookup_insert by done.
        apply set_astype_str_idemp.
      * by rewrite !fn_lookup_insert_ne.
  - destruct (decide (l = edge_df)) as [->|Hl'].
    + rewrite !fn_lookup_insert. apply set_astype_str_idemp.
    + by rewrite !(fn_lookup_insert_ne _ edge_df l).
Qed.

Lemma converted_wf (str_of_num : Q → string) (edge_df : loc)
    (node_df : option loc) (h : store) :
  frame_wf (h edge_df) →
  frame_wf (converted str_of_num edge_df node_df h edge_df).
Proof.
  intros Hwf name c Hc. rewrite converted_nrows.
  destruct (decide (name ∈ ["from"; "to"])) as [Hin|Hin].
  - rewrite converted_edge_column in Hc by done.
    destruct (columns (h edge_df) !! name) as [c0|] eqn:Hc0; [|done].
    injection Hc as <-. simpl. rewrite length_fmap. by eapply Hwf.
  - destruct (decide (name = "id")) as [->|Hid].
    + assert (is_Some (columns (h edge_df) !! "id")) as [c0 Hc0].
      { eapply converted_is_Some. eauto. }
      unfold converted in Hc. destruct node_df as [node_loc|].
      * destruct (decide (node_loc = edge_df)) as [->|Hne].
        -- rewrite !fn_lookup_insert, lookup_set_astype_str, decide_True in Hc
             by apply list_elem_of_here.
           rewrite lookup_set_astype_str, decide_False, Hc0 in Hc by done.
           injection Hc as <-. simpl. rewrite length_fmap. by eapply Hwf.
        -- rewrite fn_lookup_insert_ne, fn_lookup_insert in Hc by done.
           rewrite lookup_set_astype_str, decide_False in Hc by done.
           by eapply Hwf.
      * rewrite fn_lookup_insert, lookup_set_astype_str, decide_False in Hc by done.
        by eapply Hwf.
    + rewrite converted_other_column in Hc; [by eapply Hwf|].
      rewrite !not_elem_of_cons in Hin. destruct Hin as (? & ? & _).
      rewrite !not_elem_of_cons. repeat split; try done. apply not_elem_of_nil.
Qed.

Lemma converted_columns_present (str_of_num : Q → string) (edge_df : loc)
    (node_df : option loc) (h : store) :
  columns_present edge_df node_df (converted str_of_num edge_df node_df h)
    = columns_present edge_df node_df h.
Proof.
  assert (∀ l c, has_column c (converted str_of_num edge_df node_df h l)
                 = has_column c (h l)) as Hhas.
  { intros l c. unfold has_column. apply bool_decide_ext, converted_is_Some. }
  unfold columns_present. rewrite !Hhas.
  destruct node_df as [node_loc|]; [|done]. by rewrite Hhas.
Qed.

(** X24.  A second call on the same objects returns the same payload and
    the same edge bounds, and leaves the objects as the first call left
    them: the conversions have nothing left to do.  The node bounds are the
    same except that an entry for [id] is gone, the column being strings
    by then. *)
Theorem second_call_repeats_the_first (set_iter : gset value → list value)
    (str_of_num : Q → string) (DEFAULT_NODE_SIZE : Q)
    (edge_df : loc) (node_df : option loc) (h : store) :
  frame_wf (h edge_df) →
  columns_present edge_df node_df h = true →
  node_df ≠ Some edge_df →
  ∃ data scaling_vars scaling_vars' h' h'',
    parse_data set_iter str_of_num DEFAULT_NODE_SIZE edge_df node_df h
      = (Ok (data, scaling_vars), h') ∧
    parse_data set_iter str_of_num DEFAULT_NODE_SIZE edge_df node_df h'
      = (Ok (data, scaling_vars'), h'') ∧
    (∀ l, h'' l = h' l) ∧
    sv_edge scaling_vars' = sv_edge scaling_vars ∧
    sv_node scaling_vars' = delete "id" <$> sv_node scaling_vars.
Proof.
  intros Hwf Hc Hne.
  destruct (parse_data_returns set_iter str_of_num DEFAULT_NODE_SIZE
              edge_df node_df h Hwf Hc) as (nodes & edges & Hnodes & Hedges & Hrun).
  destruct (parse_data_returns set_iter str_of_num DEFAULT_NODE_SIZE
              edge_df node_df (converted str_of_num edge_df node_df h))
    as (nodes' & edges' & Hnodes' & Hedges' & Hrun').
  { by apply converted_wf. }
  { by rewrite converted_columns_present. }
  rewrite converted_idemp in Hedges' by done.
  assert (edges' = edges) as -> by congruence.
  assert (nodes' = nodes) as ->.
  { destruct node_df as [node_loc|].
    - rewrite converted_idemp in Hnodes' by done. congruence.
    - rewrite converted_idemp in Hnodes' by done. congruence. }
  assert (converted str_of_num edge_df node_df h edge_df
          = set_astype_str str_of_num ["from"; "to"] (h edge_df)) as He.
  { unfold converted. destruct node_df as [node_loc|].
    - rewrite fn_lookup_insert_ne, fn_lookup_insert; [done|congruence].
    - by rewrite fn_lookup_insert. }
  eexists _, _, _, _, _. split; [exact Hrun|]. split; [exact Hrun'|].
  split; [|split].
  - intros l. by apply converted_idemp.
  - simpl. by rewrite He, set_astype_str_idemp.
  - simpl. destruct node_df as [node_loc|]; [|done]. simpl. f_equal.
    assert (node_loc ≠ edge_df) as Hne' by congruence.
    assert (edge_df ≠ node_loc) as Hne'' by congruence.
    rewrite ?fn_lookup_insert_ne by done.
    rewrite fn_lookup_insert, ?fn_lookup_insert_ne by done.
    apply map_eq. intros c. destruct (decide (c = "id")) as [->|Hid].
    + rewrite lookup_delete_eq, lookup_scaling_vars, lookup_set_astype_str,
        decide_True by apply list_elem_of_here.
      by destruct (columns (h node_loc) !! "id").
    + rewrite lookup_delete_ne by done.
      rewrite !lookup_scaling_vars, lookup_set_astype_str, decide_False; [done|].
      by intros ->%list_elem_of_singleton.
Qed.

Lemma second_call_repeats_the_first_witness :
  ∃ data scaling_vars scaling_vars' h' h'',
    parse_data elements str_of_int64 15 1%positive (Some 2%positive) num_store
      = (Ok (data, scaling_vars), h') ∧
    parse_data elements str_of_int64 15 1%positive (Some 2%positive) h'
      = (Ok (data, scaling_vars'), h'') ∧
    h'' 1%positive = h' 1%positive ∧ h'' 2%positive = h' 2%positive.
Proof.
  destruct (second_call_repeats_the_first elements str_of_int64 15 1%positive
              (Some 2%positive) num_store)
    as (data & sv & sv' & h' & h'' & Hrun & Hrun' & Hsame & _).
  - apply num_store_wf.
  - vm_compute; reflexivity.
  - discriminate.
  - exists data, sv, sv', h', h''. by repeat split.
Defined.

(** ** The application: search, sizing and the state of [Medial] *)

Ltac lookup_tac :=
  repeat first
    [ rewrite lookup_insert_eq
    | rewrite lookup_singleton_eq
    | rewrite lookup_insert_ne by done
    | rewrite lookup_singleton_ne by done
    | rewrite lookup_empty ].

Lemma nodes_frame_records (str_of_num : Q → string) (nodes : list NodeRow) :
  to_dict_records (set_astype_str str_of_num ["id"] (nodes_frame nodes))
  = (λ r, {[ "id" := Str (id r); "stories" := Num (node_stories r);
             "writers" := Num (node_writers r) ]}) <$> nodes.
Proof.
  apply list_eq. intros i. unfold to_dict_records.
  rewrite !list_lookup_fmap. cbn [nrows set_astype_str nodes_frame].
  destruct (nodes !! i) as [r|] eqn:Hr.
  - rewrite lookup_seq_lt by (by eapply lookup_lt_Some). simpl. f_equal.
    apply map_eq. intros k. rewrite lookup_fmap.
    destruct (decide (k = "id")) as [->|Hid].
    { rewrite lookup_alter_eq. lookup_tac.
      cbn [fmap option_fmap option_map astype_str cells].
      by rewrite !list_lookup_fmap, Hr. }
    rewrite lookup_alter_ne by done.
    destruct (decide (k = "stories")) as [->|Hstories].
    { lookup_tac. cbn [fmap option_fmap option_map cells].
      by rewrite !list_lookup_fmap, Hr. }
    destruct (decide (k = "writers")) as [->|Hwriters].
    { lookup_tac. cbn [fmap option_fmap option_map cells].
      by rewrite !list_lookup_fmap, Hr. }
    by lookup_tac.
  - rewrite lookup_ge_None_2; [done|].
    rewrite length_seq. by apply lookup_ge_None_1.
Qed.

Lemma edges_frame_records (str_of_num : Q → string) (edges : list EdgeRow) :
  to_dict_records (set_astype_str str_of_num ["from"; "to"] (edges_frame edges))
  = (λ e, {[ "from" := Str (str_of_value str_of_num (from e));
             "to" := Str (str_of_value str_of_num (to e)) ]}) <$> edges.
Proof.
  apply list_eq. intros i. unfold to_dict_records.
  rewrite !list_lookup_fmap.
  change (nrows (set_astype_str str_of_num ["from"; "to"] (edges_frame edges)))
    with (length edges).
  destruct (edges !! i) as [e|] eqn:He.
  - rewrite lookup_seq_lt by (by eapply lookup_lt_Some).
    cbn [fmap option_fmap option_map Nat.add]. f_equal.
    apply map_eq. intros k. rewrite lookup_fmap, lookup_set_astype_str.
    unfold edges_frame. cbn [columns].
    destruct (decide (k = "from")) as [->|Hfrom].
    { rewrite decide_True by apply list_elem_of_here. lookup_tac.
      cbn [fmap option_fmap option_map astype_str cells].
      by rewrite !list_lookup_fmap, He. }
    destruct (decide (k = "to")) as [->|Hto].
    { rewrite decide_True by apply list_elem_of_further, list_elem_of_here.
      lookup_tac. cbn [fmap option_fmap option_map astype_str cells].
      by rewrite !list_lookup_fmap, He. }
    rewrite decide_False.
    + by lookup_tac.
    + rewrite !not_elem_of_cons. repeat split; try done. apply not_elem_of_nil.
  - rewrite lookup_ge_None_2; [done|].
    rewrite length_seq. by apply lookup_ge_None_1.
Qed.

Lemma mapM_fmap {A B C} (f : B → result C) (g : A → B) (k : A → C) (l : list A) :
  (∀ x, f (g x) = Ok (k x)) → mapM f (g <$> l) = Ok (k <$> l).
Proof.
  intros H. induction l as [|x l IH]; [done|].
  rewrite !fmap_cons. simpl. by rewrite H, IH.
Qed.

Lemma node_dict_node_of_row (DEFAULT_NODE_SIZE : Q) (r : NodeRow) :
  node_dict DEFAULT_NODE_SIZE false
    {[ "id" := Str (id r); "stories" := Num (node_stories r);
       "writers" := Num (node_writers r) ]}
  = Ok (node_of_row DEFAULT_NODE_SIZE r).
Proof. unfold node_dict, getitem. lookup_tac. reflexivity. Qed.

Lemma edge_dict_edge_of_row (str_of_num : Q → string) (e : EdgeRow) :
  edge_dict {[ "from" := Str (str_of_value str_of_num (from e));
               "to" := Str (str_of_value str_of_num (to e)) ]}
  = Ok (edge_of_row str_of_num e).
Proof. unfold edge_dict, getitem. lookup_tac. reflexivity. Qed.

Lemma edges_frame_no_bounds (str_of_num : Q → string) (edges : list EdgeRow) :
  compute_scaling_vars_for_numerical_cols
    (set_astype_str str_of_num ["from"; "to"] (edges_frame edges)) = ∅.
Proof.
  apply map_eq. intros k.
  rewrite lookup_scaling_vars, lookup_set_astype_str, lookup_empty.
  unfold edges_frame. cbn [columns].
  destruct (decide (k = "from")) as [->|Hfrom].
  { rewrite decide_True by apply list_elem_of_here. by lookup_tac. }
  destruct (decide (k = "to")) as [->|Hto].
  { rewrite decide_True by apply list_elem_of_further, list_elem_of_here.
    by lookup_tac. }
  case_decide; by lookup_tac.
Qed.

(** [parse_data] on the two tables of [generate_data]: nothing is raised,
    and the payload and the bounds are these. *)
Lemma parse_data_fresh_tables (set_iter : gset value → list value)
    (str_of_num : Q → string) (DEFAULT_NODE_SIZE : Q)
    (edges : list EdgeRow) (nodes : list NodeRow) :
  (parse_data set_iter str_of_num DEFAULT_NODE_SIZE 1%positive (Some 2%positive)
     (fresh_tables edges nodes)).1
  = Ok ({| data_nodes := node_of_row DEFAULT_NODE_SIZE <$> nodes;
           data_edges := edge_of_row str_of_num <$> edges |},
        {| sv_node := Some (compute_scaling_vars_for_numerical_cols
                              (nodes_frame nodes));
           sv_edge := Some ∅ |}).
Proof.
  rewrite parse_data_checked by (vm_compute; reflexivity). cbv zeta.
  rewrite (converted_node_table str_of_num 1%positive 2%positive) by done.
  assert (converted str_of_num 1%positive (Some 2%positive)
            (fresh_tables edges nodes) 1%positive
          = set_astype_str str_of_num ["from"; "to"] (edges_frame edges)) as ->.
  { unfold converted. by rewrite fn_lookup_insert_ne, fn_lookup_insert. }
  rewrite has_column_set_astype_str.
  assert (has_column "node_image_url" (fresh_tables edges nodes 2%positive) = false)
    as -> by (vm_compute; reflexivity).
  assert (fresh_tables edges nodes 2%positive = nodes_frame nodes) as -> by done.
  assert (fresh_tables edges nodes 1%positive = edges_frame edges) as -> by done.
  rewrite nodes_frame_records, edges_frame_records.
  rewrite (mapM_fmap _ _ _ _ (node_dict_node_of_row DEFAULT_NODE_SIZE)).
  rewrite (mapM_fmap _ _ _ _ (edge_dict_edge_of_row str_of_num)).
  cbn [mbind fst]. simpl. rewrite edges_frame_no_bounds. do 3 f_equal.
Qed.

(** What [callback_search_graph] returns, by the outcome of
    [generate_data]. *)
Lemma callback_search_graph_cases (set_iter : gset value → list value)
    (str_of_num : Q → string) (DEFAULT_NODE_SIZE : Q)
    (self : Medial) (df : list TopicRecord) (search_text : option string) :
  callback_search_graph set_iter str_of_num DEFAULT_NODE_SIZE self df search_text
  = match generate_data set_iter df search_text with
    | Raise e => Raise e
    | Ok None => Ok (self_data_object, self_scaling_vars self)
    | Ok (Some (edges, nodes)) =>
        Ok (new_object
              {| data_nodes := node_of_row DEFAULT_NODE_SIZE <$> nodes;
                 data_edges := edge_of_row str_of_num <$> edges |},
            {| sv_node := Some (compute_scaling_vars_for_numerical_cols
                                  (nodes_frame nodes));
               sv_edge := Some ∅ |})
    end.
Proof.
  unfold callback_search_graph.
  destruct (generate_data set_iter df search_text) as [[[edges nodes]|]|e];
    simpl; [|done..].
  by rewrite parse_data_fresh_tables.
Qed.

(** X25.  A search never fails in [parse_data]: the callback raises only
    what [generate_data] raises.  When [generate_data] has no tables the
    payload is the object [self.data] itself with [self.scaling_vars];
    otherwise it is a new payload with one node per node row (id and label
    the topic, shape [dot], the default size, the row's stories and
    writers) and one edge per edge row, with node bounds for the numeric
    columns of the node table and no edge bounds. *)
Theorem search_payload (set_iter : gset value → list value)
    (str_of_num : Q → string) (DEFAULT_NODE_SIZE : Q)
    (self : Medial) (df : list TopicRecord) (search_text : option string) :
  callback_search_graph set_iter str_of_num DEFAULT_NODE_SIZE self df search_text
  = match generate_data set_iter df search_text with
    | Raise e => Raise e
    | Ok None => Ok (self_data_object, self_scaling_vars self)
    | Ok (Some (edges, nodes)) =>
        Ok (new_object
              {| data_nodes := node_of_row DEFAULT_NODE_SIZE <$> nodes;
                 data_edges := edge_of_row str_of_num <$> edges |},
            {| sv_node := Some (compute_scaling_vars_for_numerical_cols
                                  (nodes_frame nodes));
               sv_edge := Some ∅ |})
    end.
Proof. apply callback_search_graph_cases. Qed.

Lemma numbers_of_Num {A} (f : A → Q) (l : list A) :
  numbers_of ((λ r, Num (f r)) <$> l) = f <$> l.
Proof.
  unfold numbers_of. induction l as [|x l IH]; [done|].
  rewrite !fmap_cons. cbn [omap list_omap]. by rewrite IH.
Qed.

(** The bounds of a column of numbers in which two numbers differ. *)
Lemma column_bounds {A} (f : A → Q) (l : list A) (col : Column) (r1 r2 : A) :
  cells col = (λ r, Num (f r)) <$> l →
  r1 ∈ l → r2 ∈ l → ¬ (f r1 == f r2)%Q →
  ∃ lo hi,
    series_min col = Num lo ∧ series_max col = Num hi ∧ (lo < hi)%Q ∧
    lo ∈ f <$> l ∧ hi ∈ f <$> l ∧
    ∀ r, r ∈ l → (lo <= f r <= hi)%Q.
Proof.
  intros Hcells H1 H2 Hne. unfold series_min, series_max.
  rewrite Hcells, numbers_of_Num.
  assert (∀ r, r ∈ l → f r ∈ f <$> l) as Hin
    by (intros r Hr; by apply list_elem_of_fmap_2).
  destruct (f <$> l) as [|q0 qs] eqn:E.
  { apply Hin in H1. by apply elem_of_nil in H1. }
  destruct (foldl_Qmin_spec qs q0) as [Hmin_in Hmin].
  destruct (foldl_Qmax_spec qs q0) as [Hmax_in Hmax].
  exists (foldl Qmin q0 qs), (foldl Qmax q0 qs). simpl.
  split; [done|]. split; [done|].
  assert (∀ r, r ∈ l →
            (foldl Qmin q0 qs <= f r <= foldl Qmax q0 qs)%Q) as Hall.
  { intros r Hr%Hin. split; [by apply Hmin|by apply Hmax]. }
  split; [|exact (conj Hmin_in (conj Hmax_in Hall))].
  pose proof (Hall r1 H1). pose proof (Hall r2 H2).
  destruct (Qlt_le_dec (foldl Qmin q0 qs) (foldl Qmax q0 qs)) as [Hlt|Hle];
    [done|].
  exfalso. apply Hne. lra.
Qed.

Lemma resize_nodes_Ok (MIN_NODE_SIZE MAX_NODE_SIZE : Q)
    (scaling_vars : ScalingVars) (method : string)
    (nodes nodes' : list (gmap string value)) :
  mapM (resize_node MIN_NODE_SIZE MAX_NODE_SIZE scaling_vars method) nodes
    = Ok nodes' →
  resize_nodes MIN_NODE_SIZE MAX_NODE_SIZE scaling_vars method nodes
    = (Ok (), nodes').
Proof.
  revert nodes'. induction nodes as [|node nodes IH]; intros nodes'; simpl.
  - by intros [= <-].
  - destruct (resize_node _ _ _ _ node) as [node'|]; simpl; [|done].
    destruct (mapM _ nodes) as [rest|]; simpl; [|done].
    intros [= <-]. by rewrite (IH rest).
Qed.

(** When nothing is raised, the object after the loop is what
    [callback_size_nodes] returns. *)
Lemma size_nodes_in_place_Ok (MIN_NODE_SIZE MAX_NODE_SIZE DEFAULT_NODE_SIZE : Q)
    (data data' : GraphData) (scaling_vars : ScalingVars)
    (size_topics_by : option string) :
  callback_size_nodes MIN_NODE_SIZE MAX_NODE_SIZE DEFAULT_NODE_SIZE
    data scaling_vars size_topics_by = Ok data' →
  size_nodes_in_place MIN_NODE_SIZE MAX_NODE_SIZE DEFAULT_NODE_SIZE
    data scaling_vars size_topics_by = (Ok (), data').
Proof.
  unfold callback_size_nodes, size_nodes_in_place.
  destruct size_topics_by as [label|]; [|by intros [= <-]].
  destruct (last_item _) as [method|]; simpl; [|done].
  destruct (mapM _ _) as [nodes|] eqn:Hm; simpl; [|done].
  intros [= <-]. by rewrite (resize_nodes_Ok _ _ _ _ _ _ Hm).
Qed.

(** X26.  Search and sizing together.  When the search finds tables whose
    values of the attribute of the sizing label (stories or writers) are
    binary64 numbers, two of them different, and the two size constants are
    binary64 numbers, the callback returns: the graph
    has the edges of the search and, per node row, the node of the search
    with its size replaced by the value rescaled between the least and the
    greatest value of the attribute among the nodes; the graph and the
    bounds of this search become [self.data] and [self.scaling_vars]. *)
Theorem found_search_is_sized (set_iter : gset value → list value)
    (str_of_num : Q → string) (MIN_NODE_SIZE MAX_NODE_SIZE DEFAULT_NODE_SIZE : Q)
    (self : Medial) (search_text : option string) (label : string)
    (attr : NodeRow → Q) (edges : list EdgeRow) (nodes : list NodeRow)
    (r1 r2 : NodeRow) :
  generate_data set_iter (self_df self) search_text = Ok (Some (edges, nodes)) →
  (label = "Number of stories" ∧ attr = node_stories) ∨
  (label = "Number of writers" ∧ attr = node_writers) →
  is_b64 MIN_NODE_SIZE → is_b64 MAX_NODE_SIZE →
  Forall (λ r, is_b64 (attr r)) nodes →
  r1 ∈ nodes → r2 ∈ nodes → ¬ (attr r1 == attr r2)%Q →
  ∃ lo hi sized,
    setting_pane_callback set_iter str_of_num
      MIN_NODE_SIZE MAX_NODE_SIZE DEFAULT_NODE_SIZE self search_text (Some label)
    = (Ok {| data_nodes := sized;
             data_edges := edge_of_row str_of_num <$> edges |},
       {| self_df := self_df self; self_table := self_table self;
          self_data := {| data_nodes := sized;
                          data_edges := edge_of_row str_of_num <$> edges |};
          self_scaling_vars :=
            {| sv_node := Some (compute_scaling_vars_for_numerical_cols
                                  (nodes_frame nodes));
               sv_edge := Some ∅ |} |}) ∧
    (lo < hi)%Q ∧ (∀ r, r ∈ nodes → (lo <= attr r <= hi)%Q) ∧
    lo ∈ attr <$> nodes ∧ hi ∈ attr <$> nodes ∧
    sized = (λ r, <["size" := rescaled MIN_NODE_SIZE MAX_NODE_SIZE
                                (Num lo) (Num hi) (Num (attr r))]>
                    (node_of_row DEFAULT_NODE_SIZE r)) <$> nodes.
Proof.
  intros Hgen Hlabel _ _ Hb64 H1 H2 Hne.
  set (sv := {| sv_node := Some (compute_scaling_vars_for_numerical_cols
                                   (nodes_frame nodes));
                sv_edge := Some ∅ |}).
  set (data := {| data_nodes := node_of_row DEFAULT_NODE_SIZE <$> nodes;
                  data_edges := edge_of_row str_of_num <$> edges |}).
  assert (∃ method col,
            list.last (Py.split label) = Some method ∧
            columns (nodes_frame nodes) !! method = Some col ∧
            col_dtype col = numeric ∧
            cells col = (λ r, Num (attr r)) <$> nodes ∧
            ∀ r, node_of_row DEFAULT_NODE_SIZE r !! method = Some (Num (attr r)))
    as (method & col & Hlast & Hcol & Hnum & Hcells & Hattr).
  { destruct Hlabel as [[-> ->]|[-> ->]].
    - exists "stories". eexists. split; [vm_compute; reflexivity|].
      split; [unfold nodes_frame; cbn [columns]; by lookup_tac|].
      split; [done|]. split; [done|]. intros r. unfold node_of_row. by lookup_tac.
    - exists "writers". eexists. split; [vm_compute; reflexivity|].
      split; [unfold nodes_frame; cbn [columns]; by lookup_tac|].
      split; [done|]. split; [done|]. intros r. unfold node_of_row. by lookup_tac. }
  destruct (column_bounds attr nodes col r1 r2 Hcells H1 H2 Hne)
    as (lo & hi & Hlo & Hhi & Hlt & Hlo_in & Hhi_in & Hall).
  assert (∀ q, q ∈ attr <$> nodes → is_b64 q) as Hmem.
  { intros q (r & -> & Hr)%list_elem_of_fmap.
    by apply (proj1 (list.Forall_forall _ _) Hb64). }
  assert (compute_scaling_vars_for_numerical_cols (nodes_frame nodes) !! method
          = Some {| bmin := Num lo; bmax := Num hi |}) as Hb.
  { rewrite (lookup_compute_scaling_vars _ _ col Hcol Hnum). by rewrite Hlo, Hhi. }
  assert (mapM (resize_node MIN_NODE_SIZE MAX_NODE_SIZE sv method) (data_nodes data)
          = Ok ((λ r, <["size" := rescaled MIN_NODE_SIZE MAX_NODE_SIZE
                                    (Num lo) (Num hi) (Num (attr r))]>
                        (node_of_row DEFAULT_NODE_SIZE r)) <$> nodes)) as Hsized.
  { unfold data. cbn [data_nodes]. apply mapM_fmap. intros r.
    exact (resize_node_Ok _ _ sv method _ lo hi (attr r) _ eq_refl Hb
             (Hmem _ Hlo_in) (Hmem _ Hhi_in) Hlt (Hattr r)). }
  set (sized := (λ r, <["size" := rescaled MIN_NODE_SIZE MAX_NODE_SIZE
                                    (Num lo) (Num hi) (Num (attr r))]>
                        (node_of_row DEFAULT_NODE_SIZE r)) <$> nodes) in *.
  exists lo, hi, sized.
  split; [|exact (conj Hlt (conj Hall (conj Hlo_in (conj Hhi_in eq_refl))))].
  unfold setting_pane_callback.
  rewrite callback_search_graph_cases, Hgen. cbn [deref].
  rewrite (size_nodes_in_place_Ok _ _ _ data
             {| data_nodes := sized; data_edges := data_edges data |} sv).
  - done.
  - unfold callback_size_nodes, last_item. rewrite Hlast.
    cbn [mbind]. unfold result_bind. by rewrite Hsized.
Qed.

(** On [df_two] the search for Life finds Life (7 stories) and Writing
    (5 stories); sized by stories, Writing is at the lower bound and gets
    10, Life at the upper bound and gets 50. *)
Lemma found_search_is_sized_witness :
  ∃ edges self',
    setting_pane_callback elements str_of_int64 10 50 15 (ex_medial df_two)
      (Some "Life") (Some "Number of stories")
    = (Ok {| data_nodes :=
               [ <["size" := Num 50]>
                   (node_of_row 15 {| id := "Life"; node_stories := 7;
                                      node_writers := 3 |});
                 <["size" := Num 10]>
                   (node_of_row 15 {| id := "Writing"; node_stories := 5;
                                      node_writers := 4 |}) ];
             data_edges := edges |}, self').
Proof.
  destruct (found_search_is_sized elements str_of_int64 10 50 15
              (ex_medial df_two) (Some "Life") "Number of stories" node_stories
              [{| from := Str "Writing"; to := Str "Life" |}]
              [{| id := "Life"; node_stories := 7; node_writers := 3 |};
               {| id := "Writing"; node_stories := 5; node_writers := 4 |}]
              {| id := "Life"; node_stories := 7; node_writers := 3 |}
              {| id := "Writing"; node_stories := 5; node_writers := 4 |})
    as (lo & hi & sized & Hrun & Hlt & _ & Hlo & Hhi & ->).
  - vm_compute; reflexivity.
  - left. split; reflexivity.
  - vm_compute; reflexivity.
  - vm_compute; reflexivity.
  - repeat constructor; vm_compute; reflexivity.
  - apply list_elem_of_here.
  - apply list_elem_of_further, list_elem_of_here.
  - intros H. discriminate H.
  - eexists _, _. etransitivity; [exact Hrun|]. clear Hrun.
    cbn [fmap list_fmap node_stories] in Hlo, Hhi.
    apply elem_of_cons in Hlo as [->|Hlo];
      [|apply elem_of_cons in Hlo as [->|Hlo]; [|by apply elem_of_nil in Hlo]];
    (apply elem_of_cons in Hhi as [->|Hhi];
      [|apply elem_of_cons in Hhi as [->|Hhi]; [|by apply elem_of_nil in Hhi]]);
    try (vm_compute in Hlt; discriminate Hlt).
    reflexivity.
Defined.

Lemma resize_nodes_spec (MIN_NODE_SIZE MAX_NODE_SIZE : Q)
    (scaling_vars : ScalingVars) (method : string)
    (nodes : list (gmap string value)) :
  mapM (resize_node MIN_NODE_SIZE MAX_NODE_SIZE scaling_vars method) nodes
  = match resize_nodes MIN_NODE_SIZE MAX_NODE_SIZE scaling_vars method nodes with
    | (Ok _, nodes') => Ok nodes'
    | (Raise e, _) => Raise e
    end.
Proof.
  induction nodes as [|node nodes IH]; simpl; [done|].
  destruct (resize_node _ _ _ _ node) as [node'|]; simpl; [|done].
  rewrite IH. by destruct (resize_nodes _ _ _ _ nodes) as [[[]|] rest].
Qed.

(** The outcome of the loops on the object is the outcome of
    [callback_size_nodes]. *)
Lemma size_nodes_in_place_spec
    (MIN_NODE_SIZE MAX_NODE_SIZE DEFAULT_NODE_SIZE : Q)
    (data : GraphData) (scaling_vars : ScalingVars)
    (size_topics_by : option string) :
  callback_size_nodes MIN_NODE_SIZE MAX_NODE_SIZE DEFAULT_NODE_SIZE
    data scaling_vars size_topics_by
  = match size_nodes_in_place MIN_NODE_SIZE MAX_NODE_SIZE DEFAULT_NODE_SIZE
            data scaling_vars size_topics_by with
    | (Ok _, data') => Ok data'
    | (Raise e, _) => Raise e
    end.
Proof.
  unfold callback_size_nodes, size_nodes_in_place.
  destruct size_topics_by as [label|]; [|done].
  destruct (last_item _) as [method|]; simpl; [|done].
  rewrite resize_nodes_spec.
  by destruct (resize_nodes _ _ _ _ _) as [[[]|] rest].
Qed.

Lemma reset_sized_node (DEFAULT_NODE_SIZE : Q) (r : NodeRow) (size : value) :
  <["size" := Num DEFAULT_NODE_SIZE]>
    (<["size" := size]> (node_of_row DEFAULT_NODE_SIZE r))
  = node_of_row DEFAULT_NODE_SIZE r.
Proof.
  rewrite insert_insert_eq. apply insert_id. unfold node_of_row. by lookup_tac.
Qed.

(** X27.  A search that finds nothing keeps the last graph.  After a
    callback whose search found tables and that returned, a callback whose
    search has no tables and that has no sizing label returns the graph of
    the earlier search, every node at the default size again, and keeps the
    bounds of the earlier search in [self.scaling_vars]. *)
Theorem missed_search_shows_the_last_graph (set_iter : gset value → list value)
    (str_of_num : Q → string) (MIN_NODE_SIZE MAX_NODE_SIZE DEFAULT_NODE_SIZE : Q)
    (self self1 : Medial) (search1 size1 search2 : option string)
    (edges : list EdgeRow) (nodes : list NodeRow) (data1 : GraphData) :
  generate_data set_iter (self_df self) search1 = Ok (Some (edges, nodes)) →
  setting_pane_callback set_iter str_of_num
    MIN_NODE_SIZE MAX_NODE_SIZE DEFAULT_NODE_SIZE self search1 size1
    = (Ok data1, self1) →
  generate_data set_iter (self_df self) search2 = Ok None →
  let last_graph :=
    {| data_nodes := node_of_row DEFAULT_NODE_SIZE <$> nodes;
       data_edges := edge_of_row str_of_num <$> edges |} in
  setting_pane_callback set_iter str_of_num
    MIN_NODE_SIZE MAX_NODE_SIZE DEFAULT_NODE_SIZE self1 search2 None
  = (Ok last_graph,
     {| self_df := self_df self; self_table := self_table self;
        self_data := last_graph;
        self_scaling_vars :=
          {| sv_node := Some (compute_scaling_vars_for_numerical_cols
                                (nodes_frame nodes));
             sv_edge := Some ∅ |} |}).
Proof.
  intros Hgen Hrun Hmiss last_graph.
  unfold setting_pane_callback in Hrun.
  rewrite callback_search_graph_cases, Hgen in Hrun. cbn [deref] in Hrun.
  pose proof (size_nodes_in_place_spec MIN_NODE_SIZE MAX_NODE_SIZE
                DEFAULT_NODE_SIZE last_graph
                {| sv_node := Some (compute_scaling_vars_for_numerical_cols
                                      (nodes_frame nodes));
                   sv_edge := Some ∅ |} size1) as Hspec.
  fold last_graph in Hrun.
  destruct (size_nodes_in_place _ _ _ last_graph _ size1) as [[[]|e] sized];
    [|done].
  injection Hrun as <- <-.
  apply callback_size_nodes_inv in Hspec as [Hedges HF].
  unfold setting_pane_callback.
  rewrite callback_search_graph_cases. cbn [self_df]. rewrite Hmiss.
  cbn [deref size_nodes_in_place self_data self_scaling_vars self_table].
  assert (<["size" := Num DEFAULT_NODE_SIZE]> <$> data_nodes sized
          = node_of_row DEFAULT_NODE_SIZE <$> nodes) as ->.
  { simpl in HF. apply Forall2_fmap_l in HF. clear -HF.
    induction HF as [|r node rs sized' [size ->] _ IH]; [done|].
    rewrite !fmap_cons, IH. f_equal; apply reset_sized_node. }
  by rewrite Hedges.
Qed.

(** On [df_two]: Life is found and sized by stories, then the search for a
    topic that does not exist shows Life and Writing at the default size. *)
Lemma missed_search_shows_the_last_graph_witness :
  ∃ data1 self1 self2,
    setting_pane_callback elements str_of_int64 10 50 15 (ex_medial df_two)
      (Some "Life") (Some "Number of stories") = (Ok data1, self1) ∧
    setting_pane_callback elements str_of_int64 10 50 15 self1
      (Some "Poetry") None
    = (Ok {| data_nodes := node_of_row 15 <$>
               [ {| id := "Life"; node_stories := 7; node_writers := 3 |};
                 {| id := "Writing"; node_stories := 5; node_writers := 4 |} ];
             data_edges := edge_of_row str_of_int64 <$>
               [ {| from := Str "Writing"; to := Str "Life" |} ] |}, self2).
Proof.
  destruct (setting_pane_callback elements str_of_int64 10 50 15
              (ex_medial df_two) (Some "Life") (Some "Number of stories"))
    as [[data1|e] self1] eqn:Hrun; [|vm_compute in Hrun; discriminate Hrun].
  eexists data1, self1, _. split; [reflexivity|].
  apply (missed_search_shows_the_last_graph elements str_of_int64 10 50 15
           (ex_medial df_two) self1 (Some "Life") (Some "Number of stories")
           (Some "Poetry")
           [{| from := Str "Writing"; to := Str "Life" |}]
           [{| id := "Life"; node_stories := 7; node_writers := 3 |};
            {| id := "Writing"; node_stories := 5; node_writers := 4 |}]
           data1).
  - vm_compute; reflexivity.
  - exact Hrun.
  - vm_compute; reflexivity.
Defined.

Lemma total_message_differs (x msg : string) :
  msg = "Type a topic you want to find." ∨ msg = "Topic not found." →
  Ok ("Total number of " +:+ x) ≠ Ok msg.
Proof. intros [-> | ->] H; simpl in H; discriminate H. Qed.

(** X28.  Which message is shown under the search box.  It asks to type a
    topic exactly when the search text is [None] or empty; it says that the
    topic is not found exactly when the text is not empty and its normal
    form is the normal form of no topic; and when [generate_data] returns
    tables it gives the text in quotation marks and the number of node rows
    less one, with a comma between groups of three digits. *)
Theorem related_topics_message (set_iter : gset value → list value)
    (self : Medial) (search_text : option string) :
  (update_total_related_topics set_iter self search_text
     = Ok "Type a topic you want to find." ↔
   search_text = None ∨ search_text = Some "") ∧
  (update_total_related_topics set_iter self search_text
     = Ok "Topic not found." ↔
   ∃ s, search_text = Some s ∧ s ≠ "" ∧
        clean s ∉ (λ r, clean (topic r)) <$> self_df self) ∧
  (∀ edges nodes,
     generate_data set_iter (self_df self) search_text = Ok (Some (edges, nodes)) →
     ∃ s, search_text = Some s ∧
          update_total_related_topics set_iter self search_text
          = Ok ("Total number of " +:+ String "034" s +:+
                String "034" " related topics: " +:+
                format_comma_d (Z.of_nat (length nodes) - 1))).
Proof.
  unfold update_total_related_topics.
  pose proof (generate_data_None_iff set_iter (self_df self) search_text) as Hnone.
  destruct (generate_data set_iter (self_df self) search_text)
    as [[[edges nodes]|]|e] eqn:Hgen; cbn [mbind result_bind].
  - assert (¬ (search_text = None ∨ search_text = Some "" ∨
               ∃ selected, search_text = Some selected ∧
                 clean selected ∉ (λ r, clean (topic r)) <$> self_df self))
      as Hnot by (intros H%Hnone; discriminate H).
    split; [|split].
    + split.
      * intros H. exfalso. eapply total_message_differs; [|exact H]. by left.
      * intros H. exfalso. apply Hnot. tauto.
    + split.
      * intros H. exfalso. eapply total_message_differs; [|exact H]. by right.
      * intros (s & Hs & _ & Hclean). exfalso. apply Hnot. eauto.
    + intros edges' nodes' [= <- <-].
      destruct search_text as [s|]; [eauto|]. discriminate Hgen.
  - case_bool_decide as Hd.
    + split; [by split|]. split; [|intros ? ? [=]].
      split; [intros [=]|]. intros (s & Hs & Hne & _).
      destruct Hd as [Hd|Hd]; congruence.
    + split; [split; [intros [=]|intros H; by destruct Hd]|].
      split; [|intros ? ? [=]]. split; [|done]. intros _.
      destruct (proj1 Hnone eq_refl) as [H|[H|(s & Hs & Hclean)]].
      * destruct Hd. by left.
      * destruct Hd. by right.
      * exists s. split; [done|]. split; [|done].
        intros ->. destruct Hd. by right.
  - assert (¬ (search_text = None ∨ search_text = Some "" ∨
               ∃ selected, search_text = Some selected ∧
                 clean selected ∉ (λ r, clean (topic r)) <$> self_df self))
      as Hnot by (intros H%Hnone; discriminate H).
    split; [|split].
    + split; [intros [=]|]. intros H. exfalso. apply Hnot. tauto.
    + split; [intros [=]|]. intros (s & Hs & _ & Hclean).
      exfalso. apply Hnot. eauto.
    + intros ? ? [=].
Qed.

(** ** [preprocess_data] and [Medial.__init__] *)

Lemma omap_lookup_seq {A} (table : list A) :
  omap (λ i, table !! i) (seq 0 (length table)) = table.
Proof.
  destruct (omap_lookup_total table (seq 0 (length table))) as [Hlen Hk].
  { intros i Hi%elem_of_seq. lia. }
  rewrite length_seq in Hlen.
  apply list_eq. intros k. destruct (decide (k < length table)) as [Hlt|Hge].
  - apply Hk. by rewrite lookup_seq_lt.
  - rewrite !lookup_ge_None_2; [done|lia|lia].
Qed.

(** X29.  The ranked table is a rearrangement of the rows of the dataset,
    each with the rounded exponential of its stories and of its writers and
    without its related topics, in descending order of [Stories], whenever
    [sort_values] returns the positions of the rows rearranged with their
    keys descending. *)
Theorem ranked_table_is_a_sorted_rearrangement
    (np_exp : Q → Q) (sort_order : list Q → list nat) (df : list TopicRecord) :
  sort_order (Stories <$> (summary_row np_exp <$> df)) ≡ₚ seq 0 (length df) →
  (∀ i j a b x y,
     i < j →
     sort_order (Stories <$> (summary_row np_exp <$> df)) !! i = Some a →
     sort_order (Stories <$> (summary_row np_exp <$> df)) !! j = Some b →
     (Stories <$> (summary_row np_exp <$> df)) !! a = Some x →
     (Stories <$> (summary_row np_exp <$> df)) !! b = Some y →
     (y <= x)%Q) →
  preprocess_data np_exp sort_order df ≡ₚ summary_row np_exp <$> df ∧
  ∀ i j ri rj,
    i < j →
    preprocess_data np_exp sort_order df !! i = Some ri →
    preprocess_data np_exp sort_order df !! j = Some rj →
    (Stories rj <= Stories ri)%Q.
Proof.
  intros Hperm Hdesc. unfold preprocess_data.
  set (table := summary_row np_exp <$> df) in *.
  set (idx := sort_order (Stories <$> table)) in *.
  assert (length table = length df) as Hlen by apply length_fmap.
  split.
  - rewrite Hperm, <- Hlen. by rewrite omap_lookup_seq.
  - destruct (omap_lookup_total table idx) as [Hlen' Hk].
    { intros k Hk. rewrite Hperm in Hk. apply elem_of_seq in Hk. lia. }
    intros i j ri rj Hij Hi Hj.
    pose proof (lookup_lt_Some _ _ _ Hi) as Hi'.
    pose proof (lookup_lt_Some _ _ _ Hj) as Hj'.
    destruct (lookup_lt_is_Some_2 idx i) as [a Ha]; [lia|].
    destruct (lookup_lt_is_Some_2 idx j) as [b Hb]; [lia|].
    rewrite (Hk i a Ha) in Hi. rewrite (Hk j b Hb) in Hj.
    apply (Hdesc i j a b); try done.
    + by rewrite list_lookup_fmap, Hi.
    + by rewrite list_lookup_fmap, Hj.
Qed.

(** [df_two] is in descending order of stories already: the ranked table
    has its two rows, Life before Writing. *)
Lemma ranked_table_is_a_sorted_rearrangement_witness :
  preprocess_data (λ q, q) (λ _, [0; 1]) df_two
    ≡ₚ summary_row (λ q, q) <$> df_two.
Proof.
  apply (ranked_table_is_a_sorted_rearrangement (λ q, q) (λ _, [0; 1]) df_two).
  - reflexivity.
  - intros i j a b x y Hij Hi Hj Hx Hy.
    destruct i as [|[|i]]; destruct j as [|[|j]]; simpl in Hi, Hj;
      try lia; try discriminate.
    injection Hi as <-. injection Hj as <-.
    vm_compute in Hx, Hy. injection Hx as <-. injection Hy as <-.
    discriminate.
Defined.

(** X30.  The application starts on the topic Life.  Building the object
    fails with an AttributeError, [parse_data] being passed [None] for both
    tables, exactly when no topic of the dataset has the normal form
    [life]; when [generate_data] returns tables for Life, the object is
    built with the ranked table, the payload of these tables and their
    bounds, and [parse_data] raises nothing. *)
Theorem startup_needs_the_topic_Life (set_iter : gset value → list value)
    (str_of_num : Q → string) (np_exp : Q → Q) (sort_order : list Q → list nat)
    (DEFAULT_NODE_SIZE : Q) (df : list TopicRecord) :
  (Medial_init set_iter str_of_num np_exp sort_order DEFAULT_NODE_SIZE df
     = inr AttributeError ↔
   "life" ∉ (λ r, clean (topic r)) <$> df) ∧
  (∀ edges nodes,
     generate_data set_iter df (Some "Life") = Ok (Some (edges, nodes)) →
     Medial_init set_iter str_of_num np_exp sort_order DEFAULT_NODE_SIZE df
     = inl {| self_df := df;
              self_table := preprocess_data np_exp sort_order df;
              self_data :=
                {| data_nodes := node_of_row DEFAULT_NODE_SIZE <$> nodes;
                   data_edges := edge_of_row str_of_num <$> edges |};
              self_scaling_vars :=
                {| sv_node := Some (compute_scaling_vars_for_numerical_cols
                                      (nodes_frame nodes));
                   sv_edge := Some ∅ |} |}).
Proof.
  unfold Medial_init, call_generate_data, bind_selected_topic.
  pose proof (generate_data_None_iff set_iter df (Some "Life")) as Hnone.
  destruct (generate_data set_iter df (Some "Life"))
    as [[[edges nodes]|]|e] eqn:Hgen.
  - rewrite parse_data_fresh_tables. split.
    + split; [done|]. intros Hlife. exfalso.
      pose proof (proj2 Hnone (or_intror (or_intror
                    (ex_intro _ "Life" (conj eq_refl Hlife))))) as Hn.
      discriminate Hn.
    + by intros edges' nodes' [= <- <-].
  - split; [|done]. split; [|done]. intros _.
    destruct (proj1 Hnone eq_refl) as [[=]|[[=]|(s & [= <-] & Hs)]]. exact Hs.
  - split; [|done]. split; [done|]. intros Hlife. exfalso.
    pose proof (proj2 Hnone (or_intror (or_intror
                  (ex_intro _ "Life" (conj eq_refl Hlife))))) as Hn.
    discriminate Hn.
Qed.
